(** * ControllerService: line buffering, command queue and session handshake

    A shallow embedding of [src/services/controllerservice/ControllerService.ts]
    (fluid-installer).  JavaScript strings are modelled as [string], byte
    buffers as [list byte], numbers that hold times and indices as [Z].  The
    fields of the [ControllerService] object are a record; the JavaScript
    objects it shares with its callers (commands, timers, promises) and the
    serial port live in a second record, the runtime.  A second part embeds
    [src/services/InstallService.ts]. *)

From Stdlib Require Import String Ascii List ZArith Lia Bool.
Import ListNotations.
Open Scope string_scope.
Open Scope Z_scope.

(** ** JavaScript string primitives used by the service *)

Module JsString.

Definition CR : ascii := "013"%char.
Definition LF : ascii := "010"%char.

(** The one-character string that the source writes as a backslash-n
    literal. *)
Definition newline : string := String LF EmptyString.

Definition length (s : string) : Z := Z.of_nat (String.length s).

(** [s.startsWith(p)] *)
Definition startsWith (s p : string) : bool := String.prefix p s.

(** [s.indexOf(needle)]: index of the first occurrence, [-1] when there is
    none.  [indexOf_from] carries the index of the current position. *)
Fixpoint indexOf_from (i : Z) (s needle : string) : Z :=
  if String.prefix needle s then i
  else match s with
       | EmptyString => -1
       | String _ s' => indexOf_from (i + 1) s' needle
       end.

Definition indexOf (s needle : string) : Z := indexOf_from 0 s needle.

(** [s.substring(a, b)]: both indices are clamped to [0 .. length] and
    swapped when out of order. *)
Definition clamp (s : string) (i : Z) : Z := Z.max 0 (Z.min i (length s)).

Definition substring (s : string) (a b : Z) : string :=
  let lo := Z.min (clamp s a) (clamp s b) in
  let hi := Z.max (clamp s a) (clamp s b) in
  String.substring (Z.to_nat lo) (Z.to_nat (hi - lo)) s.

(** [s.substring(a)] *)
Definition substring_from (s : string) (a : Z) : string :=
  substring s a (length s).

(** [s.replace(/\r/g, "")] *)
Fixpoint removeCR (s : string) : string :=
  match s with
  | EmptyString => EmptyString
  | String c s' => if Ascii.eqb c CR then removeCR s' else String c (removeCR s')
  end.

(** The text [s] "with all carriage-return characters removed", as the
    specification words it: the characters of [s] other than the carriage
    return, in their order.  [removeCR] above is what the source computes;
    the two are compared below. *)
Definition without_CR (s : string) : string :=
  string_of_list_ascii
    (filter (fun c => negb (Ascii.eqb c CR)) (list_ascii_of_string s)).

(** [s.endsWith(p)] *)
Definition endsWith (s p : string) : bool :=
  let n := String.length s in
  let m := String.length p in
  if (m <=? n)%nat
  then String.eqb (String.substring (n - m) m s) p
  else false.

(** [needle] occurs in [s] at offset [i]. *)
Definition occursAt (i : nat) (needle s : string) : Prop :=
  exists pre post, s = pre ++ needle ++ post /\ String.length pre = i.

(** The character [c] occurs nowhere in [s]. *)
Fixpoint lacks (c : ascii) (s : string) : Prop :=
  match s with
  | EmptyString => True
  | String a s' => a <> c /\ lacks c s'
  end.

End JsString.

Import JsString.

(** ** Welcome banner *)

(** [isWelcomeString(response: string | undefined)].  The source returns
    [response && (...)]; its only caller tests the value for truthiness, which
    is what the boolean stands for.  [undefined] and the empty string are
    falsy. *)
Definition isWelcomeString (response : option string) : bool :=
  match response with
  | None => false
  | Some r =>
      negb (String.eqb r "") &&
      (startsWith r "GrblHAL " ||
       startsWith r "Grbl " ||
       (0 <? indexOf r " [FluidNC v"))
  end.

(** ** Data model *)

(** [enum ControllerStatus] *)
Inductive ControllerStatus : Type :=
| CONNECTION_LOST
| DISCONNECTED
| CONNECTING
| CONNECTED
| UNKNOWN_DEVICE.

(** Modelled from the spec: [enum CommandState] of [commands/Command.ts],
    which is not among the sources.  The spec lists the states pending,
    complete and cancelled; the service only ever compares a command's state
    with [CommandState.DONE], its name for the complete state. *)
Inductive CommandState : Type :=
| PENDING
| DONE
| CANCELLED.

Definition CommandState_eqb (a b : CommandState) : bool :=
  match a, b with
  | PENDING, PENDING | DONE, DONE | CANCELLED, CANCELLED => true
  | _, _ => false
  end.

(** A Node [Buffer]. *)
Definition Buffer : Type := list Byte.byte.

(** References to command objects, promise handles and timer handles. *)
Definition Ref : Type := nat.
Definition PromiseId : Type := nat.
Definition TimerId : Type := nat.

(** Modelled from the spec: the [Command] class of [commands/Command.ts] and
    its variants [PingCommand] and [GetStatsCommand], which are not among the
    sources.  A command carries the text to transmit and a state, and
    [appendLine] consumes one response line: it mutates the command's own
    fields and may call the command's [onDone] callback, which is what the
    boolean of the result records.  Commands are pure line-consuming state
    machines: they touch nothing but their own fields.  [Command_getStats]
    is the method [getStats()] of a [GetStatsCommand]. *)
Class CommandClass (Cmd Stats : Type) : Type := {
  command : Cmd -> string;
  state : Cmd -> CommandState;
  appendLine : string -> Cmd -> Cmd * bool;
  newPingCommand : Cmd;
  newGetStatsCommand : Cmd;
  Command_getStats : Cmd -> option Stats
}.

(** Modelled from the spec: a command reports completion through [onDone]
    exactly when a line takes it to the complete state ("if that command's
    state becomes COMPLETE, it is popped and its result resolved"). *)
Class CommandNotifies {Cmd Stats : Type} (C : CommandClass Cmd Stats) : Prop :=
  onDone_iff_done :
    forall (line : string) (c : Cmd),
      state c <> DONE ->
      (snd (appendLine line c) = true <-> state (fst (appendLine line c)) = DONE).

(** The platform's text codec: [buffer.toString()] and [Buffer.from(text)]. *)
Class Codec : Type := {
  toString : Buffer -> string;
  fromString : string -> Buffer
}.

(** ** The codec of the program

    [data.toString()] decodes a [Buffer] as UTF-8 and [Buffer.from(text)]
    encodes a string as UTF-8.  A [string] of the model holds the text in its
    UTF-8 encoding, one byte per character of the [string]: an ASCII
    character is itself, a well-formed sequence decodes to itself, and every
    maximal ill-formed part of the input decodes to the replacement
    character U+FFFD, whose encoding is the three bytes EF BF BD.  The
    operations that the service applies to strings ([indexOf] of a newline,
    [substring] at the index found, [replace] of carriage returns,
    [startsWith]) cut such a string only next to an ASCII character, so they
    commute with the encoding. *)

Module Utf8.

Definition code (b : Byte.byte) : Z := Z.of_N (Byte.to_N b).

(** The encoding of U+FFFD. *)
Definition replacement : string :=
  string_of_list_byte [Byte.xef; Byte.xbf; Byte.xbd].

(** A character of several bytes of which only the first bytes have been
    seen: those bytes, the number of bytes still needed and the range in
    which the next byte must lie. *)
Record Partial : Type := mkPartial {
  seen : list Byte.byte;
  needed : nat;
  lower : Z;
  upper : Z
}.

(** The decoder meets the byte [b] where a character starts. *)
Definition start (b : Byte.byte) : string * option Partial :=
  let c := code b in
  if c <=? 127 then (string_of_list_byte [b], None)
  else if (194 <=? c) && (c <=? 223) then
    ("", Some (mkPartial [b] 1 128 191))
  else if (224 <=? c) && (c <=? 239) then
    ("", Some (mkPartial [b] 2 (if c =? 224 then 160 else 128)
                               (if c =? 237 then 159 else 191)))
  else if (240 <=? c) && (c <=? 244) then
    ("", Some (mkPartial [b] 3 (if c =? 240 then 144 else 128)
                               (if c =? 244 then 143 else 191)))
  else (replacement, None).

(** One byte: what is put out and the state afterwards.  A byte that cannot
    continue the character under way ends it (U+FFFD is put out for what was
    seen of it) and is looked at again as the start of a character. *)
Definition step (st : option Partial) (b : Byte.byte) : string * option Partial :=
  match st with
  | None => start b
  | Some p =>
      if (lower p <=? code b) && (code b <=? upper p) then
        match needed p with
        | S (S n) => ("", Some (mkPartial (seen p ++ [b]) (S n) 128 191))
        | _ => (string_of_list_byte (seen p ++ [b]), None)
        end
      else
        let (out, st') := start b in (replacement ++ out, st')
  end.

Fixpoint run (st : option Partial) (bs : list Byte.byte)
  : string * option Partial :=
  match bs with
  | [] => ("", st)
  | b :: bs' =>
      let (out1, st1) := step st b in
      let (out2, st2) := run st1 bs' in
      (out1 ++ out2, st2)
  end.

(** The end of the input, for a decoder in the state [st]: a character under
    way is ill-formed. *)
Definition flush (st : option Partial) : string :=
  match st with
  | None => ""
  | Some _ => replacement
  end.

(** [buffer.toString()] *)
Definition decode (bs : list Byte.byte) : string :=
  let (out, st) := run None bs in out ++ flush st.

(** The buffer does not end inside a character of several bytes. *)
Definition ends_on_boundary (bs : list Byte.byte) : bool :=
  match snd (run None bs) with
  | None => true
  | Some _ => false
  end.

(** [buffer.toString()] and [Buffer.from(text)]. *)
Definition utf8 : Codec := {|
  toString := decode;
  fromString := list_byte_of_string
|}.

End Utf8.

(** How a promise returned by [send] was settled. *)
Inductive Settlement : Type :=
| Resolved (c : Ref)
| Rejected (reason : string).

(** A pending [setTimeout] callback armed by [send]: it fires at [due] and
    captures the command and the [reject] function of its promise. *)
Record Timer : Type := mkTimer {
  timer_id : TimerId;
  due : Z;
  timer_command : Ref;
  timer_promise : PromiseId
}.

(** Callbacks registered with [serialPort.addReader]. *)
Inductive Reader : Type :=
| OnDataReader
| BufferedReader (id : nat).

Definition Reader_eqb (a b : Reader) : bool :=
  match a, b with
  | OnDataReader, OnDataReader => true
  | BufferedReader i, BufferedReader j => Nat.eqb i j
  | _, _ => false
  end.

(** Modelled from the spec: the transport ([utils/serialport/SerialPort.ts],
    not among the sources), as far as the service observes it: whether it is
    open, the registered readers, the buffers handed to [write] and the
    number of disconnect listeners registered on the native port. *)
Record SerialPort : Type := mkSerialPort {
  isOpen : bool;
  readers : list Reader;
  written : list Buffer;
  disconnectListeners : nat
}.

(** ** A concrete command class, for evaluating the model *)

Module SimpleCommands.

Inductive Kind : Type := Ping | GetStats | Plain.

Record SimpleCommand : Type := mkSimple {
  sc_kind : Kind;
  sc_text : string;
  sc_state : CommandState;
  sc_response : list string
}.

Definition complete (c : SimpleCommand) : SimpleCommand * bool :=
  (mkSimple (sc_kind c) (sc_text c) DONE (sc_response c), true).

Definition collect (line : string) (c : SimpleCommand) : SimpleCommand * bool :=
  (mkSimple (sc_kind c) (sc_text c) (sc_state c) (sc_response c ++ [line]), false).

(** Modelled from the spec: a liveness-ping command treats any single line
    as completion; the other commands accumulate lines until they see the
    terminator line, here [ok].  The command texts of the instance are
    placeholders; no property depends on them. *)
Definition simple_appendLine (line : string) (c : SimpleCommand)
  : SimpleCommand * bool :=
  match sc_kind c with
  | Ping => complete c
  | GetStats | Plain => if String.eqb line "ok" then complete c else collect line c
  end.

#[export] Instance simpleCommands : CommandClass SimpleCommand (list string) := {
  command := sc_text;
  state := sc_state;
  appendLine := simple_appendLine;
  newPingCommand := mkSimple Ping "$G" PENDING [];
  newGetStatsCommand := mkSimple GetStats "$SS" PENDING [];
  Command_getStats := fun c => Some (sc_response c)
}.

(** The model is evaluated with the codec of the program. *)
#[export] Existing Instance Utf8.utf8.

End SimpleCommands.

(** ** The service and the JavaScript runtime around it *)

Section Controller.

Context {Cmd Stats : Type} {commandClass : CommandClass Cmd Stats} {codec : Codec}.

(** The closure that [send] stores in [command.onDone].  It captures the
    timer handle ([None] when no timeout was armed; the handles that
    [setTimeout] returns are truthy), the [resolve] function of the promise
    that [send] returns, and the command. *)
Record OnDoneClosure : Type := mkClosure {
  od_timer : option TimerId;
  od_promise : PromiseId;
  od_command : Ref
}.

(** A command object on the heap: the fields its class owns, and the
    [onDone] property that [send] overwrites.  [None] stands for the callback
    the constructor installed, which does nothing to the service. *)
Record CommandObject : Type := mkObject {
  fields : Cmd;
  onDone : option OnDoneClosure
}.

(** The fields of [class ControllerService]; the [serialPort] field refers to
    the port object of the runtime. *)
Record ControllerService : Type := mkService {
  buffer : string;
  commands : list Ref;
  xmodemMode : bool;
  status : ControllerStatus;
  currentVersion : option string;
  statusListeners : list nat;
  stats : option Stats
}.

(** The rest of the JavaScript world the service acts on: the heap of command
    objects, the pending timers, the log of settled [send] promises (oldest
    first), the clock and the serial port. *)
Record Runtime : Type := mkRuntime {
  heap : Ref -> CommandObject;
  nextRef : Ref;
  timers : list Timer;
  nextTimer : TimerId;
  settled : list (PromiseId * Settlement);
  nextPromise : PromiseId;
  now : Z;
  serialPort : SerialPort
}.

Record World : Type := mkWorld {
  this : ControllerService;
  js : Runtime
}.

(** [constructor(serialPort)] together with the field initialisers. *)
Definition constructor : ControllerService :=
  {| buffer := "";
     commands := [];
     xmodemMode := false;
     status := DISCONNECTED;
     currentVersion := None;
     statusListeners := [];
     stats := None |}.

(** *** Field assignments *)

Definition with_buffer (b : string) (w : World) : World :=
  let t := this w in
  mkWorld (mkService b (commands t) (xmodemMode t) (status t)
             (currentVersion t) (statusListeners t) (stats t)) (js w).

Definition with_commands (cs : list Ref) (w : World) : World :=
  let t := this w in
  mkWorld (mkService (buffer t) cs (xmodemMode t) (status t)
             (currentVersion t) (statusListeners t) (stats t)) (js w).

Definition with_xmodemMode (b : bool) (w : World) : World :=
  let t := this w in
  mkWorld (mkService (buffer t) (commands t) b (status t)
             (currentVersion t) (statusListeners t) (stats t)) (js w).

Definition with_status (st : ControllerStatus) (w : World) : World :=
  let t := this w in
  mkWorld (mkService (buffer t) (commands t) (xmodemMode t) st
             (currentVersion t) (statusListeners t) (stats t)) (js w).

Definition with_currentVersion (v : option string) (w : World) : World :=
  let t := this w in
  mkWorld (mkService (buffer t) (commands t) (xmodemMode t) (status t)
             v (statusListeners t) (stats t)) (js w).

Definition with_stats (st : option Stats) (w : World) : World :=
  let t := this w in
  mkWorld (mkService (buffer t) (commands t) (xmodemMode t) (status t)
             (currentVersion t) (statusListeners t) st) (js w).

Definition with_heap (h : Ref -> CommandObject) (w : World) : World :=
  let r := js w in
  mkWorld (this w) (mkRuntime h (nextRef r) (timers r) (nextTimer r)
                      (settled r) (nextPromise r) (now r) (serialPort r)).

Definition with_nextRef (n : Ref) (w : World) : World :=
  let r := js w in
  mkWorld (this w) (mkRuntime (heap r) n (timers r) (nextTimer r)
                      (settled r) (nextPromise r) (now r) (serialPort r)).

Definition with_timers (ts : list Timer) (w : World) : World :=
  let r := js w in
  mkWorld (this w) (mkRuntime (heap r) (nextRef r) ts (nextTimer r)
                      (settled r) (nextPromise r) (now r) (serialPort r)).

Definition with_nextTimer (n : TimerId) (w : World) : World :=
  let r := js w in
  mkWorld (this w) (mkRuntime (heap r) (nextRef r) (timers r) n
                      (settled r) (nextPromise r) (now r) (serialPort r)).

Definition with_settled (l : list (PromiseId * Settlement)) (w : World) : World :=
  let r := js w in
  mkWorld (this w) (mkRuntime (heap r) (nextRef r) (timers r) (nextTimer r)
                      l (nextPromise r) (now r) (serialPort r)).

Definition with_nextPromise (n : PromiseId) (w : World) : World :=
  let r := js w in
  mkWorld (this w) (mkRuntime (heap r) (nextRef r) (timers r) (nextTimer r)
                      (settled r) n (now r) (serialPort r)).

Definition with_now (t : Z) (w : World) : World :=
  let r := js w in
  mkWorld (this w) (mkRuntime (heap r) (nextRef r) (timers r) (nextTimer r)
                      (settled r) (nextPromise r) t (serialPort r)).

Definition with_serialPort (p : SerialPort) (w : World) : World :=
  let r := js w in
  mkWorld (this w) (mkRuntime (heap r) (nextRef r) (timers r) (nextTimer r)
                      (settled r) (nextPromise r) (now r) p).

(** The object stored at a reference, and the store with one object
    replaced. *)
Definition deref (w : World) (c : Ref) : CommandObject := heap (js w) c.

Definition store (c : Ref) (o : CommandObject) (w : World) : World :=
  with_heap (fun r => if Nat.eqb r c then o else heap (js w) r) w.

(** *** Promises and timers *)

Fixpoint settlement (p : PromiseId) (log : list (PromiseId * Settlement))
  : option Settlement :=
  match log with
  | [] => None
  | (q, o) :: log' => if Nat.eqb q p then Some o else settlement p log'
  end.

(** [resolve(..)] and [reject(..)]: a promise settles once; later calls do
    nothing. *)
Definition settle (p : PromiseId) (o : Settlement) (w : World) : World :=
  match settlement p (settled (js w)) with
  | Some _ => w
  | None => with_settled (settled (js w) ++ [(p, o)]) w
  end.

Definition armed (tid : TimerId) (t : Timer) : bool := Nat.eqb (timer_id t) tid.

(** [clearTimeout(timer)] *)
Definition clearTimeout (tid : TimerId) (w : World) : World :=
  with_timers (filter (fun t => negb (armed tid t)) (timers (js w))) w.

(** [serialPort.write(buffer)], as the service sees it: the buffer is handed
    to the port. *)
Definition port_write (b : Buffer) (w : World) : World :=
  let p := serialPort (js w) in
  with_serialPort (mkSerialPort (isOpen p) (readers p) (written p ++ [b])
                     (disconnectListeners p)) w.

(** *** Commands *)

(** A call of [command.onDone()] where the property holds the closure that
    [send] created: [if (timer) clearTimeout(timer); resolve(command)]. *)
Definition call_onDone (c : Ref) (w : World) : World :=
  match onDone (deref w c) with
  | None => w
  | Some k =>
      let w1 := match od_timer k with
                | Some tid => clearTimeout tid w
                | None => w
                end in
      settle (od_promise k) (Resolved (od_command k)) w1
  end.

(** The method call [command.appendLine(line)] on the object at [c]. *)
Definition Command_appendLine (c : Ref) (line : string) (w : World) : World :=
  let o := deref w c in
  let (f, called) := appendLine line (fields o) in
  let w1 := store c (mkObject f (onDone o)) w in
  if called then call_onDone c w1 else w1.

(** [_removeCommand]: [this.commands.filter((c) => c !== command)] *)
Definition _removeCommand (c : Ref) (w : World) : World :=
  with_commands (filter (fun x => negb (Nat.eqb x c)) (commands (this w))) w.

(** The callback that [send] hands to [setTimeout], run when the timer [t]
    fires (the timer is then no longer pending):
    [this._removeCommand(command); reject("Command timed out")]. *)
Definition fireTimer (t : Timer) (w : World) : World :=
  let w1 := clearTimeout (timer_id t) w in
  let w2 := _removeCommand (timer_command t) w1 in
  settle (timer_promise t) (Rejected "Command timed out") w2.

(** The longest delay that [setTimeout] honours: its delay is a signed
    integer of 32 bits, and a delay that does not fit makes the timer fire at
    once. *)
Definition TIMEOUT_MAX : Z := 2147483647.

(** [send(command, timeoutMs = 0)] returns the new promise.  The timer is
    due [timeoutMs] after the call, which is what [setTimeout] does with a
    delay of at most [TIMEOUT_MAX]; the service itself passes 1000 and
    5000. *)
Definition send (c : Ref) (timeoutMs : Z) (w : World) : World * PromiseId :=
  let w1 := with_commands (commands (this w) ++ [c]) w in
  let p := nextPromise (js w1) in
  let w2 := with_nextPromise (S p) w1 in
  let '(w3, timer) :=
    if 0 <? timeoutMs then
      let tid := nextTimer (js w2) in
      (with_nextTimer (S tid)
         (with_timers (timers (js w2) ++ [mkTimer tid (now (js w2) + timeoutMs) c p]) w2),
       Some tid)
    else (w2, None) in
  let w4 := store c (mkObject (fields (deref w3 c)) (Some (mkClosure timer p c))) w3 in
  let w5 := port_write (fromString (command (fields (deref w4 c)) ++ newline)) w4 in
  (w5, p).

(** *** [onData] *)

(** The body of the [if (this.commands.length)] block: the line goes to
    [this.commands[0]], which is dropped from the queue when its state is
    [DONE] afterwards. *)
Definition routeLine (line : string) (w : World) : World :=
  match commands (this w) with
  | [] => w
  | c0 :: _ =>
      let w1 := Command_appendLine c0 line w in
      if CommandState_eqb (state (fields (deref w1 c0))) DONE
      then with_commands (tl (commands (this w1))) w1
      else w1
  end.

(** The [while (endLineIndex >= 0)] loop.  Every round removes at least one
    character from the buffer, so the length of the buffer bounds the number
    of rounds; the second component lists the lines split off, each of which
    the source also writes to the console. *)
Fixpoint onData_loop (fuel : nat) (w : World) : World * list string :=
  let endLineIndex := indexOf (buffer (this w)) newline in
  if 0 <=? endLineIndex then
    match fuel with
    | O => (w, [])
    | S fuel' =>
        let line := substring (buffer (this w)) 0 endLineIndex in
        let w1 := with_buffer (substring_from (buffer (this w)) (endLineIndex + 1)) w in
        let w2 := routeLine line w1 in
        let (w3, ls) := onData_loop fuel' w2 in
        (w3, line :: ls)
    end
  else (w, []).

Definition onData (data : Buffer) (w : World) : World * list string :=
  if xmodemMode (this w) then (w, [])
  else
    let w1 := with_buffer (buffer (this w) ++ removeCR (toString data)) w in
    onData_loop (String.length (buffer (this w1))) w1.

(** Feeding a sequence of chunks, one [onData] call each. *)
Fixpoint feed (chunks : list Buffer) (w : World) : World * list string :=
  match chunks with
  | [] => (w, [])
  | d :: rest =>
      let (w1, ls1) := onData d w in
      let (w2, ls2) := feed rest w1 in
      (w2, (ls1 ++ ls2)%list)
  end.

(** The lines of a list joined again, each followed by its newline. *)
Fixpoint unlines (ls : list string) : string :=
  match ls with
  | [] => ""
  | l :: ls' => l ++ newline ++ unlines ls'
  end.

(** The text of a sequence of chunks: each chunk decoded as [onData] does,
    in arrival order. *)
Fixpoint decoded (chunks : list Buffer) : string :=
  match chunks with
  | [] => ""
  | d :: rest => toString d ++ decoded rest
  end.

(** The lines of a list routed one after the other. *)
Definition routeLines (ls : list string) (w : World) : World :=
  fold_left (fun w' l => routeLine l w') ls w.

(** Two snapshots of the service that agree on every field but the queue. *)
Definition same_but_queue (a b : ControllerService) : Prop :=
  buffer a = buffer b /\ xmodemMode a = xmodemMode b /\ status a = status b /\
  currentVersion a = currentVersion b /\ statusListeners a = statusListeners b /\
  stats a = stats b.

(** [send] called once for each command of a list, in order, with the same
    timeout; the promises are returned in the order of the calls. *)
Fixpoint sendAll (cs : list Ref) (timeoutMs : Z) (w : World)
  : World * list PromiseId :=
  match cs with
  | [] => (w, [])
  | c :: cs' =>
      let (w1, p) := send c timeoutMs w in
      let (w2, ps) := sendAll cs' timeoutMs w1 in
      (w2, p :: ps)
  end.

(** The lines [ls] are exactly what the command [o] expects: it is not
    complete before the last of them and complete after it. *)
Fixpoint completes_on (o : Cmd) (ls : list string) : Prop :=
  match ls with
  | [] => False
  | l :: ls' =>
      state o <> DONE /\
      match ls' with
      | [] => state (fst (appendLine l o)) = DONE
      | _ :: _ => completes_on (fst (appendLine l o)) ls'
      end
  end.

(** Promise handles are handed out in increasing order: every handle in the
    settlement log is older than the next handle. *)
Definition promises_allocated (w : World) : Prop :=
  forall p o, In (p, o) (settled (js w)) -> (p < nextPromise (js w))%nat.

(** A command that was sent, the promise [send] returned for it and the
    lines that will arrive for it. *)
Definition Job : Type := (Ref * PromiseId * list string)%type.

Definition job_command (j : Job) : Ref := fst (fst j).
Definition job_promise (j : Job) : PromiseId := snd (fst j).
Definition job_lines (j : Job) : list string := snd j.

(** The command of a job was sent without a timeout, its promise is still
    pending and the lines of the job are the ones it expects. *)
Definition ready (w : World) (j : Job) : Prop :=
  onDone (deref w (job_command j))
    = Some (mkClosure None (job_promise j) (job_command j)) /\
  settlement (job_promise j) (settled (js w)) = None /\
  completes_on (fields (deref w (job_command j))) (job_lines j).

(** *** The event loop: timers and time *)

(** The pending timer that fires next: the one due first, the oldest among
    those due at the same time. *)
Fixpoint earliest (ts : list Timer) : option Timer :=
  match ts with
  | [] => None
  | t :: ts' =>
      match earliest ts' with
      | Some t' => if due t' <? due t then Some t' else Some t
      | None => Some t
      end
  end.

(** Time passes until [limit]: the timers due by then fire, earliest first.
    A firing timer leaves the list of pending timers and no callback arms a
    new one, so the number of pending timers bounds the number of rounds. *)
Fixpoint advance_loop (fuel : nat) (limit : Z) (w : World) : World :=
  match fuel with
  | O => w
  | S fuel' =>
      match earliest (timers (js w)) with
      | Some t =>
          if due t <=? limit
          then advance_loop fuel' limit
                 (fireTimer t (with_now (Z.max (now (js w)) (due t)) w))
          else w
      | None => w
      end
  end.

Definition advance (limit : Z) (w : World) : World :=
  let w' := advance_loop (List.length (timers (js w))) limit w in
  with_now (Z.max (now (js w')) limit) w'.

(** What can happen to the service between two points of a caller's
    program: a chunk arrives, somebody sends a command, time passes. *)
Inductive Activity : Type :=
| Arrives (d : Buffer)
| Sends (c : Ref) (timeoutMs : Z)
| Passes (limit : Z).

Definition act (a : Activity) (w : World) : World :=
  match a with
  | Arrives d => fst (onData d w)
  | Sends c timeoutMs => fst (send c timeoutMs w)
  | Passes limit => advance limit w
  end.

Definition run (acts : list Activity) (w : World) : World :=
  fold_left (fun w' a => act a w') acts w.

(** Handles are allocated in increasing order and a closure of [send] that
    names a timer resolves the promise which that timer rejects. *)
Definition wf (w : World) : Prop :=
  promises_allocated w /\
  (forall t, In t (timers (js w)) ->
             (timer_id t < nextTimer (js w))%nat /\
             (timer_promise t < nextPromise (js w))%nat) /\
  NoDup (map timer_id (timers (js w))) /\
  (forall r k, onDone (deref w r) = Some k ->
               (od_promise k < nextPromise (js w))%nat) /\
  (forall r k tid,
      onDone (deref w r) = Some k -> od_timer k = Some tid ->
      (tid < nextTimer (js w))%nat /\
      forall t, In t (timers (js w)) -> timer_id t = tid ->
                timer_promise t = od_promise k).

(** The settlement log after [settle p o]. *)
Definition settled_after (p : PromiseId) (o : Settlement)
    (log : list (PromiseId * Settlement)) : list (PromiseId * Settlement) :=
  match settlement p log with
  | Some _ => log
  | None => log ++ [(p, o)]
  end.

(** Two worlds with the same handle counters and the same [onDone]
    closures. *)
Definition same_handles (w w' : World) : Prop :=
  nextTimer (js w') = nextTimer (js w) /\
  nextPromise (js w') = nextPromise (js w) /\
  forall r, onDone (deref w' r) = onDone (deref w r).

(** The three ways in which a callback of the service changes the timers and
    the settlement log: not at all; a command calls the closure that [send]
    stored in it; a pending timer fires. *)
Inductive callback (w w' : World) : Prop :=
| callback_quiet :
    same_handles w w' ->
    timers (js w') = timers (js w) ->
    settled (js w') = settled (js w) ->
    callback w w'
| callback_done (r : Ref) (k : OnDoneClosure) :
    same_handles w w' ->
    onDone (deref w r) = Some k ->
    timers (js w')
      = match od_timer k with
        | Some tid => filter (fun t => negb (armed tid t)) (timers (js w))
        | None => timers (js w)
        end ->
    settled (js w')
      = settled_after (od_promise k) (Resolved (od_command k)) (settled (js w)) ->
    callback w w'
| callback_timeout (t : Timer) :
    same_handles w w' ->
    In t (timers (js w)) ->
    timers (js w') = filter (fun x => negb (armed (timer_id t) x)) (timers (js w)) ->
    settled (js w')
      = settled_after (timer_promise t) (Rejected "Command timed out")
          (settled (js w)) ->
    callback w w'.

(** Any number of callbacks, one after the other. *)
Inductive callbacks : World -> World -> Prop :=
| callbacks_nil (w : World) : callbacks w w
| callbacks_cons (w w1 w2 : World) :
    callback w w1 -> callbacks w1 w2 -> callbacks w w2.

(** No pending timer would reject the promise [p], and [p] has not been
    rejected. *)
Definition never_rejected (p : PromiseId) (w : World) : Prop :=
  (p < nextPromise (js w))%nat /\
  (forall t, In t (timers (js w)) -> timer_promise t <> p) /\
  (forall reason, settlement p (settled (js w)) <> Some (Rejected reason)).

(** *** Asynchronous functions *)

(** What the environment does while an asynchronous function of the service
    is suspended: the port delivers a chunk to its readers, or the transport
    operation that the function awaits completes.  Each event carries the
    time at which it happens. *)
Inductive IOReply : Type :=
| Fulfilled (payload : Buffer)
| Failed (reason : string).

Inductive Event : Type :=
| Chunk (time : Z) (d : Buffer)
| Reply (time : Z) (r : IOReply).

Definition Script : Type := list Event.

(** The result of an asynchronous function: its promise is fulfilled with a
    value or rejected with a reason ([None] for [undefined]). *)
Inductive Outcome (A : Type) : Type :=
| Returned (a : A)
| Threw (reason : option string).

Arguments Returned {A} a.
Arguments Threw {A} reason.

(** An asynchronous computation runs against the script of what the
    environment will do and the world; [None] means that it never
    completes. *)
Definition Async (A : Type) : Type :=
  Script -> World -> option (Outcome A * Script * World).

Definition ret {A : Type} (a : A) : Async A :=
  fun s w => Some (Returned a, s, w).

Definition throw {A : Type} (reason : option string) : Async A :=
  fun s w => Some (Threw reason, s, w).

Definition bind {A B : Type} (m : Async A) (k : A -> Async B) : Async B :=
  fun s w =>
    match m s w with
    | None => None
    | Some (Returned a, s', w') => k a s' w'
    | Some (Threw e, s', w') => Some (Threw e, s', w')
    end.

(** [try { m } catch (error) { h error }] *)
Definition try_catch {A : Type} (m : Async A) (h : option string -> Async A)
  : Async A :=
  fun s w =>
    match m s w with
    | None => None
    | Some (Returned a, s', w') => Some (Returned a, s', w')
    | Some (Threw e, s', w') => h e s' w'
    end.

(** [try { m } finally { f }] with a synchronous finaliser. *)
Definition try_finally {A : Type} (m : Async A) (f : World -> World) : Async A :=
  fun s w =>
    match m s w with
    | None => None
    | Some (o, s', w') => Some (o, s', f w')
    end.

Definition read {A : Type} (f : World -> A) : Async A :=
  fun s w => Some (Returned (f w), s, w).

Definition update (f : World -> World) : Async unit :=
  fun s w => Some (Returned tt, s, f w).

(** The port hands a chunk to its readers; of those, the model follows
    [onData]. *)
Definition deliver (d : Buffer) (w : World) : World :=
  if existsb (Reader_eqb OnDataReader) (readers (serialPort (js w)))
  then fst (onData d w)
  else w.

(** Awaiting a transport operation: the chunks that arrive first are
    delivered, then the reply resumes the caller. *)
Fixpoint awaitReply (s : Script) (w : World)
  : option (IOReply * Script * World) :=
  match s with
  | [] => None
  | Chunk t d :: s' => awaitReply s' (deliver d (advance t w))
  | Reply t r :: s' => Some (r, s', advance t w)
  end.

Definition transport (prepare : World -> World) : Async Buffer :=
  fun s w =>
    match awaitReply s (prepare w) with
    | None => None
    | Some (Fulfilled b, s', w') => Some (Returned b, s', w')
    | Some (Failed e, s', w') => Some (Threw (Some e), s', w')
    end.

(** Time passes until [limit] while the promise [p] is awaited: the timers
    due by then fire, earliest first, until one of them settles [p].  The
    caller resumes as soon as the promise is settled, at the time of the
    timer that settled it. *)
Fixpoint advance_until (fuel : nat) (p : PromiseId) (limit : Z) (w : World)
  : World :=
  match settlement p (settled (js w)) with
  | Some _ => w
  | None =>
      match fuel with
      | O => w
      | S fuel' =>
          match earliest (timers (js w)) with
          | Some t =>
              if due t <=? limit
              then advance_until fuel' p limit
                     (fireTimer t (with_now (Z.max (now (js w)) (due t)) w))
              else w
          | None => w
          end
      end
  end.

(** Once nothing more arrives, only timers can settle a promise: they fire
    in order, one at a time, until the promise is settled or no timer is
    left. *)
Fixpoint drainTimers (fuel : nat) (p : PromiseId) (w : World) : option World :=
  match settlement p (settled (js w)) with
  | Some _ => Some w
  | None =>
      match fuel with
      | O => None
      | S fuel' =>
          match earliest (timers (js w)) with
          | Some t =>
              drainTimers fuel' p
                (fireTimer t (with_now (Z.max (now (js w)) (due t)) w))
          | None => None
          end
      end
  end.

(** Awaiting a promise returned by [send]: events are handled in order until
    the promise is settled.  A timer that is due before the next event and
    settles the promise resumes the caller at once: the event is still to
    come and stays in the script. *)
Fixpoint awaitSettlement (p : PromiseId) (s : Script) (w : World)
  : option (Settlement * Script * World) :=
  match settlement p (settled (js w)) with
  | Some o => Some (o, s, w)
  | None =>
      match s with
      | [] =>
          match drainTimers (List.length (timers (js w))) p w with
          | Some w' =>
              match settlement p (settled (js w')) with
              | Some o => Some (o, [], w')
              | None => None
              end
          | None => None
          end
      | Chunk t d :: s' =>
          let w1 := advance_until (List.length (timers (js w))) p t w in
          match settlement p (settled (js w1)) with
          | Some o => Some (o, s, w1)
          | None =>
              awaitSettlement p s' (deliver d (with_now (Z.max (now (js w1)) t) w1))
          end
      | Reply t _ :: s' =>
          let w1 := advance_until (List.length (timers (js w))) p t w in
          match settlement p (settled (js w1)) with
          | Some o => Some (o, s, w1)
          | None => awaitSettlement p s' (with_now (Z.max (now (js w1)) t) w1)
          end
      end
  end.

(** [await this.send(command, timeoutMs)] *)
Definition await_send (c : Ref) (timeoutMs : Z) : Async Ref :=
  fun s w =>
    let (w1, p) := send c timeoutMs w in
    match awaitSettlement p s w1 with
    | None => None
    | Some (Resolved c', s', w') => Some (Returned c', s', w')
    | Some (Rejected e, s', w') => Some (Threw (Some e), s', w')
    end.

(** Modelled from the spec: [sleep(ms)] of [utils/utils.ts], which is not
    among the sources: a pause of [ms] milliseconds, during which chunks
    keep arriving. *)
Fixpoint sleep_until (wake : Z) (s : Script) (w : World) : Script * World :=
  match s with
  | Chunk t d :: s' =>
      if t <=? wake then sleep_until wake s' (deliver d (advance t w))
      else (s, advance wake w)
  | _ => (s, advance wake w)
  end.

Definition sleep (ms : Z) : Async unit :=
  fun s w =>
    let (s', w') := sleep_until (now (js w) + ms) s w in
    Some (Returned tt, s', w').

Declare Scope async_scope.
Delimit Scope async_scope with async.
Bind Scope async_scope with Async.

Notation "x <- m ;; k" := (bind m (fun x => k))
  (at level 61, m at next level, right associativity) : async_scope.
Notation "m ;; k" := (bind m (fun _ => k))
  (at level 61, right associativity) : async_scope.

Local Open Scope async_scope.

(** *** The transport, as the service drives it *)

Definition with_port (f : SerialPort -> SerialPort) (w : World) : World :=
  with_serialPort (f (serialPort (js w))) w.

(** [serialPort.addReader(reader)] and [serialPort.removeReader(reader)] *)
Definition addReader (r : Reader) : World -> World :=
  with_port (fun p => mkSerialPort (isOpen p) (readers p ++ [r]) (written p)
                        (disconnectListeners p)).

Definition removeReader (r : Reader) : World -> World :=
  with_port (fun p => mkSerialPort (isOpen p)
                        (filter (fun x => negb (Reader_eqb x r)) (readers p))
                        (written p) (disconnectListeners p)).

(** [getNativeSerialPort().addEventListener(DISCONNECT, ..)] *)
Definition addDisconnectListener : World -> World :=
  with_port (fun p => mkSerialPort (isOpen p) (readers p) (written p)
                        (S (disconnectListeners p))).

(** [await serialPort.open(baudRate)]: the port is open once the operation
    has completed. *)
Definition port_open (baudRate : Z) : Async unit :=
  fun s w =>
    match awaitReply s w with
    | None => None
    | Some (Fulfilled _, s', w') =>
        Some (Returned tt, s',
              with_port (fun p => mkSerialPort true (readers p) (written p)
                                    (disconnectListeners p)) w')
    | Some (Failed e, s', w') => Some (Threw (Some e), s', w')
    end.

(** [await serialPort.write(buffer)] *)
Definition await_write (b : Buffer) : Async unit :=
  _ <- transport (port_write b) ;; ret tt.

(** [await bufferedReader.readLine()] and
    [await bufferedReader.waitForLine(timeoutMs)]: the buffered reader is not
    among the sources; what it returns is the environment's reply. *)
Definition readLine (bufferedReader : Reader) : Async Buffer :=
  transport (fun w => w).

Definition waitForLine (bufferedReader : Reader) (timeoutMs : Z) : Async Buffer :=
  transport (fun w => w).

(** [new SerialBufferedReader()], [new PingCommand()] and
    [new GetStatsCommand()]: a new object gets the next reference. *)
Definition newBufferedReader : Async Reader :=
  fun s w =>
    Some (Returned (BufferedReader (nextRef (js w))), s,
          with_nextRef (S (nextRef (js w))) w).

Definition newCommand (fields0 : Cmd) : Async Ref :=
  fun s w =>
    let r := nextRef (js w) in
    Some (Returned r, s, with_nextRef (S r) (store r (mkObject fields0 None) w)).

(** JavaScript truthiness of [string | undefined]. *)
Definition truthy (v : option string) : bool :=
  match v with
  | None => false
  | Some s => negb (String.eqb s "")
  end.

(** *** The session *)

(** [getStats()] *)
Definition getStats : Async (option Stats) :=
  fetch <- read (fun w => match stats (this w) with
                          | None => truthy (currentVersion (this w))
                          | Some _ => false
                          end) ;;
  (if fetch : bool then
     try_catch
       (c <- newCommand newGetStatsCommand ;;
        c' <- await_send c 5000 ;;
        update (fun w => with_stats (Command_getStats (fields (deref w c'))) w))
       (fun error => ret tt)
   else ret tt) ;;
  read (fun w => stats (this w)).

(** [waitForSettle(bufferedReader, waitTimeMs = 500)].  Every round consumes
    a reply of the script, which bounds the number of rounds. *)
Fixpoint waitForSettle_loop (fuel : nat) (bufferedReader : Reader)
    (waitTimeMs : Z) : Async unit :=
  match fuel with
  | O => fun _ _ => None
  | S fuel' =>
      line <- waitForLine bufferedReader waitTimeMs ;;
      if (0 <? Z.of_nat (List.length line))
      then sleep 100 ;; waitForSettle_loop fuel' bufferedReader waitTimeMs
      else ret tt
  end.

Definition waitForSettle (bufferedReader : Reader) (waitTimeMs : Z) : Async unit :=
  fun s w => waitForSettle_loop (S (List.length s)) bufferedReader waitTimeMs s w.

(** [waitForWelcomeString(bufferedReader)].  [currentTime] is the time at
    which the function was entered; a round that completes consumes a reply
    of the script. *)
Fixpoint waitForWelcomeString_loop (fuel : nat) (bufferedReader : Reader)
    (currentTime : Z) : Async bool :=
  fun s w =>
    if now (js w) <? currentTime + 15000 then
      match fuel with
      | O => None
      | S fuel' =>
          (found <- try_catch
                      (response <- readLine bufferedReader ;;
                       if isWelcomeString (Some (toString response))
                       then ret true
                       else sleep 100 ;; ret false)
                      (fun error => ret false) ;;
           if found : bool then ret true
           else waitForWelcomeString_loop fuel' bufferedReader currentTime) s w
      end
    else Some (Returned false, s, w).

Definition waitForWelcomeString (bufferedReader : Reader) : Async bool :=
  fun s w =>
    waitForWelcomeString_loop (S (List.length s)) bufferedReader (now (js w)) s w.

(** [_initializeController(bufferedReader)] *)
Definition _initializeController (bufferedReader : Reader) : Async unit :=
  gotWelcomeString <- waitForWelcomeString bufferedReader ;;
  if gotWelcomeString : bool then
    waitForSettle bufferedReader 500 ;;
    await_write (fromString newline) ;;
    _ <- waitForLine bufferedReader 2000 ;;
    await_write (fromString ("$I" ++ newline)) ;;
    versionResponse <- waitForLine bufferedReader 2000 ;;
    update (with_currentVersion (Some (toString versionResponse))) ;;
    waitForSettle bufferedReader 500
  else ret tt.

(** The three stages of the branch of [connect] for a closed port: opening
    the port and registering the disconnect listener; attaching the temporary
    reader and writing the two control bytes (echo off, reset); the
    handshake. *)
Definition connect_open : Async Reader :=
  bufferedReader <- newBufferedReader ;;
  port_open 115200 ;;
  update addDisconnectListener ;;
  ret bufferedReader.

Definition connect_reset (bufferedReader : Reader) : Async unit :=
  update (addReader bufferedReader) ;;
  await_write [Byte.x0c; Byte.x18].

(** [connect()] *)
Definition connect : Async ControllerStatus :=
  open <- read (fun w => isOpen (serialPort (js w))) ;;
  (if open : bool then ret tt
   else
     bufferedReader <- connect_open ;;
     try_finally
       (connect_reset bufferedReader ;;
        _initializeController bufferedReader)
       (removeReader bufferedReader) ;;
     update (with_status CONNECTED) ;;
     update (addReader OnDataReader)) ;;
  getStats ;;
  read (fun w => status (this w)).

(** [ping()] *)
Definition ping : Async unit :=
  pingCommand <- newCommand newPingCommand ;;
  try_catch
    (await_send pingCommand 1000 ;;
     update (with_status CONNECTED) ;;
     ret tt)
    (fun error => throw None).

(** Two worlds that differ at most in the line buffer, the queue, the command
    objects, the timers, the promises and the clock: the status, the version,
    the statistics, the transfer flag, the listeners and the port are the
    same. *)
Definition quiet (w w' : World) : Prop :=
  status (this w') = status (this w) /\
  currentVersion (this w') = currentVersion (this w) /\
  stats (this w') = stats (this w) /\
  xmodemMode (this w') = xmodemMode (this w) /\
  statusListeners (this w') = statusListeners (this w) /\
  serialPort (js w') = serialPort (js w) /\
  nextRef (js w') = nextRef (js w).

(** Only the command [c] holds a closure for the promise [p], and that
    closure resolves the promise with [c]. *)
Definition owns (p : PromiseId) (c : Ref) (w : World) : Prop :=
  (p < nextPromise (js w))%nat /\
  forall r k, onDone (deref w r) = Some k -> od_promise k = p ->
              r = c /\ od_command k = c.

(** *** Status listeners *)

Definition with_statusListeners (ls : list nat) (w : World) : World :=
  let t := this w in
  mkWorld (mkService (buffer t) (commands t) (xmodemMode t) (status t)
             (currentVersion t) ls (stats t)) (js w).

(** [addListener(listener)]; a listener is a function, known by its
    identity. *)
Definition addListener (listener : nat) (w : World) : World :=
  with_statusListeners (statusListeners (this w) ++ [listener]) w.

(** [removeListener(listener)]:
    [this.statusListeners.filter((l) => l !== listener)] *)
Definition removeListener (listener : nat) (w : World) : World :=
  with_statusListeners
    (filter (fun l => negb (Nat.eqb l listener)) (statusListeners (this w))) w.

(** [_notifyStatus(status)]: the calls [l(status)] that
    [this.statusListeners.forEach] makes, in order. *)
Definition _notifyStatus (st : ControllerStatus) (w : World)
  : list (nat * ControllerStatus) :=
  map (fun l => (l, st)) (statusListeners (this w)).

(** The listener that [connect] registers for the port's disconnect
    event. *)
Definition onDisconnectEvent (w : World) : list (nat * ControllerStatus) :=
  _notifyStatus CONNECTION_LOST w.

(** *** Closing the session *)

(** Modelled from the spec: [await serialPort.close()] of the transport,
    which is not among the sources: the port is closed once the operation
    has completed. *)
Definition port_close : Async unit :=
  fun s w =>
    match awaitReply s w with
    | None => None
    | Some (Fulfilled _, s', w') =>
        Some (Returned tt, s',
              with_port (fun p => mkSerialPort false (readers p) (written p)
                                    (disconnectListeners p)) w')
    | Some (Failed e, s', w') => Some (Threw (Some e), s', w')
    end.

(** [disconnect(notify = true)]: the calls made to the listeners, and the
    promise of [serialPort.close()]. *)
Definition disconnect (notify : bool) (s : Script) (w : World)
  : list (nat * ControllerStatus) * option (Outcome unit * Script * World) :=
  let w1 := removeReader OnDataReader w in
  (if notify then _notifyStatus DISCONNECTED w1 else [],
   port_close s w1).

(** *** Detecting the controller *)

Definition MAX_PING_COUNT : Z := 10.

(** The [while (!answered)] loop of [_detectController]; [answered] is a
    constant [false].  Every round counts one ping and the loop is left when
    the count reaches [MAX_PING_COUNT], which bounds the number of rounds. *)
Fixpoint _detectController_loop (fuel : nat) (pingCount : Z) : Async unit :=
  match fuel with
  | O => fun _ _ => None
  | S fuel' =>
      let pingCount := pingCount + 1 in
      responded <- try_catch (ping ;; ret true) (fun error => ret false) ;;
      if responded : bool then ret tt
      else if MAX_PING_COUNT <=? pingCount then
        update (with_status UNKNOWN_DEVICE) ;;
        throw (Some "Could not detect controller...")
      else _detectController_loop fuel' pingCount
  end.

(** [_detectController()] *)
Definition _detectController : Async unit :=
  _detectController_loop (Z.to_nat MAX_PING_COUNT) 0.

(** *** Hard reset *)

(** [hardReset()]; [serialPort.hardReset()] is an operation of the
    transport. *)
Definition hardReset : Async unit :=
  _ <- transport (fun w => w) ;;
  bufferedReader <- newBufferedReader ;;
  try_finally
    (update (addReader bufferedReader) ;;
     _initializeController bufferedReader)
    (removeReader bufferedReader) ;;
  ret tt.

(** *** Binary transfers *)

(** [class XModemSocketAdapter]: the bytes received and not yet read, and
    the callback that the constructor registers with the port. *)
Record XModemSocketAdapter : Type := mkAdapter {
  adapter_buffer : Buffer;
  adapter_reader : Reader
}.

(** A [Buffer] is an object, and as such truthy, also when it is empty. *)
Definition Buffer_truthy (b : Buffer) : bool := true.

(** [XModemSocketAdapter.onData(data)] *)
Definition XModemSocketAdapter_onData (data : Buffer) (a : XModemSocketAdapter)
  : XModemSocketAdapter :=
  if negb (Buffer_truthy (adapter_buffer a))
  then mkAdapter data (adapter_reader a)
  else mkAdapter (adapter_buffer a ++ data)%list (adapter_reader a).

(** [XModemSocketAdapter.read()] *)
Definition XModemSocketAdapter_read (a : XModemSocketAdapter)
  : Buffer * XModemSocketAdapter :=
  (adapter_buffer a, mkAdapter [] (adapter_reader a)).

(** [XModemSocketAdapter.peekByte()]: [this.buffer.at(0)] *)
Definition XModemSocketAdapter_peekByte (a : XModemSocketAdapter)
  : option Byte.byte :=
  nth_error (adapter_buffer a) 0.

(** The adapter as the port feeds it: a chunk goes to [onData]. *)
Definition adapter_receive (chunks : list Buffer) (a : XModemSocketAdapter)
  : XModemSocketAdapter :=
  fold_left (fun a' d => XModemSocketAdapter_onData d a') chunks a.









(** *** While no line is routed *)


(** What can have changed while the service was deaf: timers fired.  The
    line buffer and the command objects are the same, no command joined the
    queue, and a promise settled in the meantime was rejected by its
    timer. *)
Definition frozen (w w' : World) : Prop :=
  buffer (this w') = buffer (this w) /\
  heap (js w') = heap (js w) /\
  incl (commands (this w')) (commands (this w)) /\
  forall p o,
    settlement p (settled (js w')) = Some o ->
    settlement p (settled (js w)) = Some o \/ o = Rejected "Command timed out".


(** Two worlds in which the session is in the same place: the status, the
    statistics, the transfer flag and the listeners, and of the port whether
    it is open and who reads from it. *)
Definition same_session (w w' : World) : Prop :=
  status (this w') = status (this w) /\
  stats (this w') = stats (this w) /\
  xmodemMode (this w') = xmodemMode (this w) /\
  statusListeners (this w') = statusListeners (this w) /\
  nextRef (js w') = nextRef (js w) /\
  isOpen (serialPort (js w')) = isOpen (serialPort (js w)) /\
  readers (serialPort (js w')) = readers (serialPort (js w)) /\
  disconnectListeners (serialPort (js w')) = disconnectListeners (serialPort (js w)).

(** The session is in the same place, the buffers [extra] were written to
    the port in addition and the version is [v]. *)
Definition session_but (extra : list Buffer) (v : option string) (w w' : World)
  : Prop :=
  same_session w w' /\
  written (serialPort (js w')) = (written (serialPort (js w)) ++ extra)%list /\
  currentVersion (this w') = v.

(** A reply of the script carried a welcome line. *)
Definition banner_seen (s : Script) : Prop :=
  exists t b, In (Reply t (Fulfilled b)) s /\
              isWelcomeString (Some (toString b)) = true.

(** The promise [p] is not rejected before the time [deadline]: a pending
    timer that would reject it is due no earlier, and if it has been
    rejected the clock has reached the deadline. *)
Definition not_before (deadline : Z) (p : PromiseId) (w : World) : Prop :=
  (p < nextPromise (js w))%nat /\
  (forall t, In t (timers (js w)) -> timer_promise t = p -> deadline <= due t) /\
  (forall reason, settlement p (settled (js w)) = Some (Rejected reason) ->
                  deadline <= now (js w)).

(** No command object holds a closure that would resolve the promise [p],
    and [p] has not been resolved. *)
Definition orphaned (p : PromiseId) (w : World) : Prop :=
  (p < nextPromise (js w))%nat /\
  (forall r k, onDone (deref w r) = Some k -> od_promise k <> p) /\
  (forall c, settlement p (settled (js w)) <> Some (Resolved c)).

(** The timer [t0] is the one timer of its promise: while it is pending the
    promise is pending, a closure that resolves the promise clears this
    timer, and no other pending timer rejects the promise. *)
Definition sole_timer (t0 : Timer) (w : World) : Prop :=
  (In t0 (timers (js w)) -> settlement (timer_promise t0) (settled (js w)) = None) /\
  (forall r k, onDone (deref w r) = Some k ->
               od_promise k = timer_promise t0 ->
               od_timer k = Some (timer_id t0)) /\
  (forall t, In t (timers (js w)) ->
             timer_promise t = timer_promise t0 ->
             timer_id t = timer_id t0).

(** Two worlds with the same transfer flag and the same listeners. *)
Definition same_flags (w w' : World) : Prop :=
  xmodemMode (this w') = xmodemMode (this w) /\
  statusListeners (this w') = statusListeners (this w).

(** *** What the environment replied *)

(** The replies of a script, in order: what the transport operations that
    are awaited one after the other come to. *)
Fixpoint replies_of (s : Script) : list IOReply :=
  match s with
  | [] => []
  | Chunk _ _ :: s' => replies_of s'
  | Reply _ r :: s' => r :: replies_of s'
  end.

(** A read that does not end the wait for the banner: it failed, or the line
    read is no welcome line. *)
Definition unwelcome (r : IOReply) : Prop :=
  match r with
  | Fulfilled b => isWelcomeString (Some (toString b)) = false
  | Failed _ => True
  end.

(** A read that keeps [waitForSettle] waiting: a line that is not empty. *)
Definition unsettled (r : IOReply) : Prop :=
  match r with
  | Fulfilled b => b <> []
  | Failed _ => False
  end.

(** The replies that a handshake reads when a banner comes and no operation
    fails, in the order in which it reads them: reads that bring no welcome
    line; the banner; the lines of the device until a read comes back empty;
    the acknowledgement of the newline written and the line read after it;
    the acknowledgement of the version query and, read right after it, the
    reply [v] to the query; and again lines until a read comes back
    empty. *)
Definition handshake_replies (v : Buffer) (rs : list IOReply) : Prop :=
  exists (pre : list IOReply) (banner : Buffer) (settle1 : list IOReply)
         (a1 line a2 : Buffer) (settle2 : list IOReply),
    rs = (pre ++ Fulfilled banner :: settle1
          ++ Fulfilled [] :: Fulfilled a1 :: Fulfilled line
          :: Fulfilled a2 :: Fulfilled v :: settle2 ++ [Fulfilled []])%list /\
    Forall unwelcome pre /\
    isWelcomeString (Some (toString banner)) = true /\
    Forall unsettled settle1 /\
    Forall unsettled settle2.

(** *** Pings in a row *)

(** [n] pings, one after the other, none of which is answered: each rejects
    and the next one starts where it ended; the last ends with the script
    [s'] and the world [w']. *)
Fixpoint unanswered (n : nat) (s : Script) (w : World) (s' : Script) (w' : World)
  : Prop :=
  match n with
  | O => s' = s /\ w' = w
  | S n' =>
      exists s1 w1,
        ping s w = Some (Threw None, s1, w1) /\ unanswered n' s1 w1 s' w'
  end.

(* End of the definitions. *)

End Controller.

Arguments CommandObject : clear implicits.
Arguments ControllerService : clear implicits.
Arguments Runtime : clear implicits.
Arguments World : clear implicits.
Arguments Returned {A} a.
Arguments Threw {A} reason.

(** * InstallService: the images of a release package

    A shallow embedding of [src/services/InstallService.ts].  The archive
    library, the download and the flashing routine are not among the
    sources: what they return is given by the environment. *)

Module InstallService.

(** [enum FirmwareType], with the string each member stands for. *)
Inductive FirmwareType : Type := WIFI | BLUETOOTH.

Definition FirmwareType_value (t : FirmwareType) : string :=
  match t with
  | WIFI => "wifi"
  | BLUETOOTH => "bt"
  end.

(** [enum InstallerState] *)
Inductive InstallerState : Type :=
| SELECT_PACKAGE
| DOWNLOADING
| EXTRACTING
| FLASHING
| DONE
| ERROR.

(** What a [throw] or a rejected promise carries: an [Error] object with its
    message, a string, or whatever a collaborator rejected with. *)
Inductive Thrown : Type :=
| Error (message : string)
| Text (text : string)
| Foreign.

(** An entry of [zip.files]; the service reads its [name]. *)
Record ZipObject : Type := mkZipObject { name : string }.

(** A loaded archive, as far as the service uses it: [Object.values(zip.files)]
    in enumeration order, and what [zip.file(name).async("uint8array")]
    comes to for a name ([None] when the call throws or the promise is
    rejected). *)
Record Zip : Type := mkZip {
  files : list ZipObject;
  file_async : string -> option Buffer
}.

(** [findFileInZip(zip, fileName)] *)
Definition findFileInZip (zip : Zip) (fileName : string) : ZipObject + Thrown :=
  match find (fun file => endsWith (name file) fileName) (files zip) with
  | Some file => inl file
  | None => inr (Error ("Missing file '" ++ fileName ++ "' from package"))
  end.

(** An entry of the list handed to [flashDevice]. *)
Record FlashFile : Type := mkFlashFile {
  fileName : string;
  data : string;
  address : option Z
}.

(** [parseInt(text)] with no radix argument: leading white space is
    skipped, a sign is read, the prefix [0x] or [0X] selects base 16, and the
    longest run of digits is the value; [None] stands for [NaN]. *)
Definition isWhiteSpace (c : ascii) : bool :=
  let n := nat_of_ascii c in
  (Nat.eqb n 32 || (Nat.leb 9 n && Nat.leb n 13))%bool.

Fixpoint trimStart (s : string) : string :=
  match s with
  | String c s' => if isWhiteSpace c then trimStart s' else s
  | EmptyString => EmptyString
  end.

Definition digit (radix : Z) (c : ascii) : option Z :=
  let n := Z.of_nat (nat_of_ascii c) in
  let v := if (48 <=? n) && (n <=? 57) then n - 48
           else if (97 <=? n) && (n <=? 122) then n - 87
           else if (65 <=? n) && (n <=? 90) then n - 55
           else radix in
  if v <? radix then Some v else None.

Fixpoint digits (radix : Z) (acc : option Z) (s : string) : option Z :=
  match s with
  | String c s' =>
      match digit radix c with
      | Some v =>
          digits radix (Some (match acc with Some a => a * radix + v | None => v end)) s'
      | None => acc
      end
  | EmptyString => acc
  end.

Definition parseInt (text : string) : option Z :=
  let s := trimStart text in
  let (sign, s) := match s with
                   | String "-" s' => (-1, s')
                   | String "+" s' => (1, s')
                   | _ => (1, s)
                   end in
  let (radix, s) := match s with
                    | String "0" (String "x" s') => (16, s')
                    | String "0" (String "X" s') => (16, s')
                    | _ => (10, s)
                    end in
  option_map (Z.mul sign) (digits radix None s).

(** The four names that [unzipAssetData] looks for, in the order in which
    it looks for them. *)
Definition wantedFiles (firmwareType : FirmwareType) : list string :=
  [ "/" ++ FirmwareType_value firmwareType ++ "/bootloader.bin";
    "/common/boot_app0.bin";
    "/" ++ FirmwareType_value firmwareType ++ "/firmware.bin";
    "/" ++ FirmwareType_value firmwareType ++ "/partitions.bin" ].

(** The message of the error that [findFileInZip] throws. *)
Definition missing (fileName : string) : Thrown :=
  Error ("Missing file '" ++ fileName ++ "' from package").

Section Environment.

(** The collaborators: [GithubService.getReleaseAsset] and
    [GithubService.getReleaseAssetZip], [JSZip.loadAsync],
    [convertUint8ArrayToBinaryString] and [flashDevice], the latter with the
    port and the progress callback it is called with. *)
Variables Release Asset Blob : Type.
Variable getReleaseAsset : Release -> option Asset.
Variable getReleaseAssetZip : option Asset -> Blob + Thrown.
Variable loadAsync : Blob -> Zip + Thrown.
Variable convertUint8ArrayToBinaryString : Buffer -> string.
Variable flashDevice : list FlashFile -> unit + Thrown.

(** [zip.file(name).async("uint8array")], awaited. *)
Definition readFile (zip : Zip) (file : ZipObject) : Buffer + Thrown :=
  match file_async zip (name file) with
  | Some bytes => inl bytes
  | None => inr Foreign
  end.

(** [unzipAssetData(zipData, firmwareType = FirmwareType.WIFI)]: the promise
    it returns, settled.  The four files are looked up first, in this
    order; [Promise.all] then yields the four contents in the order of its
    argument. *)
Definition unzipAssetData (zipData : Blob) (firmwareType : option FirmwareType)
  : list Buffer + Thrown :=
  let firmwareType := match firmwareType with
                      | Some t => t
                      | None => WIFI
                      end in
  match loadAsync zipData with
  | inr e => inr e
  | inl zip =>
      match findFileInZip zip ("/" ++ FirmwareType_value firmwareType ++ "/bootloader.bin") with
      | inr e => inr e
      | inl bootLoaderFile =>
      match findFileInZip zip "/common/boot_app0.bin" with
      | inr e => inr e
      | inl bootAppFile =>
      match findFileInZip zip ("/" ++ FirmwareType_value firmwareType ++ "/firmware.bin") with
      | inr e => inr e
      | inl firmwareFile =>
      match findFileInZip zip ("/" ++ FirmwareType_value firmwareType ++ "/partitions.bin") with
      | inr e => inr e
      | inl partitionsFile =>
          match readFile zip bootLoaderFile, readFile zip bootAppFile,
                readFile zip firmwareFile, readFile zip partitionsFile with
          | inl a, inl b, inl c, inl d => inl [a; b; c; d]
          | inr e, _, _, _ => inr e
          | _, inr e, _, _ => inr e
          | _, _, inr e, _ => inr e
          | _, _, _, inr e => inr e
          end
      end end end end
  end.

(** [convertToFlashFiles(files)]; [files[i]] of an array that has four
    elements. *)
Definition convertToFlashFiles (files : option (list Buffer))
  : list FlashFile + Thrown :=
  match files with
  | None => inr (Error "Could not extract files from package")
  | Some files =>
      if negb (Nat.eqb (List.length files) 4)
      then inr (Error "Could not extract files from package")
      else
        inl [ mkFlashFile "Bootloader"
                (convertUint8ArrayToBinaryString (nth 0 files [])) (parseInt "0x1000");
              mkFlashFile "Boot app"
                (convertUint8ArrayToBinaryString (nth 1 files [])) (parseInt "0xe000");
              mkFlashFile "Firmware"
                (convertUint8ArrayToBinaryString (nth 2 files [])) (parseInt "0x10000");
              mkFlashFile "Partitions"
                (convertUint8ArrayToBinaryString (nth 3 files [])) (parseInt "0x8000") ]
  end.

(** A run of [installRelease]: the states passed to [onState], in order, and
    the value or the exception it ends with.  The callbacks are assumed not
    to throw. *)
Definition Run (A : Type) : Type := (list InstallerState * (A + Thrown))%type.

Definition pure {A : Type} (a : A) : Run A := ([], inl a).

Definition raise {A : Type} (e : Thrown) : Run A := ([], inr e).

Definition await {A : Type} (r : A + Thrown) : Run A := ([], r).

Definition onState (state : InstallerState) : Run unit := ([state], inl tt).

Definition andThen {A B : Type} (m : Run A) (k : A -> Run B) : Run B :=
  match m with
  | (states, inl a) => let (states', r) := k a in ((states ++ states')%list, r)
  | (states, inr e) => (states, inr e)
  end.

(** [try { m } catch (error) { h error }] *)
Definition catch {A : Type} (m : Run A) (h : Thrown -> Run A) : Run A :=
  match m with
  | (states, inl a) => (states, inl a)
  | (states, inr e) => let (states', r) := h e in ((states ++ states')%list, r)
  end.

(** [InstallService.installRelease(release, serialPort, firmwareType,
    onProgress, onState)] *)
Definition installRelease (release : Release) (firmwareType : option FirmwareType)
  : Run unit :=
  let asset := getReleaseAsset release in
  andThen
    (catch
       (andThen (onState DOWNLOADING) (fun _ => await (getReleaseAssetZip asset)))
       (fun error =>
          andThen (onState ERROR) (fun _ => raise (Text "Could not download package"))))
    (fun zipData =>
  andThen
    (catch
       (andThen (onState EXTRACTING) (fun _ => await (unzipAssetData zipData firmwareType)))
       (fun error =>
          andThen (onState ERROR) (fun _ =>
          raise (Text "Could not unzip package, it seems corrupted"))))
    (fun files =>
  andThen
    (catch
       (andThen (onState FLASHING) (fun _ =>
        andThen (await (convertToFlashFiles (Some files))) (fun flashFiles =>
        andThen (await (flashDevice flashFiles)) (fun _ =>
        onState DONE))))
       (fun error =>
          andThen (onState ERROR) (fun _ => raise (Text "Was not able to flash device"))))
    (fun _ => pure tt))).

End Environment.

End InstallService.

(** ** A concrete world, for evaluating the model *)

Module Demo.

Import SimpleCommands.

(** A heap of command objects that have not been sent: the objects at
    references 0, 1 and 2 are a ping command, a statistics query and a
    plain command. *)
Definition demoHeap (r : Ref) : CommandObject SimpleCommand :=
  match r with
  | O => mkObject newPingCommand None
  | S O => mkObject newGetStatsCommand None
  | _ => mkObject (mkSimple Plain "$X" PENDING []) None
  end.

Definition closedPort : SerialPort :=
  {| isOpen := false; readers := []; written := [];
     disconnectListeners := 0%nat |}.

(** A freshly constructed service on a closed port, at time 0. *)
Definition fresh : World SimpleCommand (list string) :=
  {| this := constructor;
     js := {| heap := demoHeap; nextRef := 3%nat; timers := [];
              nextTimer := 1%nat; settled := []; nextPromise := 0%nat; now := 0;
              serialPort := closedPort |} |}.

(** The bytes of a text. *)
Definition bytes (s : string) : Buffer := list_byte_of_string s.

(** A connected service whose version is known and whose statistics have
    not been fetched: the port is open and [onData] is attached. *)
Definition connectedPort : SerialPort :=
  {| isOpen := true; readers := [OnDataReader]; written := [];
     disconnectListeners := 1%nat |}.

Definition connected : World SimpleCommand (list string) :=
  with_status CONNECTED
    (with_currentVersion (Some "[VER:3.7 FluidNC v3.7.8:]")
       (with_serialPort connectedPort fresh)).

(** The device answers a query with one line and [ok], at time 40. *)
Definition answer : Script :=
  [Chunk 40 (bytes ("[MSG:INFO: Channel auto report interval set to 50 ms]"
                    ++ newline ++ "ok" ++ newline))].

(** The device opens, takes the reset bytes, prints a line that is no
    banner and goes quiet past the detection window. *)
Definition silent : Script :=
  [Reply 5 (Fulfilled []); Reply 6 (Fulfilled []);
   Reply 5000 (Fulfilled (bytes "ets Jul 29 2019 12:21:46"));
   Reply 15200 (Failed "timeout")].

(** The world and the rest of the script with which a run ended. *)
Definition world_of {A : Type}
    (r : option (Outcome A * Script * World SimpleCommand (list string)))
  : World SimpleCommand (list string) :=
  match r with
  | Some (_, _, w) => w
  | None => fresh
  end.

Definition script_of {A : Type}
    (r : option (Outcome A * Script * World SimpleCommand (list string)))
  : Script :=
  match r with
  | Some (_, s, _) => s
  | None => []
  end.

(** The stages of [connect] on the fresh world against the silent device:
    the world and the rest of the script after the port was opened, after
    the reset bytes were written and after the wait for the banner. *)
Definition temporaryReader : Reader := BufferedReader 3.

Definition opened : World SimpleCommand (list string) :=
  world_of (connect_open silent fresh).

Definition silent1 : Script := script_of (connect_open silent fresh).

Definition reset : World SimpleCommand (list string) :=
  world_of (connect_reset temporaryReader silent1 opened).

Definition silent2 : Script :=
  script_of (connect_reset temporaryReader silent1 opened).

Definition unwelcomed : World SimpleCommand (list string) :=
  world_of (waitForWelcomeString temporaryReader silent2 reset).

Definition silent3 : Script :=
  script_of (waitForWelcomeString temporaryReader silent2 reset).

(** A service in the middle of a binary transfer. *)
Definition transferring : World SimpleCommand (list string) :=
  with_xmodemMode true fresh.

(** Three chunks that split a line, carry a carriage return and end in the
    middle of a line. *)
Definition stream : list Buffer :=
  [bytes "Grbl 1.1h ['$' fo";
   bytes ("r help]" ++ String CR newline ++ "ok" ++ newline ++ "<Idle|MPos");
   bytes ":0.000,0.000"].

(** Two commands, a ping and a plain command, with the lines they expect and
    the chunks in which the lines arrive. *)
Definition batch : list Ref := [0%nat; 2%nat].

Definition expected : list (list string) := [["hello"]; ["a"; "ok"]].

Definition replies : list Buffer :=
  [bytes "hel"; bytes ("lo" ++ newline ++ "a" ++ String CR newline ++ "ok" ++ newline)].

(** What happens after a command was sent: a partial line arrives, half a
    second passes and another command is sent. *)
Definition meanwhile : list Activity :=
  [Arrives (bytes "<Idle"); Passes 500; Sends 0%nat 0].

(** A connected service with two status listeners, one of them registered
    twice, and a port that closes at once. *)
Definition listened : World SimpleCommand (list string) :=
  addListener 8%nat (addListener 7%nat (addListener 7%nat connected)).



(** A download: the writes are acknowledged, an [ok] arrives in between and
    the transfer yields the file; and one whose transfer fails. *)
Definition download : Script :=
  [Reply 1 (Fulfilled []); Chunk 100 (bytes ("ok" ++ newline));
   Reply 301 (Fulfilled []); Reply 900 (Fulfilled (bytes "name: demo"))].






(** A device that prints its banner and answers the version query. *)
Definition banner : Script :=
  [Reply 5 (Fulfilled (bytes "Grbl 3.7 [FluidNC v3.7.8 (wifi) '$' for help]"));
   Reply 600 (Fulfilled []); Reply 610 (Fulfilled []);
   Reply 620 (Fulfilled (bytes "ok")); Reply 625 (Fulfilled []);
   Reply 630 (Fulfilled (bytes "[VER:3.8 FluidNC v3.8.0:]"));
   Reply 1200 (Fulfilled [])].

Definition welcomed : World SimpleCommand (list string) :=
  world_of (_initializeController temporaryReader banner connected).

Definition rebooted : World SimpleCommand (list string) :=
  world_of (hardReset (Reply 1 (Fulfilled []) :: banner) connected).

Definition greeting : Script :=
  Reply 1 (Fulfilled []) :: Reply 2 (Fulfilled []) :: banner.

Definition greeted : World SimpleCommand (list string) :=
  world_of (connect greeting fresh).

(** A release package and the collaborators of an installation that goes
    well. *)
Definition package : InstallService.Zip :=
  InstallService.mkZip
    [ InstallService.mkZipObject "release/";
      InstallService.mkZipObject "release/bt/firmware.bin";
      InstallService.mkZipObject "release/wifi/bootloader.bin";
      InstallService.mkZipObject "release/common/boot_app0.bin";
      InstallService.mkZipObject "release/wifi/firmware.bin";
      InstallService.mkZipObject "release/wifi/partitions.bin" ]
    (fun name => Some (bytes name)).

Definition incomplete : InstallService.Zip :=
  InstallService.mkZip
    [ InstallService.mkZipObject "release/wifi/bootloader.bin";
      InstallService.mkZipObject "release/wifi/firmware.bin" ]
    (fun name => Some (bytes name)).

(** A port that opens and then fails to take the reset bytes. *)
Definition faulty : Script := [Reply 1 (Fulfilled []); Reply 2 (Failed "write failed")].

Definition halfOpen : World SimpleCommand (list string) :=
  world_of (connect faulty fresh).

(** The line "aé" in UTF-8, cut into two chunks inside the character of two
    bytes, and cut after the first character. *)
Definition garbled : list Buffer :=
  [[Byte.x61; Byte.xc3]; [Byte.xa9; Byte.x0a]].

Definition intact : list Buffer :=
  [[Byte.x61]; [Byte.xc3; Byte.xa9; Byte.x0a]].

(** A device that takes two and a half seconds to answer: its line arrives
    after the first two pings have timed out. *)
Definition late : Script := [Chunk 2500 (bytes ("ok" ++ newline))].

(** A reset after which the device prints its banner and then the
    transport fails. *)
Definition brokenReset : Script :=
  [Reply 1 (Fulfilled []);
   Reply 5 (Fulfilled (bytes "Grbl 3.7 [FluidNC v3.7.8 (wifi) '$' for help]"));
   Reply 600 (Failed "device lost")].

Definition interrupted : World SimpleCommand (list string) :=
  world_of (hardReset brokenReset connected).

End Demo.

Section ControllerProperties.

Context {Cmd Stats : Type} {commandClass : CommandClass Cmd Stats} {codec : Codec}.

(** Where a property depends on it, commands are assumed to report their
    completion through [onDone]. *)
Context {notifies : CommandNotifies commandClass}.

(** * Properties *)

(** ** Strings *)

Lemma append_nil_r (s : string) : s ++ "" = s.
Proof. induction s; simpl; congruence. Qed.

Lemma append_assoc (a b c : string) : (a ++ b) ++ c = a ++ (b ++ c).
Proof. induction a; simpl; congruence. Qed.

Lemma length_append (a b : string) :
  String.length (a ++ b) = (String.length a + String.length b)%nat.
Proof. induction a; simpl; congruence. Qed.

Lemma prefix_split (p s : string) :
  String.prefix p s = true <-> exists rest, s = p ++ rest.
Proof.
  revert p; induction s as [|b s IH]; intros [|a p]; simpl.
  - split; eauto.
  - split; [discriminate | intros [r H]; discriminate].
  - split; eauto.
  - destruct (ascii_dec a b) as [->|Hne].
    + rewrite IH. split; intros [r H]; exists r; congruence.
    + split; [discriminate | intros [r H]; congruence].
Qed.

Lemma occursAt_0 (needle s : string) :
  occursAt 0 needle s <-> String.prefix needle s = true.
Proof.
  rewrite prefix_split. unfold occursAt. split.
  - intros (pre & post & -> & Hlen). destruct pre; [|discriminate].
    exists post. reflexivity.
  - intros (rest & ->). exists "", rest. auto.
Qed.

Lemma occursAt_S (j : nat) (needle : string) (a : ascii) (s : string) :
  occursAt (S j) needle (String a s) <-> occursAt j needle s.
Proof.
  unfold occursAt; split.
  - intros (pre & post & H & Hlen). destruct pre as [|b pre]; [discriminate|].
    simpl in *. exists pre, post. split; congruence.
  - intros (pre & post & -> & Hlen). exists (String a pre), post.
    simpl. auto.
Qed.

Lemma occursAt_empty (j : nat) (needle : string) :
  occursAt j needle "" -> String.prefix needle "" = true.
Proof.
  intros (pre & post & H & _). destruct pre; [|discriminate].
  destruct needle; [reflexivity | discriminate].
Qed.

(** What [indexOf] computes: [-1] when the needle occurs nowhere, otherwise
    the offset of the first occurrence. *)
Lemma indexOf_from_spec (needle s : string) (i : Z) :
  (indexOf_from i s needle = -1 /\ forall j, ~ occursAt j needle s) \/
  (exists k : nat,
      indexOf_from i s needle = i + Z.of_nat k /\
      occursAt k needle s /\
      forall j, (j < k)%nat -> ~ occursAt j needle s).
Proof.
  revert i; induction s as [|a s IH]; intros i.
  - cbn [indexOf_from]. destruct (String.prefix needle "") eqn:Hp.
    + right. exists 0%nat. split; [lia|]. split; [apply occursAt_0; exact Hp | intros j Hj; lia].
    + left. split; [reflexivity|]. intros j Hj.
      apply occursAt_empty in Hj. congruence.
  - cbn [indexOf_from]. destruct (String.prefix needle (String a s)) eqn:Hp.
    + right. exists 0%nat. split; [lia|]. split; [apply occursAt_0; exact Hp | intros j Hj; lia].
    + destruct (IH (i + 1)) as [[Hr Hno] | (k & Hr & Hocc & Hmin)].
      * left. split; [exact Hr|]. intros [|j] Hj.
        -- apply occursAt_0 in Hj. congruence.
        -- apply occursAt_S in Hj. exact (Hno j Hj).
      * right. exists (S k). repeat split.
        -- rewrite Hr. lia.
        -- apply occursAt_S. exact Hocc.
        -- intros [|j] Hlt Hj.
           ++ apply occursAt_0 in Hj. congruence.
           ++ apply occursAt_S in Hj. apply (Hmin j); [lia | exact Hj].
Qed.

Lemma substring_head (pre rest : string) :
  String.substring 0 (String.length pre) (pre ++ rest) = pre.
Proof.
  induction pre as [|a pre IH]; simpl.
  - destruct rest; reflexivity.
  - now rewrite IH.
Qed.

Lemma substring_whole (s : string) :
  String.substring 0 (String.length s) s = s.
Proof. rewrite <- (append_nil_r s) at 2. apply substring_head. Qed.

Lemma substring_tail (pre post : string) (c : ascii) :
  String.substring (S (String.length pre)) (String.length post)
    (pre ++ String c post) = post.
Proof.
  induction pre as [|a pre IH]; simpl.
  - apply substring_whole.
  - exact IH.
Qed.

Lemma js_substring_head (pre rest : string) :
  substring (pre ++ rest) 0 (JsString.length pre) = pre.
Proof.
  unfold substring, clamp, JsString.length. rewrite length_append.
  replace (Z.min _ _) with 0 by lia.
  replace (Z.max _ _ - 0) with (Z.of_nat (String.length pre)) by lia.
  rewrite Nat2Z.id. apply substring_head.
Qed.

Lemma js_substring_tail (pre post : string) (c : ascii) :
  substring_from (pre ++ String c post) (JsString.length pre + 1) = post.
Proof.
  unfold substring_from, substring, clamp, JsString.length.
  rewrite length_append. cbn [String.length].
  replace (Z.min _ _) with (Z.of_nat (S (String.length pre))) by lia.
  replace (Z.max _ _ - _) with (Z.of_nat (String.length post)) by lia.
  rewrite !Nat2Z.id. apply substring_tail.
Qed.

Lemma lacks_append (c : ascii) (a b : string) :
  lacks c (a ++ b) <-> lacks c a /\ lacks c b.
Proof. induction a; simpl; tauto. Qed.

Lemma removeCR_append (a b : string) :
  removeCR (a ++ b) = removeCR a ++ removeCR b.
Proof.
  induction a as [|c a IH]; simpl; [reflexivity|].
  destruct (Ascii.eqb c CR); simpl; congruence.
Qed.

Lemma removeCR_lacks_CR (s : string) : lacks CR (removeCR s).
Proof.
  induction s as [|c s IH]; simpl; [exact I|].
  destruct (Ascii.eqb c CR) eqn:E; [exact IH|].
  simpl. split; [|exact IH]. now apply Ascii.eqb_neq.
Qed.

Lemma prefix_newline (s : string) :
  String.prefix newline s = true <-> exists post, s = String LF post.
Proof. apply prefix_split. Qed.

(** The first newline of a string, as [indexOf] finds it. *)
Lemma indexOf_from_newline (s : string) (i : Z) :
  (indexOf_from i s newline = -1 /\ lacks LF s) \/
  (exists pre post,
      s = pre ++ String LF post /\ lacks LF pre /\
      indexOf_from i s newline = i + JsString.length pre).
Proof.
  revert i; induction s as [|a s IH]; intros i.
  - left. split; [reflexivity | exact I].
  - cbn [indexOf_from]. destruct (String.prefix newline (String a s)) eqn:Hp.
    + right. apply prefix_newline in Hp. destruct Hp as [post Hp].
      exists "", post. repeat split; [exact Hp | cbn; lia].
    + destruct (IH (i + 1)) as [[Hr Hno] | (pre & post & -> & Hpre & Hr)].
      * left. split; [exact Hr|]. split; [|exact Hno].
        intros ->. assert (String.prefix newline (String LF s) = true)
          by (apply prefix_newline; eauto). congruence.
      * right. exists (String a pre), post. repeat split; [|exact Hpre|].
        -- intros ->. assert (String.prefix newline (String LF (pre ++ String LF post)) = true)
             by (apply prefix_newline; eauto). congruence.
        -- rewrite Hr. unfold JsString.length. cbn [String.length]. lia.
Qed.

Lemma indexOf_newline (s : string) :
  (indexOf s newline = -1 /\ lacks LF s) \/
  (exists pre post,
      s = pre ++ String LF post /\ lacks LF pre /\
      indexOf s newline = JsString.length pre).
Proof.
  destruct (indexOf_from_newline s 0) as [H | (pre & post & H1 & H2 & H3)];
    [left; exact H | right; exists pre, post; repeat split; auto].
Qed.

(** ** Welcome banner detection *)

Lemma indexOf_positive (needle s : string) :
  0 < indexOf s needle <->
  exists i, (0 < i)%nat /\ occursAt i needle s /\
            forall j, (j < i)%nat -> ~ occursAt j needle s.
Proof.
  unfold indexOf.
  destruct (indexOf_from_spec needle s 0) as [[Hr Hno] | (k & Hr & Hocc & Hmin)].
  - rewrite Hr. split; [lia|]. intros (i & _ & Hi & _). exfalso. exact (Hno i Hi).
  - rewrite Hr. split.
    + intros Hpos. exists k. repeat split; [lia | exact Hocc | exact Hmin].
    + intros (i & Hi & Hocc' & Hmin').
      destruct (Nat.lt_trichotomy i k) as [Hlt | [-> | Hgt]].
      * exfalso. exact (Hmin i Hlt Hocc').
      * lia.
      * exfalso. exact (Hmin' k Hgt Hocc).
Qed.

(** C4, as amended: [isWelcomeString] accepts a line exactly when it is not
    empty and starts with [GrblHAL ], or starts with [Grbl ], or has its
    FIRST occurrence of the FluidNC version marker at an index greater than
    zero.  The Grbl banner and a line with the marker at a positive offset
    are accepted, and [ok] is rejected. *)
Theorem isWelcomeString_accepts :
  (forall line : string,
      isWelcomeString (Some line) = true <->
      line <> "" /\
      (occursAt 0 "GrblHAL " line \/
       occursAt 0 "Grbl " line \/
       exists i, (0 < i)%nat /\ occursAt i " [FluidNC v" line /\
                 forall j, (j < i)%nat -> ~ occursAt j " [FluidNC v" line)) /\
  isWelcomeString (Some "Grbl 1.1h ['$' for help]") = true /\
  isWelcomeString (Some "[MSG:INFO: boot] [FluidNC v3.7.8]") = true /\
  isWelcomeString (Some "ok") = false.
Proof.
  split; [|repeat split].
  intros line. unfold isWelcomeString, startsWith.
  rewrite andb_true_iff, !orb_true_iff, negb_true_iff, String.eqb_neq,
    Z.ltb_lt, indexOf_positive, !occursAt_0.
  tauto.
Qed.

(** ** Line buffer *)

Ltac unfold_setters :=
  unfold with_buffer, with_commands, with_status, with_currentVersion,
    with_stats, with_xmodemMode, with_heap, with_nextRef, with_timers, with_nextTimer,
    with_settled, with_nextPromise, with_now, with_serialPort in *.

Ltac unfold_route :=
  unfold routeLine, Command_appendLine, call_onDone, settle, clearTimeout,
    store, deref in *.

Lemma routeLine_same_but_queue (l : string) (w : World Cmd Stats) :
  same_but_queue (this (routeLine l w)) (this w).
Proof.
  unfold same_but_queue. unfold_route.
  destruct (commands (this w)) as [|c0 q]; [tauto|].
  destruct (appendLine l _) as [f called].
  destruct called; [destruct (onDone _) as [k|]; [destruct (od_timer k);
    destruct (settlement _ _)|]|];
    destruct (CommandState_eqb _ _); cbn; tauto.
Qed.

Lemma routeLine_with_buffer (l b : string) (w : World Cmd Stats) :
  routeLine l (with_buffer b w) = with_buffer b (routeLine l w).
Proof.
  unfold_route. cbn.
  destruct (commands (this w)) as [|c0 q]; [reflexivity|].
  destruct (appendLine l _) as [f called].
  destruct called; [destruct (onDone _) as [k|]; [destruct (od_timer k);
    cbn; destruct (settlement _ _)|]|]; cbn;
    destruct (CommandState_eqb _ _); reflexivity.
Qed.

Lemma with_buffer_idem (b b' : string) (w : World Cmd Stats) :
  with_buffer b (with_buffer b' w) = with_buffer b w.
Proof. reflexivity. Qed.

Lemma with_buffer_self (w : World Cmd Stats) : with_buffer (buffer (this w)) w = w.
Proof. destruct w as [[] []]; reflexivity. Qed.

Lemma routeLines_with_buffer (ls : list string) (b : string) (w : World Cmd Stats) :
  routeLines ls (with_buffer b w) = with_buffer b (routeLines ls w).
Proof.
  revert w; induction ls as [|l ls IH]; intros w; [reflexivity|].
  unfold routeLines in *. cbn [fold_left].
  rewrite routeLine_with_buffer. apply IH.
Qed.

Lemma routeLines_same_but_queue (ls : list string) (w : World Cmd Stats) :
  same_but_queue (this (routeLines ls w)) (this w).
Proof.
  revert w; induction ls as [|l ls IH]; intros w.
  - unfold same_but_queue; cbn; tauto.
  - unfold routeLines in *. cbn [fold_left].
    specialize (IH (routeLine l w)).
    pose proof (routeLine_same_but_queue l w) as H.
    unfold same_but_queue in *. intuition congruence.
Qed.

(** The loop of [onData] splits the buffer at its newlines: the lines it
    removes, joined again, and the buffer it leaves make up the buffer it
    started from; the buffer it leaves holds no newline; and the world it
    leaves is the one reached by routing the lines in order. *)
Lemma onData_loop_spec (fuel : nat) (w : World Cmd Stats) :
  (String.length (buffer (this w)) <= fuel)%nat ->
  unlines (snd (onData_loop fuel w)) ++ buffer (this (fst (onData_loop fuel w)))
    = buffer (this w) /\
  lacks LF (buffer (this (fst (onData_loop fuel w)))) /\
  Forall (lacks LF) (snd (onData_loop fuel w)) /\
  fst (onData_loop fuel w)
    = with_buffer (buffer (this (fst (onData_loop fuel w))))
        (routeLines (snd (onData_loop fuel w)) w).
Proof.
  revert w; induction fuel as [|fuel IH]; intros w Hlen; cbn [onData_loop];
    destruct (indexOf_newline (buffer (this w)))
      as [[Hi Hl] | (pre & post & Hb & Hpre & Hi)]; rewrite Hi.
  - cbn. rewrite with_buffer_self. auto.
  - rewrite Hb, length_append in Hlen. cbn in Hlen. lia.
  - cbn. rewrite with_buffer_self. auto.
  - replace (0 <=? JsString.length pre) with true
      by (symmetry; apply Z.leb_le; unfold JsString.length; lia).
    assert (Hline : substring (buffer (this w)) 0 (JsString.length pre) = pre)
      by (rewrite Hb; apply js_substring_head).
    assert (Hrest : substring_from (buffer (this w)) (JsString.length pre + 1) = post)
      by (rewrite Hb; apply js_substring_tail).
    rewrite Hline, Hrest.
    set (w2 := routeLine pre (with_buffer post w)).
    assert (Hbuf : buffer (this w2) = post).
    { unfold w2. pose proof (routeLine_same_but_queue pre (with_buffer post w)) as H.
      unfold same_but_queue in H. cbn in H. tauto. }
    assert (Hlen2 : (String.length (buffer (this w2)) <= fuel)%nat).
    { rewrite Hbuf. rewrite Hb, length_append in Hlen. cbn in Hlen. lia. }
    specialize (IH w2 Hlen2). destruct (onData_loop fuel w2) as [w3 ls].
    cbn [fst snd] in *. destruct IH as (Hcat & Hno & Hall & Hw).
    repeat split.
    + cbn [unlines]. rewrite Hb. rewrite !append_assoc.
      rewrite Hcat, Hbuf. reflexivity.
    + exact Hno.
    + constructor; assumption.
    + rewrite Hw at 1. unfold w2. rewrite routeLine_with_buffer.
      unfold routeLines at 2. cbn [fold_left]. fold (routeLines ls (routeLine pre w)).
      rewrite routeLines_with_buffer. reflexivity.
Qed.

Lemma split_at_newline_unique (pre post pre' post' : string) :
  lacks LF pre -> lacks LF pre' ->
  pre ++ String LF post = pre' ++ String LF post' ->
  pre = pre' /\ post = post'.
Proof.
  revert pre'; induction pre as [|a pre IH]; intros [|a' pre']; cbn;
    intros Hp Hp' E.
  - split; congruence.
  - injection E as E1 E2. destruct Hp' as [Hne _]. congruence.
  - injection E as E1 E2. destruct Hp as [Hne _]. congruence.
  - injection E as E1 E2. destruct Hp as [_ Hp], Hp' as [_ Hp'].
    destruct (IH pre' Hp Hp' E2). split; congruence.
Qed.

(** A text splits into newline-free lines and a newline-free rest in one way
    only. *)
Lemma unlines_unique (ls ls' : list string) (b b' : string) :
  Forall (lacks LF) ls -> lacks LF b ->
  Forall (lacks LF) ls' -> lacks LF b' ->
  unlines ls ++ b = unlines ls' ++ b' ->
  ls = ls' /\ b = b'.
Proof.
  revert ls'; induction ls as [|l ls IH]; intros [|l' ls'] Hls Hb Hls' Hb' E;
    cbn [unlines] in E.
  - cbn in E. auto.
  - exfalso. cbn in E. subst b. rewrite !append_assoc in Hb.
    apply lacks_append in Hb. destruct Hb as [_ Hb]. cbn in Hb. tauto.
  - exfalso. cbn in E. subst b'. rewrite !append_assoc in Hb'.
    apply lacks_append in Hb'. destruct Hb' as [_ Hb']. cbn in Hb'. tauto.
  - inversion Hls; inversion Hls'; subst.
    rewrite !append_assoc in E. cbn in E.
    apply split_at_newline_unique in E; [|assumption..].
    destruct E as [-> E]. destruct (IH ls' H2 Hb H6 Hb' E). split; congruence.
Qed.

Lemma removeCR_lacks_LF (s : string) : lacks LF s -> lacks LF (removeCR s).
Proof.
  induction s as [|c s IH]; cbn; [auto|]. intros [Hc Hs].
  destruct (Ascii.eqb c CR); cbn; auto.
Qed.

(** One call of [onData] outside a binary transfer. *)
Lemma onData_spec (d : Buffer) (w : World Cmd Stats) :
  xmodemMode (this w) = false ->
  unlines (snd (onData d w)) ++ buffer (this (fst (onData d w)))
    = buffer (this w) ++ removeCR (toString d) /\
  lacks LF (buffer (this (fst (onData d w)))) /\
  Forall (lacks LF) (snd (onData d w)) /\
  fst (onData d w)
    = with_buffer (buffer (this (fst (onData d w))))
        (routeLines (snd (onData d w)) w).
Proof.
  intros Hx. unfold onData. rewrite Hx.
  set (w1 := with_buffer (buffer (this w) ++ removeCR (toString d)) w).
  destruct (onData_loop_spec (String.length (buffer (this w1))) w1 (le_n _))
    as (Hcat & Hno & Hall & Hw).
  repeat split; try assumption.
  rewrite Hw at 1. unfold w1. rewrite routeLines_with_buffer. reflexivity.
Qed.

Lemma onData_same_but_queue (d : Buffer) (w : World Cmd Stats) :
  xmodemMode (this (fst (onData d w))) = xmodemMode (this w) /\
  status (this (fst (onData d w))) = status (this w) /\
  currentVersion (this (fst (onData d w))) = currentVersion (this w) /\
  statusListeners (this (fst (onData d w))) = statusListeners (this w) /\
  stats (this (fst (onData d w))) = stats (this w).
Proof.
  destruct (xmodemMode (this w)) eqn:Hx.
  - unfold onData. rewrite Hx. cbn. auto.
  - destruct (onData_spec d w Hx) as (_ & _ & _ & Hw). rewrite Hw.
    pose proof (routeLines_same_but_queue (snd (onData d w)) w) as H.
    unfold same_but_queue in H. cbn. repeat split; intuition congruence.
Qed.

Lemma unlines_app (ls ls' : list string) :
  unlines (ls ++ ls') = unlines ls ++ unlines ls'.
Proof.
  induction ls as [|l ls IH]; cbn [unlines app]; [reflexivity|].
  rewrite IH, !append_assoc. reflexivity.
Qed.

Lemma unlines_lacks_LF (ls : list string) : lacks LF (unlines ls) -> ls = [].
Proof.
  destruct ls as [|l ls]; [reflexivity|]. cbn [unlines]. intros H.
  apply lacks_append in H. destruct H as [_ H]. cbn in H. tauto.
Qed.

(** Feeding a sequence of chunks outside a binary transfer. *)
Lemma feed_spec (chunks : list Buffer) :
  forall w : World Cmd Stats,
    xmodemMode (this w) = false ->
    unlines (snd (feed chunks w)) ++ buffer (this (fst (feed chunks w)))
      = buffer (this w) ++ removeCR (decoded chunks) /\
    Forall (lacks LF) (snd (feed chunks w)) /\
    (chunks <> [] -> lacks LF (buffer (this (fst (feed chunks w))))).
Proof.
  induction chunks as [|d chunks IH]; intros w Hx; cbn [feed decoded].
  - cbn. split; [symmetry; apply append_nil_r|]. split; [constructor|congruence].
  - destruct (onData_spec d w Hx) as (Hcat & Hno & Hall & _).
    destruct (onData_same_but_queue d w) as [Hx1 _]. rewrite Hx in Hx1.
    specialize (IH (fst (onData d w)) Hx1).
    destruct (onData d w) as [w1 ls1]. cbn [fst snd] in *.
    destruct IH as (IHcat & IHall & IHno).
    assert (Hlast : chunks = [] -> fst (feed chunks w1) = w1)
      by (intros ->; reflexivity).
    destruct (feed chunks w1) as [w2 ls2]. cbn [fst snd] in *.
    split; [|split].
    + rewrite unlines_app, append_assoc, IHcat, <- append_assoc, Hcat.
      rewrite removeCR_append, append_assoc. reflexivity.
    + apply Forall_app. split; assumption.
    + intros _. destruct chunks as [|d' chunks].
      * rewrite (Hlast eq_refl). exact Hno.
      * apply IHno. discriminate.
Qed.

(** What the source computes for [replace(/\r/g, "")] is the text with all
    carriage returns removed. *)
Lemma removeCR_without_CR (s : string) : removeCR s = without_CR s.
Proof.
  unfold without_CR. induction s as [|c s IH]; [reflexivity|].
  cbn [removeCR list_ascii_of_string filter].
  destruct (Ascii.eqb c CR); cbn [negb string_of_list_ascii]; now rewrite IH.
Qed.

Lemma unlines_lacks (c : ascii) (ls : list string) :
  lacks c (unlines ls) -> Forall (lacks c) ls.
Proof.
  induction ls as [|l ls IH]; cbn [unlines]; intros H; constructor.
  - apply lacks_append in H. tauto.
  - apply IH. apply lacks_append in H. destruct H as [_ H].
    apply lacks_append in H. tauto.
Qed.

(** On a buffer without a carriage return, neither the lines split off nor
    the retained buffer hold one. *)
Lemma feed_lacks_CR (chunks : list Buffer) (w : World Cmd Stats) :
  xmodemMode (this w) = false ->
  lacks CR (buffer (this w)) ->
  Forall (lacks CR) (snd (feed chunks w)) /\
  lacks CR (buffer (this (fst (feed chunks w)))).
Proof.
  intros Hx Hb. destruct (feed_spec chunks w Hx) as (Hcat & _ & _).
  assert (H : lacks CR (buffer (this w) ++ removeCR (decoded chunks)))
    by (apply lacks_append; split; [exact Hb | apply removeCR_lacks_CR]).
  rewrite <- Hcat in H. apply lacks_append in H. destruct H as [H1 H2].
  split; [now apply unlines_lacks | exact H2].
Qed.

(** A chunk without a newline, arriving on a buffer without one, is retained
    whole. *)
Lemma onData_retains (d : Buffer) (w : World Cmd Stats) :
  xmodemMode (this w) = false ->
  lacks LF (buffer (this w)) -> lacks LF (toString d) ->
  snd (onData d w) = [] /\
  buffer (this (fst (onData d w))) = buffer (this w) ++ removeCR (toString d).
Proof.
  intros Hx Hb Hd.
  destruct (onData_spec d w Hx) as (Hcat & Hno & Hall & _).
  assert (Hrhs : lacks LF (buffer (this w) ++ removeCR (toString d)))
    by (apply lacks_append; split; [assumption | now apply removeCR_lacks_LF]).
  rewrite <- Hcat in Hrhs. apply lacks_append in Hrhs.
  destruct Hrhs as [Hls _]. apply unlines_lacks_LF in Hls.
  rewrite Hls in Hcat. cbn in Hcat. auto.
Qed.

(** C6: while a binary transfer is active, [onData] changes nothing: the line
    buffer, the queue and everything else are as they were, and no line is
    split off. *)
Theorem onData_ignores_bytes_during_transfer (d : Buffer) (w : World Cmd Stats) :
  xmodemMode (this w) = true ->
  onData d w = (w, []) /\
  buffer (this (fst (onData d w))) = buffer (this w) /\
  commands (this (fst (onData d w))) = commands (this w).
Proof.
  intros Hx. unfold onData. rewrite Hx. auto.
Qed.

Lemma routeLines_empty_queue (ls : list string) (w : World Cmd Stats) :
  commands (this w) = [] -> routeLines ls w = w.
Proof.
  intros Hq. induction ls as [|l ls IH]; [reflexivity|].
  unfold routeLines in *. cbn [fold_left].
  replace (routeLine l w) with w by (unfold routeLine; now rewrite Hq).
  exact IH.
Qed.

(** C8: with an empty queue [onData] can only change the line buffer, and a
    complete line is discarded: whatever partial line was buffered is
    completed and dropped, the queue stays empty, and a line that arrives on
    an empty buffer leaves the whole world exactly as it was.  The model of
    [onData] is a total function: it has no failing path. *)
Theorem onData_discards_line_on_empty_queue
    (d : Buffer) (line : string) (w : World Cmd Stats) :
  xmodemMode (this w) = false ->
  commands (this w) = [] ->
  lacks LF (buffer (this w)) ->
  toString d = line ++ newline ->
  lacks LF line ->
  onData d w = (with_buffer "" w, [buffer (this w) ++ removeCR line]) /\
  commands (this (fst (onData d w))) = [] /\
  (buffer (this w) = "" -> fst (onData d w) = w).
Proof.
  intros Hx Hq Hb Hd Hline.
  destruct (onData_spec d w Hx) as (Hcat & Hno & Hall & Hw).
  rewrite (routeLines_empty_queue _ _ Hq) in Hw.
  assert (Hsplit : snd (onData d w) = [buffer (this w) ++ removeCR line] /\
                   buffer (this (fst (onData d w))) = "").
  { apply unlines_unique; try assumption.
    - constructor; [|constructor]. apply lacks_append. split;
        [assumption | now apply removeCR_lacks_LF].
    - exact I.
    - rewrite Hcat, Hd, removeCR_append. cbn [unlines].
      rewrite !append_assoc, !append_nil_r. reflexivity. }
  destruct Hsplit as [Hls Hrest]. rewrite Hrest in Hw.
  assert (Hpair : onData d w = (with_buffer "" w, [buffer (this w) ++ removeCR line])).
  { rewrite (surjective_pairing (onData d w)), Hls, Hw. reflexivity. }
  split; [exact Hpair|]. rewrite Hpair. cbn [fst]. split.
  - cbn. exact Hq.
  - intros E. rewrite <- E. apply with_buffer_self.
Qed.

(** C10: the retained line buffer never holds a newline or a carriage
    return.  The buffer of a new service holds neither; a call of [onData]
    outside a binary transfer leaves no newline in the buffer and adds no
    carriage return to it; a call during a binary transfer leaves the buffer
    as it was. *)
Theorem onData_keeps_buffer_clean (d : Buffer) (w : World Cmd Stats) :
  lacks CR (buffer (this w)) ->
  (xmodemMode (this w) = true -> lacks LF (buffer (this w))) ->
  (lacks LF (buffer (@constructor Stats)) /\
   lacks CR (buffer (@constructor Stats))) /\
  lacks LF (buffer (this (fst (onData d w)))) /\
  lacks CR (buffer (this (fst (onData d w)))).
Proof.
  intros Hcr Hlf. split; [cbn; auto|].
  destruct (xmodemMode (this w)) eqn:Hx.
  - unfold onData. rewrite Hx. cbn [fst]. auto.
  - destruct (onData_spec d w Hx) as (Hcat & Hno & _). split; [exact Hno|].
    assert (H : lacks CR (buffer (this w) ++ removeCR (toString d)))
      by (apply lacks_append; split; [assumption | apply removeCR_lacks_CR]).
    rewrite <- Hcat in H. apply lacks_append in H. tauto.
Qed.

(** ** Command queue *)

Lemma CommandState_eqb_DONE (s : CommandState) :
  CommandState_eqb s DONE = true <-> s = DONE.
Proof. destruct s; cbn; split; congruence. Qed.

Lemma settle_frame (p : PromiseId) (o : Settlement) (w : World Cmd Stats) :
  this (settle p o w) = this w /\
  heap (js (settle p o w)) = heap (js w) /\
  timers (js (settle p o w)) = timers (js w) /\
  nextTimer (js (settle p o w)) = nextTimer (js w) /\
  nextPromise (js (settle p o w)) = nextPromise (js w) /\
  now (js (settle p o w)) = now (js w) /\
  serialPort (js (settle p o w)) = serialPort (js w) /\
  nextRef (js (settle p o w)) = nextRef (js w).
Proof.
  unfold settle. destruct (settlement p (settled (js w))); cbn; tauto.
Qed.

Lemma clearTimeout_frame (tid : TimerId) (w : World Cmd Stats) :
  this (clearTimeout tid w) = this w /\
  heap (js (clearTimeout tid w)) = heap (js w) /\
  settled (js (clearTimeout tid w)) = settled (js w) /\
  nextTimer (js (clearTimeout tid w)) = nextTimer (js w) /\
  nextPromise (js (clearTimeout tid w)) = nextPromise (js w) /\
  now (js (clearTimeout tid w)) = now (js w) /\
  serialPort (js (clearTimeout tid w)) = serialPort (js w) /\
  nextRef (js (clearTimeout tid w)) = nextRef (js w).
Proof. unfold clearTimeout; cbn; tauto. Qed.

(** Calling [onDone] touches the timers and the settlement log only. *)
Lemma call_onDone_frame (c : Ref) (w : World Cmd Stats) :
  this (call_onDone c w) = this w /\
  heap (js (call_onDone c w)) = heap (js w) /\
  nextTimer (js (call_onDone c w)) = nextTimer (js w) /\
  nextPromise (js (call_onDone c w)) = nextPromise (js w) /\
  now (js (call_onDone c w)) = now (js w) /\
  serialPort (js (call_onDone c w)) = serialPort (js w) /\
  nextRef (js (call_onDone c w)) = nextRef (js w).
Proof.
  unfold call_onDone. destruct (onDone (deref w c)) as [k|]; [|tauto].
  destruct (od_timer k) as [tid|].
  - pose proof (settle_frame (od_promise k) (Resolved (od_command k))
                  (clearTimeout tid w)) as H.
    pose proof (clearTimeout_frame tid w) as H'.
    intuition congruence.
  - pose proof (settle_frame (od_promise k) (Resolved (od_command k)) w) as H.
    intuition congruence.
Qed.

(** [appendLine] on the object at [c] replaces the fields of that object and
    nothing else on the heap or in the service. *)
Lemma Command_appendLine_frame (c : Ref) (line : string) (w : World Cmd Stats) :
  this (Command_appendLine c line w) = this w /\
  (forall r,
      heap (js (Command_appendLine c line w)) r
      = if Nat.eqb r c
        then mkObject (fst (appendLine line (fields (deref w c)))) (onDone (deref w c))
        else heap (js w) r) /\
  nextTimer (js (Command_appendLine c line w)) = nextTimer (js w) /\
  nextPromise (js (Command_appendLine c line w)) = nextPromise (js w) /\
  now (js (Command_appendLine c line w)) = now (js w) /\
  serialPort (js (Command_appendLine c line w)) = serialPort (js w) /\
  nextRef (js (Command_appendLine c line w)) = nextRef (js w).
Proof.
  unfold Command_appendLine.
  destruct (appendLine line (fields (deref w c))) as [f called]. cbn [fst].
  set (w1 := store c (mkObject f (onDone (deref w c))) w).
  assert (H1 : this w1 = this w /\
               (forall r, heap (js w1) r
                          = if Nat.eqb r c then mkObject f (onDone (deref w c))
                            else heap (js w) r) /\
               nextTimer (js w1) = nextTimer (js w) /\
               nextPromise (js w1) = nextPromise (js w) /\
               now (js w1) = now (js w) /\
               serialPort (js w1) = serialPort (js w) /\
               nextRef (js w1) = nextRef (js w))
    by (unfold w1, store; cbn; tauto).
  destruct called; [|exact H1].
  pose proof (call_onDone_frame c w1) as H2.
  destruct H1 as (A1 & A2 & A3 & A4 & A5 & A6 & A7).
  destruct H2 as (B1 & B2 & B3 & B4 & B5 & B6 & B7).
  repeat split; try congruence.
  intros r. rewrite B2. apply A2.
Qed.

(** What routing one line does when the queue is not empty: the head object
    takes the line, every other object is untouched, and the head leaves the
    queue exactly when its state is [DONE] afterwards. *)
Lemma routeLine_head (line : string) (w : World Cmd Stats) (c0 : Ref) (q : list Ref) :
  commands (this w) = c0 :: q ->
  fields (deref (routeLine line w) c0)
    = fst (appendLine line (fields (deref w c0))) /\
  onDone (deref (routeLine line w) c0) = onDone (deref w c0) /\
  (forall r, r <> c0 -> deref (routeLine line w) r = deref w r) /\
  (state (fields (deref (routeLine line w) c0)) = DONE ->
   commands (this (routeLine line w)) = q) /\
  (state (fields (deref (routeLine line w) c0)) <> DONE ->
   commands (this (routeLine line w)) = c0 :: q).
Proof.
  intros Hq. unfold routeLine. rewrite Hq.
  destruct (Command_appendLine_frame c0 line w) as (Hthis & Hheap & _).
  set (w1 := Command_appendLine c0 line w) in *.
  assert (Hd : forall r, deref w1 r
                 = if Nat.eqb r c0
                   then mkObject (fst (appendLine line (fields (deref w c0))))
                          (onDone (deref w c0))
                   else deref w r) by (intros r; apply Hheap).
  assert (Hderef : forall w' : World Cmd Stats,
             heap (js w') = heap (js w1) -> forall r, deref w' r = deref w1 r)
    by (intros w' E r; unfold deref; now rewrite E).
  destruct (CommandState_eqb (state (fields (deref w1 c0))) DONE) eqn:Hs.
  - rewrite !(Hderef (with_commands _ w1) eq_refl), !Hd, Nat.eqb_refl. cbn.
    repeat split; try congruence.
    + intros r Hr. rewrite (Hderef (with_commands _ w1) eq_refl), Hd.
      apply Nat.eqb_neq in Hr. now rewrite Hr.
    + intros _. now rewrite Hthis, Hq.
    + intros Hn. exfalso. apply Hn. apply CommandState_eqb_DONE.
      rewrite Hd, Nat.eqb_refl in Hs. exact Hs.
  - rewrite !Hd, Nat.eqb_refl. cbn. repeat split; try congruence.
    + intros r Hr. rewrite Hd. apply Nat.eqb_neq in Hr. now rewrite Hr.
    + intros Hdone. apply CommandState_eqb_DONE in Hdone.
      rewrite Hd, Nat.eqb_refl in Hs. cbn in Hs. congruence.
Qed.

(** The effect of [send]. *)
Lemma send_effect (c : Ref) (timeoutMs : Z) (w : World Cmd Stats) :
  let p := nextPromise (js w) in
  let tid := nextTimer (js w) in
  let w' := fst (send c timeoutMs w) in
  snd (send c timeoutMs w) = p /\
  commands (this w') = (commands (this w) ++ [c])%list /\
  same_but_queue (this w') (this w) /\
  (forall r, deref w' r
             = if Nat.eqb r c
               then mkObject (fields (deref w c))
                      (Some (mkClosure (if 0 <? timeoutMs then Some tid else None) p c))
               else deref w r) /\
  timers (js w')
    = (if 0 <? timeoutMs
       then timers (js w) ++ [mkTimer tid (now (js w) + timeoutMs) c p]
       else timers (js w))%list /\
  nextTimer (js w') = (if 0 <? timeoutMs then S tid else tid) /\
  nextPromise (js w') = S p /\
  settled (js w') = settled (js w) /\
  now (js w') = now (js w) /\
  nextRef (js w') = nextRef (js w) /\
  isOpen (serialPort (js w')) = isOpen (serialPort (js w)) /\
  readers (serialPort (js w')) = readers (serialPort (js w)) /\
  written (serialPort (js w'))
    = (written (serialPort (js w))
       ++ [fromString (command (fields (deref w c)) ++ newline)])%list.
Proof.
  unfold send, same_but_queue. destruct (0 <? timeoutMs); cbn;
    unfold deref; cbn; rewrite Nat.eqb_refl; cbn; repeat split; reflexivity.
Qed.

Lemma settlement_app (p : PromiseId) (l l' : list (PromiseId * Settlement)) :
  settlement p (l ++ l')
  = match settlement p l with
    | Some o => Some o
    | None => settlement p l'
    end.
Proof.
  induction l as [|[q o] l IH]; cbn; [reflexivity|].
  destruct (Nat.eqb q p); [reflexivity | exact IH].
Qed.

Lemma settlement_In (p : PromiseId) (o : Settlement)
    (l : list (PromiseId * Settlement)) :
  settlement p l = Some o -> In (p, o) l.
Proof.
  induction l as [|[q o'] l IH]; cbn; [discriminate|].
  destruct (Nat.eqb q p) eqn:E.
  - apply Nat.eqb_eq in E. intros [= ->]. left. congruence.
  - intros H. right. auto.
Qed.

Lemma settlement_fresh (w : World Cmd Stats) (p : PromiseId) :
  promises_allocated w -> (nextPromise (js w) <= p)%nat ->
  settlement p (settled (js w)) = None.
Proof.
  intros Ha Hp. destruct (settlement p (settled (js w))) as [o|] eqn:E;
    [|reflexivity].
  apply settlement_In in E. apply Ha in E. lia.
Qed.

Lemma settled_settle (p : PromiseId) (o : Settlement) (w : World Cmd Stats) :
  settled (js (settle p o w))
  = match settlement p (settled (js w)) with
    | Some _ => settled (js w)
    | None => (settled (js w) ++ [(p, o)])%list
    end.
Proof. unfold settle. destruct (settlement p (settled (js w))); reflexivity. Qed.

(** Routing a line to a head that was sent without a timeout: the promise of
    the head is resolved when [appendLine] calls [onDone]; the timers and the
    promise counter stay as they are. *)
Lemma routeLine_untimed (line : string) (w : World Cmd Stats)
    (c : Ref) (q : list Ref) (p : PromiseId) :
  commands (this w) = c :: q ->
  onDone (deref w c) = Some (mkClosure None p c) ->
  settled (js (routeLine line w))
    = (if snd (appendLine line (fields (deref w c)))
       then settled (js (settle p (Resolved c) w))
       else settled (js w)) /\
  timers (js (routeLine line w)) = timers (js w) /\
  nextPromise (js (routeLine line w)) = nextPromise (js w).
Proof.
  intros Hq Hk. unfold routeLine. rewrite Hq.
  assert (Hjs : forall (b : bool) (cs : list Ref) (w1 : World Cmd Stats),
             js (if b then with_commands cs w1 else w1) = js w1)
    by (intros [] ? ?; reflexivity).
  rewrite Hjs. unfold Command_appendLine.
  destruct (appendLine line (fields (deref w c))) as [f called]. cbn [snd].
  destruct called; [|cbn; auto].
  unfold call_onDone, store, deref in *. cbn. rewrite Nat.eqb_refl. cbn.
  rewrite Hk. cbn. rewrite !settled_settle. cbn.
  split; [reflexivity|].
  match goal with
  | |- context [settle ?a ?b ?x] => destruct (settle_frame a b x) as (_ & _ & Ht & _ & Hp & _)
  end.
  rewrite Ht, Hp. cbn. auto.
Qed.

Lemma routeLines_app (ls ls' : list string) (w : World Cmd Stats) :
  routeLines (ls ++ ls') w = routeLines ls' (routeLines ls w).
Proof. unfold routeLines. apply fold_left_app. Qed.

Lemma completes_on_pending (o : Cmd) (ls : list string) :
  completes_on o ls -> state o <> DONE.
Proof. destruct ls; cbn; tauto. Qed.

(** A head command that is fed the lines it expects stays at the head until
    the last of them, which resolves its promise and takes it off the
    queue; no other object changes. *)
Lemma route_expected (ls : list string) :
  forall (w : World Cmd Stats) (c : Ref) (q : list Ref) (p : PromiseId),
    commands (this w) = c :: q ->
    onDone (deref w c) = Some (mkClosure None p c) ->
    settlement p (settled (js w)) = None ->
    completes_on (fields (deref w c)) ls ->
    commands (this (routeLines ls w)) = q /\
    settled (js (routeLines ls w)) = (settled (js w) ++ [(p, Resolved c)])%list /\
    (forall r, r <> c -> deref (routeLines ls w) r = deref w r).
Proof.
  induction ls as [|l ls IH]; intros w c q p Hq Hk Hp Hc; [destruct Hc|].
  destruct Hc as [Hpend Hc].
  destruct (routeLine_head l w c q Hq) as (Hf & Hod & Hother & Hpop & Hstay).
  destruct (routeLine_untimed l w c q p Hq Hk) as (Hset & _ & _).
  pose proof (notifies l (fields (deref w c)) Hpend) as Hn.
  change (routeLines (l :: ls) w) with (routeLines ls (routeLine l w)).
  destruct ls as [|l2 ls].
  - cbn [routeLines fold_left]. rewrite Hf in Hpop.
    assert (Hcalled : snd (appendLine l (fields (deref w c))) = true)
      by (apply Hn; exact Hc).
    rewrite Hcalled, settled_settle, Hp in Hset. auto.
  - pose proof (completes_on_pending _ _ Hc) as Hpend'.
    assert (Hcalled : snd (appendLine l (fields (deref w c))) = false).
    { destruct (snd (appendLine l (fields (deref w c)))); [|reflexivity].
      exfalso. apply Hpend'. apply Hn. reflexivity. }
    rewrite Hcalled in Hset. rewrite <- Hf in Hpend'.
    specialize (Hstay Hpend').
    destruct (IH (routeLine l w) c q p) as (Hq' & Hset' & Hother');
      [assumption | congruence | congruence | now rewrite Hf |].
    split; [exact Hq'|]. split; [congruence|].
    intros r Hr. rewrite (Hother' r Hr). auto.
Qed.

(** Jobs whose commands make up the queue, in order, are completed in
    order. *)
Lemma route_all (jobs : list Job) :
  forall w : World Cmd Stats,
    NoDup (map job_command jobs) ->
    NoDup (map job_promise jobs) ->
    commands (this w) = map job_command jobs ->
    Forall (ready w) jobs ->
    commands (this (routeLines (concat (map job_lines jobs)) w)) = [] /\
    settled (js (routeLines (concat (map job_lines jobs)) w))
      = (settled (js w)
         ++ map (fun j => (job_promise j, Resolved (job_command j))) jobs)%list.
Proof.
  induction jobs as [|[[c p] ls] jobs IH]; intros w Hcs Hps Hq Hready.
  - cbn. rewrite app_nil_r. auto.
  - cbn [map concat job_lines job_command job_promise fst snd] in *.
    inversion Hcs as [|? ? Hc Hcs']; inversion Hps as [|? ? Hp Hps']; subst.
    inversion Hready as [|? ? Hj Hrest]; subst.
    destruct Hj as (Hk & Hpend & Hexp).
    cbn [job_lines job_command job_promise fst snd] in *.
    rewrite routeLines_app.
    destruct (route_expected ls w c _ p Hq Hk Hpend Hexp) as (Hq1 & Hs1 & Ho1).
    destruct (IH (routeLines ls w) Hcs' Hps' Hq1) as (Hq2 & Hs2).
    + rewrite Forall_forall in *. intros j Hj. specialize (Hrest j Hj).
      destruct Hrest as (Hk' & Hpend' & Hexp').
      assert (Hcj : job_command j <> c)
        by (intros E; apply Hc; rewrite <- E; now apply in_map).
      assert (Hpj : job_promise j <> p)
        by (intros E; apply Hp; rewrite <- E; now apply in_map).
      unfold ready. rewrite (Ho1 _ Hcj), Hs1, settlement_app, Hpend'. cbn.
      apply Nat.eqb_neq in Hpj. rewrite Nat.eqb_sym, Hpj. auto.
    + split; [exact Hq2|]. rewrite Hs2, Hs1, <- app_assoc. reflexivity.
Qed.

Lemma jobs_of_lists (cs : list Ref) :
  forall (ps : list PromiseId) (lss : list (list string)),
    List.length ps = List.length cs -> List.length lss = List.length cs ->
    map job_command (combine (combine cs ps) lss) = cs /\
    map job_promise (combine (combine cs ps) lss) = ps /\
    map job_lines (combine (combine cs ps) lss) = lss.
Proof.
  induction cs as [|c cs IH]; intros [|p ps] [|ls lss] Hp Hl;
    try discriminate; cbn; [auto|].
  injection Hp as Hp. injection Hl as Hl.
  destruct (IH ps lss Hp Hl) as (H1 & H2 & H3).
  unfold job_command, job_promise, job_lines in *. cbn.
  rewrite H1, H2, H3. auto.
Qed.

(** Sending a list of distinct pending commands without a timeout appends
    them to the queue and leaves one ready job for each. *)
Lemma sendAll_ready (cs : list Ref) :
  forall (w : World Cmd Stats) (lss : list (list string)),
    NoDup cs ->
    promises_allocated w ->
    Forall2 (fun c ls => completes_on (fields (deref w c)) ls) cs lss ->
    commands (this (fst (sendAll cs 0 w))) = (commands (this w) ++ cs)%list /\
    same_but_queue (this (fst (sendAll cs 0 w))) (this w) /\
    settled (js (fst (sendAll cs 0 w))) = settled (js w) /\
    (forall x, fields (deref (fst (sendAll cs 0 w)) x) = fields (deref w x)) /\
    (forall x, ~ In x cs ->
               onDone (deref (fst (sendAll cs 0 w)) x) = onDone (deref w x)) /\
    (nextPromise (js w) <= nextPromise (js (fst (sendAll cs 0 w))))%nat /\
    Forall (fun p => (nextPromise (js w) <= p)%nat) (snd (sendAll cs 0 w)) /\
    NoDup (snd (sendAll cs 0 w)) /\
    List.length (snd (sendAll cs 0 w)) = List.length cs /\
    Forall (ready (fst (sendAll cs 0 w)))
      (combine (combine cs (snd (sendAll cs 0 w))) lss).
Proof.
  induction cs as [|c cs IH]; intros w lss Hnd Halloc Hexp.
  - cbn. rewrite app_nil_r. unfold same_but_queue.
    repeat split; auto; constructor.
  - inversion Hexp as [|? ls ? lss' Hc Hrest]; subst.
    inversion Hnd as [|? ? Hnotin Hnd']; subst.
    cbn [sendAll].
    pose proof (send_effect c 0 w) as Hsend. cbn zeta in Hsend.
    change (0 <? 0) with false in Hsend.
    destruct Hsend as (Hp & Hq & Hsame & Hd & _ & _ & Hnp & Hset & _).
    destruct (send c 0 w) as [w1 p]. cbn [fst snd] in *. subst p.
    assert (Halloc1 : promises_allocated w1).
    { intros p o Hin. rewrite Hset in Hin. apply Halloc in Hin.
      rewrite Hnp. lia. }
    assert (Hfields1 : forall x, fields (deref w1 x) = fields (deref w x)).
    { intros x. rewrite Hd. destruct (Nat.eqb x c) eqn:E; [|reflexivity].
      apply Nat.eqb_eq in E. now subst. }
    assert (Hexp1 : Forall2 (fun c ls => completes_on (fields (deref w1 c)) ls)
                            cs lss').
    { clear -Hrest Hfields1. induction Hrest; constructor; auto.
      now rewrite Hfields1. }
    specialize (IH w1 lss' Hnd' Halloc1 Hexp1).
    destruct (sendAll cs 0 w1) as [w2 ps]. cbn [fst snd] in *.
    destruct IH as (Hq2 & Hsame2 & Hset2 & Hf2 & Hod2 & Hnp2 & Hps & Hndp & Hlen & Hready).
    repeat split.
    + rewrite Hq2, Hq, <- app_assoc. reflexivity.
    + apply proj1 in Hsame2. apply proj1 in Hsame. congruence.
    + unfold same_but_queue in *. intuition congruence.
    + unfold same_but_queue in *. intuition congruence.
    + unfold same_but_queue in *. intuition congruence.
    + unfold same_but_queue in *. intuition congruence.
    + unfold same_but_queue in *. intuition congruence.
    + congruence.
    + intros x. rewrite Hf2. apply Hfields1.
    + intros x Hx. rewrite Hod2 by (intros Hin; apply Hx; now right).
      rewrite Hd. destruct (Nat.eqb x c) eqn:E; [|reflexivity].
      apply Nat.eqb_eq in E. exfalso. apply Hx. now left.
    + lia.
    + constructor; [lia|]. eapply Forall_impl; [|exact Hps].
      cbn. intros; lia.
    + constructor; [|exact Hndp]. intros Hin.
      rewrite Forall_forall in Hps. apply Hps in Hin. lia.
    + cbn. now rewrite Hlen.
    + cbn [combine]. constructor; [|exact Hready].
      unfold ready. cbn [job_command job_promise job_lines fst snd].
      rewrite (Hod2 c Hnotin), Hd, Nat.eqb_refl. cbn.
      split; [reflexivity|]. split.
      * rewrite Hset2, Hset. apply settlement_fresh; [assumption | lia].
      * rewrite Hf2, Hfields1. exact Hc.
Qed.

(** Feeding chunks routes the lines they complete, in order. *)
Lemma feed_routes (chunks : list Buffer) :
  forall w : World Cmd Stats,
    xmodemMode (this w) = false ->
    fst (feed chunks w)
    = with_buffer (buffer (this (fst (feed chunks w))))
        (routeLines (snd (feed chunks w)) w).
Proof.
  induction chunks as [|d chunks IH]; intros w Hx; cbn [feed].
  - cbn. symmetry. apply with_buffer_self.
  - destruct (onData_spec d w Hx) as (_ & _ & _ & Hw).
    destruct (onData_same_but_queue d w) as [Hx1 _]. rewrite Hx in Hx1.
    specialize (IH (fst (onData d w)) Hx1).
    destruct (onData d w) as [w1 ls1]. cbn [fst snd] in *.
    destruct (feed chunks w1) as [w2 ls2]. cbn [fst snd] in *.
    rewrite IH at 1. rewrite Hw at 1.
    rewrite routeLines_with_buffer, with_buffer_idem, routeLines_app.
    reflexivity.
Qed.

Lemma jobs_resolutions (cs : list Ref) :
  forall (ps : list PromiseId) (lss : list (list string)),
    List.length ps = List.length cs -> List.length lss = List.length cs ->
    map (fun j => (job_promise j, Resolved (job_command j)))
      (combine (combine cs ps) lss)
    = map (fun pc => (fst pc, Resolved (snd pc))) (combine ps cs).
Proof.
  induction cs as [|c cs IH]; intros [|p ps] [|ls lss] Hlen Hlss;
    try discriminate; cbn; [reflexivity|].
  f_equal. apply IH; [now injection Hlen | now injection Hlss].
Qed.

(** C2: every line that [onData] splits off is routed, in arrival order, to
    the command at the head of the queue and to no other object, and the head
    leaves the queue exactly when its state is [DONE] after the line.  Hence,
    when distinct pending commands are sent without timeouts to an idle
    service and the chunks that arrive spell, line by line, exactly what each
    command expects, the queue ends empty and the promises are resolved in
    the order in which the commands were sent. *)
Theorem commands_complete_in_order
    (cs : list Ref) (lss : list (list string)) (chunks : list Buffer)
    (w : World Cmd Stats) :
  xmodemMode (this w) = false ->
  commands (this w) = [] ->
  buffer (this w) = "" ->
  promises_allocated w ->
  NoDup cs ->
  Forall2 (fun c ls => completes_on (fields (deref w c)) ls) cs lss ->
  Forall (Forall (lacks LF)) lss ->
  removeCR (decoded chunks) = unlines (concat lss) ->
  (forall (d : Buffer) (w0 : World Cmd Stats),
      xmodemMode (this w0) = false ->
      fst (onData d w0)
      = with_buffer (buffer (this (fst (onData d w0))))
          (routeLines (snd (onData d w0)) w0)) /\
  (forall (line : string) (w0 : World Cmd Stats),
      commands (this w0) = [] -> routeLine line w0 = w0) /\
  (forall (line : string) (w0 : World Cmd Stats) (c0 : Ref) (q : list Ref),
      commands (this w0) = c0 :: q ->
      fields (deref (routeLine line w0) c0)
        = fst (appendLine line (fields (deref w0 c0))) /\
      (forall r, r <> c0 -> deref (routeLine line w0) r = deref w0 r) /\
      (state (fields (deref (routeLine line w0) c0)) = DONE ->
       commands (this (routeLine line w0)) = q) /\
      (state (fields (deref (routeLine line w0) c0)) <> DONE ->
       commands (this (routeLine line w0)) = c0 :: q)) /\
  commands (this (fst (feed chunks (fst (sendAll cs 0 w))))) = [] /\
  settled (js (fst (feed chunks (fst (sendAll cs 0 w)))))
    = (settled (js w)
       ++ map (fun pc => (fst pc, Resolved (snd pc)))
            (combine (snd (sendAll cs 0 w)) cs))%list.
Proof.
  intros Hx Hq Hb Halloc Hnd Hexp Hlines Htext.
  split; [intros d w0 Hx0; apply (onData_spec d w0 Hx0)|].
  split; [intros line w0 Hq0; unfold routeLine; now rewrite Hq0|].
  split; [intros line w0 c0 q Hq0;
          destruct (routeLine_head line w0 c0 q Hq0) as (H1 & _ & H2 & H3 & H4);
          auto|].
  destruct (sendAll_ready cs w lss Hnd Halloc Hexp)
    as (Hq1 & Hsame & Hset & _ & _ & _ & _ & Hndp & Hlen & Hready).
  set (w1 := fst (sendAll cs 0 w)) in *. set (ps := snd (sendAll cs 0 w)) in *.
  assert (Hx1 : xmodemMode (this w1) = false)
    by (unfold same_but_queue in Hsame; intuition congruence).
  assert (Hb1 : buffer (this w1) = "")
    by (unfold same_but_queue in Hsame; intuition congruence).
  destruct (feed_spec chunks w1 Hx1) as (Hcat & Hall & Hno).
  pose proof (feed_routes chunks w1 Hx1) as Hw.
  assert (Hsplit : snd (feed chunks w1) = concat lss /\
                   buffer (this (fst (feed chunks w1))) = "").
  { destruct chunks as [|d chunks].
    - cbn in *. split; [|exact Hb1].
      symmetry. apply unlines_lacks_LF. rewrite <- Htext. exact I.
    - apply unlines_unique.
      + exact Hall.
      + apply Hno. discriminate.
      + apply Forall_concat. exact Hlines.
      + exact I.
      + rewrite Hcat, Hb1, Htext, append_nil_r. reflexivity. }
  destruct Hsplit as [Hls _]. rewrite Hls in Hw.
  assert (Hlss : List.length lss = List.length cs)
    by (symmetry; eapply Forall2_length; exact Hexp).
  destruct (jobs_of_lists cs ps lss Hlen Hlss) as (Hjc & Hjp & Hjl).
  set (jobs := combine (combine cs ps) lss) in *.
  destruct (route_all jobs w1) as (Hq2 & Hs2).
  - now rewrite Hjc.
  - now rewrite Hjp.
  - rewrite Hq1, Hq, Hjc. reflexivity.
  - exact Hready.
  - rewrite Hjl in Hq2, Hs2. rewrite Hw. cbn. split; [exact Hq2|].
    rewrite Hs2, Hset. f_equal. apply jobs_resolutions; assumption.
Qed.

(** ** Timeouts *)

Lemma same_handles_refl (w : World Cmd Stats) : same_handles w w.
Proof. unfold same_handles; auto. Qed.

Lemma routeLine_callback (line : string) (w : World Cmd Stats) :
  callback w (routeLine line w).
Proof.
  unfold routeLine. destruct (commands (this w)) as [|c0 q];
    [apply callback_quiet; auto using same_handles_refl|].
  assert (Hcb : callback w (Command_appendLine c0 line w)).
  { unfold Command_appendLine.
    destruct (appendLine line (fields (deref w c0))) as [f called].
    set (w1 := store c0 (mkObject f (onDone (deref w c0))) w).
    assert (Hsame : same_handles w w1).
    { unfold same_handles, w1, store, deref. cbn. repeat split.
      intros r. destruct (Nat.eqb r c0) eqn:E; [|reflexivity].
      apply Nat.eqb_eq in E. now subst. }
    destruct called; [|apply callback_quiet; auto].
    unfold call_onDone.
    destruct (onDone (deref w1 c0)) as [k|] eqn:Hk;
      [|apply callback_quiet; auto].
    assert (Hk0 : onDone (deref w c0) = Some k)
      by (destruct Hsame as (_ & _ & Hc); now rewrite <- Hc).
    apply (callback_done _ _ c0 k); [|exact Hk0| |].
    - destruct Hsame as (A & B & C).
      destruct (od_timer k) as [tid|]; unfold same_handles, settle, clearTimeout, deref in *;
        destruct (settlement _ _); cbn; auto.
    - destruct (od_timer k) as [tid|]; unfold settle, clearTimeout;
        destruct (settlement _ _); reflexivity.
    - destruct (od_timer k) as [tid|]; unfold settle, clearTimeout, settled_after;
        cbn; destruct (settlement _ _); reflexivity. }
  destruct (CommandState_eqb _ _); [|exact Hcb].
  destruct Hcb as [H1 H2 H3 | r k H1 H2 H3 H4 | t H1 H2 H3 H4].
  - apply callback_quiet; auto.
  - apply (callback_done _ _ r k); auto.
  - apply (callback_timeout _ _ t); auto.
Qed.

Lemma fireTimer_callback (t : Timer) (w : World Cmd Stats) :
  In t (timers (js w)) -> callback w (fireTimer t w).
Proof.
  intros Hin. apply (callback_timeout _ _ t); [|exact Hin| |];
    unfold fireTimer, settle, _removeCommand, clearTimeout, settled_after,
      same_handles, deref; cbn; destruct (settlement _ _); cbn; auto.
Qed.

Ltac quiet_callback :=
  apply callback_quiet;
  [ unfold same_handles, deref; cbn; auto | reflexivity | reflexivity ].

Lemma callbacks_trans (w w1 w2 : World Cmd Stats) :
  callbacks w w1 -> callbacks w1 w2 -> callbacks w w2.
Proof.
  induction 1 as [|a b c Hab Hbc IH]; [auto|].
  intros H. eapply callbacks_cons; [exact Hab | exact (IH H)].
Qed.

Lemma callbacks_one (w w' : World Cmd Stats) : callback w w' -> callbacks w w'.
Proof. intros H. eapply callbacks_cons; [exact H | apply callbacks_nil]. Qed.

Lemma routeLines_callbacks (ls : list string) (w : World Cmd Stats) :
  callbacks w (routeLines ls w).
Proof.
  revert w; induction ls as [|l ls IH]; intros w; [apply callbacks_nil|].
  change (routeLines (l :: ls) w) with (routeLines ls (routeLine l w)).
  eapply callbacks_cons; [apply routeLine_callback | apply IH].
Qed.

Lemma onData_callbacks (d : Buffer) (w : World Cmd Stats) :
  callbacks w (fst (onData d w)).
Proof.
  destruct (xmodemMode (this w)) eqn:Hx.
  - unfold onData. rewrite Hx. apply callbacks_nil.
  - destruct (onData_spec d w Hx) as (_ & _ & _ & Hw). rewrite Hw.
    apply (callbacks_trans _ (routeLines (snd (onData d w)) w));
      [apply routeLines_callbacks|].
    apply callbacks_one. quiet_callback.
Qed.

Lemma earliest_In (ts : list Timer) (t : Timer) :
  earliest ts = Some t -> In t ts.
Proof.
  revert t; induction ts as [|x ts IH]; intros t; cbn; [discriminate|].
  destruct (earliest ts) as [t'|].
  - destruct (due t' <? due x); intros [= <-]; auto.
  - intros [= <-]; auto.
Qed.

Lemma earliest_min (ts : list Timer) (t x : Timer) :
  earliest ts = Some t -> In x ts -> due t <= due x.
Proof.
  revert t; induction ts as [|y ts IH]; intros t; cbn; [discriminate|].
  destruct (earliest ts) as [t'|] eqn:E.
  - destruct (due t' <? due y) eqn:Hlt; intros [= <-] [-> | Hin].
    + apply Z.ltb_lt in Hlt. lia.
    + apply (IH t' eq_refl Hin).
    + lia.
    + apply Z.ltb_ge in Hlt. specialize (IH t' eq_refl Hin). lia.
  - intros [= <-] [-> | Hin]; [lia|].
    destruct ts; [destruct Hin | cbn in E].
    destruct (earliest ts); [destruct (_ <? _)|]; discriminate.
Qed.

Lemma advance_loop_callbacks (fuel : nat) (limit : Z) :
  forall w : World Cmd Stats, callbacks w (advance_loop fuel limit w).
Proof.
  induction fuel as [|fuel IH]; intros w; cbn [advance_loop];
    [apply callbacks_nil|].
  destruct (earliest (timers (js w))) as [t|] eqn:E; [|apply callbacks_nil].
  destruct (due t <=? limit); [|apply callbacks_nil].
  set (w1 := with_now (Z.max (now (js w)) (due t)) w).
  apply (callbacks_cons w w1); [unfold w1; quiet_callback|].
  apply (callbacks_cons w1 (fireTimer t w1)); [|apply IH].
  apply fireTimer_callback. cbn. apply earliest_In. exact E.
Qed.

Lemma advance_callbacks (limit : Z) (w : World Cmd Stats) :
  callbacks w (advance limit w).
Proof.
  unfold advance. eapply callbacks_trans; [apply advance_loop_callbacks|].
  apply callbacks_one. quiet_callback.
Qed.

Lemma settled_after_In (p q : PromiseId) (o o' : Settlement)
    (log : list (PromiseId * Settlement)) :
  In (q, o) (settled_after p o' log) -> In (q, o) log \/ q = p.
Proof.
  unfold settled_after. destruct (settlement p log); [auto|].
  rewrite in_app_iff. cbn. intros [H | [[= -> ->] | []]]; auto.
Qed.

Lemma settlement_settled_after (p q : PromiseId) (o : Settlement)
    (log : list (PromiseId * Settlement)) :
  settlement q (settled_after p o log)
  = match settlement q log with
    | Some x => Some x
    | None => if Nat.eqb p q then Some o else None
    end.
Proof.
  unfold settled_after. destruct (settlement p log) as [x|] eqn:E.
  - destruct (settlement q log) eqn:E'; [reflexivity|].
    destruct (Nat.eqb p q) eqn:Hpq; [|reflexivity].
    apply Nat.eqb_eq in Hpq. congruence.
  - rewrite settlement_app. cbn. destruct (settlement q log); reflexivity.
Qed.

Lemma NoDup_map_filter {A B : Type} (f : A -> B) (g : A -> bool) (l : list A) :
  NoDup (map f l) -> NoDup (map f (filter g l)).
Proof.
  induction l as [|a l IH]; cbn; [auto|]. intros H.
  inversion H as [|? ? Hnotin Hnd]; subst.
  destruct (g a); cbn; [constructor|]; auto.
  intros Hin. apply Hnotin. apply in_map_iff in Hin.
  destruct Hin as (x & Hx & Hin). apply filter_In in Hin.
  apply in_map_iff. exists x. tauto.
Qed.

Lemma callback_timers_subset (w w' : World Cmd Stats) (t : Timer) :
  callback w w' -> In t (timers (js w')) -> In t (timers (js w)).
Proof.
  intros [H1 H2 H3 | r k H1 H2 H3 H4 | x H1 H2 H3 H4]; rewrite ?H2, ?H3.
  - auto.
  - destruct (od_timer k); [rewrite filter_In; tauto | auto].
  - rewrite filter_In; tauto.
Qed.

(** Callbacks preserve well-formedness. *)
Lemma callback_wf (w w' : World Cmd Stats) : wf w -> callback w w' -> wf w'.
Proof.
  intros (Ha & Hb & Hnd & Hcp & Hct) Hcb.
  assert (Hsub : forall t, In t (timers (js w')) -> In t (timers (js w)))
    by (intros t; now apply callback_timers_subset).
  assert (Hsame : same_handles w w') by (destruct Hcb; assumption).
  destruct Hsame as (HnT & HnP & Hclo).
  unfold wf. rewrite HnT, HnP. repeat split.
  - intros p o Hin. unfold promises_allocated in Ha.
    destruct Hcb as [H1 H2 H3 | r k H1 H2 H3 H4 | x H1 H2 H3 H4].
    + rewrite H3 in Hin. rewrite HnP. eauto.
    + rewrite H4 in Hin. apply settled_after_In in Hin. rewrite HnP.
      destruct Hin as [Hin | ->]; [eauto | eapply Hcp; eauto].
    + rewrite H4 in Hin. apply settled_after_In in Hin. rewrite HnP.
      destruct Hin as [Hin | ->]; [eauto | now apply Hb].
  - now apply Hb, Hsub.
  - now apply Hb, Hsub.
  - destruct Hcb as [H1 H2 H3 | r k H1 H2 H3 H4 | x H1 H2 H3 H4]; rewrite ?H2, ?H3.
    + exact Hnd.
    + destruct (od_timer k); [now apply NoDup_map_filter | exact Hnd].
    + now apply NoDup_map_filter.
  - intros r k Hk. rewrite Hclo in Hk. eapply Hcp; eauto.
  - rewrite Hclo in H. eapply Hct; eauto.
  - intros t Hin Hid. rewrite Hclo in H. apply Hsub in Hin.
    destruct (Hct r k tid H H0) as [_ Hp]. now apply Hp.
Qed.

Lemma callbacks_wf (w w' : World Cmd Stats) : callbacks w w' -> wf w -> wf w'.
Proof.
  induction 1 as [|a b c Hab Hbc IH]; [auto|].
  intros Hwf. apply IH. eapply callback_wf; eauto.
Qed.

(** [send] preserves well-formedness. *)
Lemma send_wf (c : Ref) (timeoutMs : Z) (w : World Cmd Stats) :
  wf w -> wf (fst (send c timeoutMs w)).
Proof.
  intros (Ha & Hb & Hnd & Hcp & Hct).
  pose proof (send_effect c timeoutMs w) as H. cbn zeta in H.
  destruct H as (_ & _ & _ & Hd & Ht & HnT & HnP & Hset & _).
  set (w' := fst (send c timeoutMs w)) in *.
  assert (HnT' : (nextTimer (js w) <= nextTimer (js w'))%nat)
    by (rewrite HnT; destruct (0 <? timeoutMs); lia).
  assert (Htimers : forall t, In t (timers (js w')) ->
             In t (timers (js w)) \/
             ((0 <? timeoutMs) = true /\
              t = mkTimer (nextTimer (js w)) (now (js w) + timeoutMs) c
                    (nextPromise (js w)))).
  { intros t. rewrite Ht. destruct (0 <? timeoutMs); [|auto].
    rewrite in_app_iff. cbn. intuition. }
  unfold wf. repeat split.
  - intros p o Hin. rewrite Hset in Hin. apply Ha in Hin. rewrite HnP. lia.
  - destruct (Htimers t H) as [Hin | [E ->]].
    + apply Hb in Hin. lia.
    + cbn. rewrite HnT, E. lia.
  - destruct (Htimers t H) as [Hin | [E ->]].
    + apply Hb in Hin. rewrite HnP. lia.
    + cbn. rewrite HnP. lia.
  - rewrite Ht. destruct (0 <? timeoutMs); [|exact Hnd].
    rewrite map_app. cbn. apply NoDup_app; [exact Hnd | repeat constructor; auto |].
    intros x Hx [<- | []]. apply in_map_iff in Hx.
    destruct Hx as (t & Hid & Hin). apply Hb in Hin. lia.
  - intros r k. rewrite Hd. destruct (Nat.eqb r c).
    + cbn. intros [= <-]. cbn. rewrite HnP. lia.
    + intros Hk. apply Hcp in Hk. rewrite HnP. lia.
  - revert H H0. rewrite Hd. destruct (Nat.eqb r c).
    + cbn. intros [= <-]. cbn. destruct (0 <? timeoutMs) eqn:E; [|discriminate].
      intros [= <-]. rewrite HnT. lia.
    + intros Hk Htid. destruct (Hct r k tid Hk Htid). lia.
  - revert H H0. rewrite Hd. destruct (Nat.eqb r c).
    + cbn. intros [= <-]. cbn. destruct (0 <? timeoutMs) eqn:E; [|discriminate].
      intros [= <-] t Hin Hid. destruct (Htimers t Hin) as [Hin' | [_ ->]].
      * apply Hb in Hin'. lia.
      * reflexivity.
    + intros Hk Htid t Hin Hid. destruct (Hct r k tid Hk Htid) as [Hlt Hp].
      destruct (Htimers t Hin) as [Hin' | [_ ->]]; [now apply Hp|].
      cbn in Hid. lia.
Qed.

Lemma act_callbacks_or_send (a : Activity) (w : World Cmd Stats) :
  callbacks w (act a w) \/ exists c timeoutMs, act a w = fst (send c timeoutMs w).
Proof.
  destruct a as [d | c timeoutMs | limit]; cbn [act].
  - left. apply onData_callbacks.
  - right. eauto.
  - left. apply advance_callbacks.
Qed.

Lemma act_wf (a : Activity) (w : World Cmd Stats) : wf w -> wf (act a w).
Proof.
  intros Hwf. destruct (act_callbacks_or_send a w) as [H | (c & t & ->)].
  - eapply callbacks_wf; eauto.
  - now apply send_wf.
Qed.

Lemma run_wf (acts : list Activity) (w : World Cmd Stats) :
  wf w -> wf (run acts w).
Proof.
  revert w; induction acts as [|a acts IH]; intros w Hwf; [exact Hwf|].
  apply (IH (act a w)). now apply act_wf.
Qed.

Lemma NoDup_map_eq {A B : Type} (f : A -> B) (l : list A) (a b : A) :
  NoDup (map f l) -> In a l -> In b l -> f a = f b -> a = b.
Proof.
  induction l as [|x l IH]; cbn; [tauto|]. intros Hnd Ha Hb E.
  inversion Hnd as [|? ? Hnotin Hnd']; subst.
  destruct Ha as [-> | Ha], Hb as [-> | Hb]; auto.
  - exfalso. apply Hnotin. rewrite E. now apply in_map.
  - exfalso. apply Hnotin. rewrite <- E. now apply in_map.
Qed.

(** A timer stays pending until it fires or the promise it would reject has
    been settled. *)
Lemma callback_keeps_timer (t0 : Timer) (w w' : World Cmd Stats) :
  wf w -> callback w w' ->
  In t0 (timers (js w)) \/ settlement (timer_promise t0) (settled (js w)) <> None ->
  In t0 (timers (js w')) \/ settlement (timer_promise t0) (settled (js w')) <> None.
Proof.
  intros (_ & _ & Hnd & _ & Hct) Hcb Hinv.
  destruct Hcb as [H1 H2 H3 | r k H1 H2 H3 H4 | x H1 H2 H3 H4].
  - rewrite H2, H3. exact Hinv.
  - rewrite H3, H4, settlement_settled_after.
    destruct Hinv as [Hin | Hset];
      [|right; destruct (settlement _ _); [discriminate | tauto]].
    destruct (od_timer k) as [tid|] eqn:Hk; [|auto].
    destruct (Nat.eqb (timer_id t0) tid) eqn:E.
    + right. apply Nat.eqb_eq in E.
      destruct (Hct r k tid H2 Hk) as [_ Hp]. rewrite (Hp t0 Hin E).
      rewrite Nat.eqb_refl. destruct (settlement _ _); discriminate.
    + left. apply filter_In. unfold armed. rewrite E. auto.
  - rewrite H3, H4, settlement_settled_after.
    destruct Hinv as [Hin | Hset];
      [|right; destruct (settlement _ _); [discriminate | tauto]].
    destruct (Nat.eqb (timer_id t0) (timer_id x)) eqn:E.
    + right. apply Nat.eqb_eq in E.
      rewrite (NoDup_map_eq timer_id _ t0 x Hnd Hin H2 E).
      rewrite Nat.eqb_refl. destruct (settlement _ _); discriminate.
    + left. apply filter_In. unfold armed. rewrite E. auto.
Qed.

Lemma callbacks_keep_timer (t0 : Timer) (w w' : World Cmd Stats) :
  callbacks w w' -> wf w ->
  In t0 (timers (js w)) \/ settlement (timer_promise t0) (settled (js w)) <> None ->
  In t0 (timers (js w')) \/ settlement (timer_promise t0) (settled (js w')) <> None.
Proof.
  induction 1 as [|a b c Hab Hbc IH]; [auto|]. intros Hwf Hinv.
  apply IH; [eapply callback_wf | eapply callback_keeps_timer]; eauto.
Qed.

Lemma run_keeps_timer (t0 : Timer) (acts : list Activity) :
  forall w : World Cmd Stats,
    wf w ->
    In t0 (timers (js w)) \/ settlement (timer_promise t0) (settled (js w)) <> None ->
    In t0 (timers (js (run acts w))) \/
    settlement (timer_promise t0) (settled (js (run acts w))) <> None.
Proof.
  induction acts as [|a acts IH]; intros w Hwf Hinv; [exact Hinv|].
  apply (IH (act a w)); [now apply act_wf|].
  destruct (act_callbacks_or_send a w) as [H | (c & t & ->)].
  - eapply callbacks_keep_timer; eauto.
  - pose proof (send_effect c t w) as H. cbn zeta in H.
    destruct H as (_ & _ & _ & _ & Ht & _ & _ & Hset & _).
    rewrite Ht, Hset. destruct Hinv as [Hin | Hs]; [left | now right].
    destruct (0 <? t); [apply in_app_iff|]; auto.
Qed.

Lemma callback_settlement_kept (p : PromiseId) (o : Settlement)
    (w w' : World Cmd Stats) :
  callback w w' ->
  settlement p (settled (js w)) = Some o ->
  settlement p (settled (js w')) = Some o.
Proof.
  intros [H1 H2 H3 | r k H1 H2 H3 H4 | x H1 H2 H3 H4] Hs;
    rewrite ?H3, ?H4, ?settlement_settled_after, ?Hs; reflexivity.
Qed.

Lemma callbacks_settlement_kept (p : PromiseId) (o : Settlement)
    (w w' : World Cmd Stats) :
  callbacks w w' ->
  settlement p (settled (js w)) = Some o ->
  settlement p (settled (js w')) = Some o.
Proof.
  induction 1 as [|a b c Hab Hbc IH]; [auto|]. intros Hs.
  apply IH. eapply callback_settlement_kept; eauto.
Qed.

Lemma fireTimer_commands (t : Timer) (w : World Cmd Stats) :
  commands (this (fireTimer t w))
  = filter (fun x => negb (Nat.eqb x (timer_command t))) (commands (this w)).
Proof.
  unfold fireTimer. destruct (settle_frame (timer_promise t)
    (Rejected "Command timed out")
    (_removeCommand (timer_command t) (clearTimeout (timer_id t) w))) as [H _].
  rewrite H. reflexivity.
Qed.

Lemma advance_loop_commands (fuel : nat) (limit : Z) (c : Ref) :
  forall w : World Cmd Stats,
    In c (commands (this (advance_loop fuel limit w))) ->
    In c (commands (this w)).
Proof.
  induction fuel as [|fuel IH]; intros w; cbn [advance_loop]; [auto|].
  destruct (earliest (timers (js w))) as [t|]; [|auto].
  destruct (due t <=? limit); [|auto].
  intros H. apply IH in H. rewrite fireTimer_commands in H.
  apply filter_In in H. tauto.
Qed.

Lemma filter_length_lt {A : Type} (g : A -> bool) (l : list A) (x : A) :
  In x l -> g x = false -> (List.length (filter g l) < List.length l)%nat.
Proof.
  induction l as [|a l IH]; cbn; [tauto|]. intros [-> | Hin] Hg.
  - rewrite Hg. pose proof (filter_length_le g l). lia.
  - specialize (IH Hin Hg). destruct (g a); cbn; lia.
Qed.

Lemma earliest_None (ts : list Timer) : earliest ts = None -> ts = [].
Proof.
  destruct ts as [|t ts]; [reflexivity|]. cbn.
  destruct (earliest ts); [destruct (_ <? _)|]; discriminate.
Qed.

(** When time reaches the deadline of a pending timer, the timer fires (or
    has fired): its command is off the queue and its promise is rejected. *)
Lemma advance_loop_fires (t0 : Timer) (limit : Z) (fuel : nat) :
  forall w : World Cmd Stats,
    wf w ->
    (List.length (timers (js w)) <= fuel)%nat ->
    In t0 (timers (js w)) ->
    due t0 <= limit ->
    settlement (timer_promise t0) (settled (js w)) = None \/
    settlement (timer_promise t0) (settled (js w))
      = Some (Rejected "Command timed out") ->
    ~ In (timer_command t0) (commands (this (advance_loop fuel limit w))) /\
    settlement (timer_promise t0) (settled (js (advance_loop fuel limit w)))
      = Some (Rejected "Command timed out").
Proof.
  induction fuel as [|fuel IH]; intros w Hwf Hlen Hin Hdue Hset.
  - destruct (timers (js w)); [destruct Hin | cbn in Hlen; lia].
  - cbn [advance_loop].
    destruct (earliest (timers (js w))) as [t|] eqn:E;
      [|apply earliest_None in E; rewrite E in Hin; destruct Hin].
    pose proof (earliest_min _ _ _ E Hin) as Hmin.
    pose proof (earliest_In _ _ E) as Ht.
    replace (due t <=? limit) with true by (symmetry; apply Z.leb_le; lia).
    set (w0 := with_now (Z.max (now (js w)) (due t)) w).
    assert (Hcb : callback w (fireTimer t w0)).
    { pose proof (fireTimer_callback t w0 Ht) as H.
      destruct H as [H1 H2 H3 | r k H1 H2 H3 H4 | x H1 H2 H3 H4].
      - apply callback_quiet; assumption.
      - apply (callback_done _ _ r k); assumption.
      - apply (callback_timeout _ _ x); assumption. }
    assert (Hwf1 : wf (fireTimer t w0)) by (eapply callback_wf; eauto).
    assert (Htimers : timers (js (fireTimer t w0))
                      = filter (fun x => negb (armed (timer_id t) x)) (timers (js w))).
    { unfold fireTimer. destruct (settle_frame (timer_promise t)
        (Rejected "Command timed out")
        (_removeCommand (timer_command t) (clearTimeout (timer_id t) w0)))
        as (_ & _ & H & _). rewrite H. reflexivity. }
    assert (Hsettled : settled (js (fireTimer t w0))
                       = settled_after (timer_promise t)
                           (Rejected "Command timed out") (settled (js w))).
    { unfold fireTimer. rewrite settled_settle. reflexivity. }
    destruct (Nat.eqb (timer_id t0) (timer_id t)) eqn:Eid.
    + apply Nat.eqb_eq in Eid. destruct Hwf as (_ & _ & Hnd & _).
      assert (t0 = t) by (eapply NoDup_map_eq; eauto). subst t0. split.
      * intros Hc. apply advance_loop_commands in Hc.
        rewrite fireTimer_commands in Hc. apply filter_In in Hc.
        destruct Hc as [_ Hc]. rewrite Nat.eqb_refl in Hc. discriminate.
      * eapply callbacks_settlement_kept; [apply advance_loop_callbacks|].
        rewrite Hsettled, settlement_settled_after, Nat.eqb_refl.
        destruct Hset as [-> | ->]; reflexivity.
    + apply IH; try assumption.
      * rewrite Htimers.
        assert (List.length (filter (fun x => negb (armed (timer_id t) x))
                               (timers (js w))) < List.length (timers (js w)))%nat.
        { apply (filter_length_lt _ _ t Ht). unfold armed.
          now rewrite Nat.eqb_refl. }
        lia.
      * rewrite Htimers. apply filter_In. unfold armed.
        rewrite Eid. auto.
      * rewrite Hsettled, settlement_settled_after.
        destruct Hset as [-> | ->]; [|auto].
        destruct (Nat.eqb (timer_promise t) (timer_promise t0)); auto.
Qed.

Lemma callback_never_rejected (p : PromiseId) (w w' : World Cmd Stats) :
  callback w w' -> never_rejected p w -> never_rejected p w'.
Proof.
  intros Hcb (Hlt & Ht & Hs).
  assert (Hsub : forall t, In t (timers (js w')) -> In t (timers (js w)))
    by (intros t; now apply callback_timers_subset).
  unfold never_rejected. split; [|split].
  - destruct Hcb as [(_ & -> & _) _ _ | ? ? (_ & -> & _) _ _ _ | ? (_ & -> & _) _ _ _];
      exact Hlt.
  - intros t Hin. apply Ht, Hsub, Hin.
  - intros reason.
    destruct Hcb as [H1 H2 H3 | r k H1 H2 H3 H4 | x H1 H2 H3 H4];
      rewrite ?H3, ?H4, ?settlement_settled_after.
    + apply Hs.
    + destruct (settlement p (settled (js w))) eqn:E; [apply Hs|].
      destruct (Nat.eqb _ _); discriminate.
    + destruct (settlement p (settled (js w))) eqn:E; [apply Hs|].
      specialize (Ht x H2). apply Nat.eqb_neq in Ht. rewrite Ht. discriminate.
Qed.

Lemma callbacks_never_rejected (p : PromiseId) (w w' : World Cmd Stats) :
  callbacks w w' -> never_rejected p w -> never_rejected p w'.
Proof.
  induction 1 as [|a b c Hab Hbc IH]; [auto|]. intros H.
  apply IH. eapply callback_never_rejected; eauto.
Qed.

Lemma run_never_rejected (p : PromiseId) (acts : list Activity) :
  forall w : World Cmd Stats, never_rejected p w -> never_rejected p (run acts w).
Proof.
  induction acts as [|a acts IH]; intros w Hinv; [exact Hinv|].
  apply (IH (act a w)).
  destruct (act_callbacks_or_send a w) as [H | (c & t & ->)].
  - eapply callbacks_never_rejected; eauto.
  - pose proof (send_effect c t w) as H. cbn zeta in H.
    destruct H as (_ & _ & _ & _ & Ht & _ & HnP & Hset & _).
    destruct Hinv as (Hlt & Htm & Hs). unfold never_rejected.
    rewrite Ht, HnP, Hset. split; [lia|]. split; [|exact Hs].
    intros x Hin. destruct (0 <? t); [|now apply Htm].
    apply in_app_iff in Hin. destruct Hin as [Hin | [<- | []]];
      [now apply Htm | cbn; lia].
Qed.

(** A line settles a pending promise only by way of the closure of the
    head command, called by [appendLine]. *)
Lemma routeLine_settles (line : string) (w : World Cmd Stats)
    (p : PromiseId) (o : Settlement) :
  settlement p (settled (js w)) = None ->
  settlement p (settled (js (routeLine line w))) = Some o ->
  exists c0 q k,
    commands (this w) = c0 :: q /\
    onDone (deref w c0) = Some k /\
    od_promise k = p /\
    o = Resolved (od_command k) /\
    snd (appendLine line (fields (deref w c0))) = true.
Proof.
  intros Hnone. unfold routeLine.
  destruct (commands (this w)) as [|c0 q]; [congruence|].
  assert (Hjs : forall (b : bool) (cs : list Ref) (w1 : World Cmd Stats),
             js (if b then with_commands cs w1 else w1) = js w1)
    by (intros [] ? ?; reflexivity).
  rewrite Hjs. unfold Command_appendLine.
  destruct (appendLine line (fields (deref w c0))) as [f called] eqn:Ea.
  destruct called; [|cbn; congruence].
  unfold call_onDone.
  assert (Hod : onDone (deref (store c0 (mkObject f (onDone (deref w c0))) w) c0)
                = onDone (deref w c0))
    by (unfold store, deref; cbn; now rewrite Nat.eqb_refl).
  rewrite Hod. destruct (onDone (deref w c0)) as [k|] eqn:Hk; [|cbn; congruence].
  rewrite settled_settle.
  assert (Hset : forall w1 : World Cmd Stats,
             settled (js w1) = settled (js w) ->
             match settlement (od_promise k) (settled (js w1)) with
             | Some _ => settled (js w1)
             | None => (settled (js w1) ++ [(od_promise k, Resolved (od_command k))])%list
             end
             = settled_after (od_promise k) (Resolved (od_command k)) (settled (js w)))
    by (intros w1 ->; reflexivity).
  rewrite Hset by (destruct (od_timer k); reflexivity).
  rewrite settlement_settled_after, Hnone.
  destruct (Nat.eqb (od_promise k) p) eqn:E; [|discriminate].
  apply Nat.eqb_eq in E. intros [= <-]. exists c0, q, k.
  repeat split; auto. now rewrite Ea.

Qed.

Lemma callback_owns (p : PromiseId) (c : Ref) (w w' : World Cmd Stats) :
  callback w w' -> owns p c w -> owns p c w'.
Proof.
  intros Hcb [Hlt Hown].
  assert (Hsame : same_handles w w') by (destruct Hcb; assumption).
  destruct Hsame as (_ & HnP & Hclo). unfold owns. rewrite HnP.
  split; [exact Hlt|]. intros r k. rewrite Hclo. apply Hown.
Qed.

Lemma callbacks_owns (p : PromiseId) (c : Ref) (w w' : World Cmd Stats) :
  callbacks w w' -> owns p c w -> owns p c w'.
Proof.
  induction 1 as [|a b d Hab Hbc IH]; [auto|]. intros H.
  apply IH. eapply callback_owns; eauto.
Qed.

Lemma run_owns (p : PromiseId) (c : Ref) (acts : list Activity) :
  forall w : World Cmd Stats, owns p c w -> owns p c (run acts w).
Proof.
  induction acts as [|a acts IH]; intros w Hinv; [exact Hinv|].
  apply (IH (act a w)).
  destruct (act_callbacks_or_send a w) as [H | (c' & t & ->)].
  - eapply callbacks_owns; eauto.
  - pose proof (send_effect c' t w) as H. cbn zeta in H.
    destruct H as (_ & _ & _ & Hd & _ & _ & HnP & _).
    destruct Hinv as [Hlt Hown]. unfold owns. rewrite HnP. split; [lia|].
    intros r k. rewrite Hd. destruct (Nat.eqb r c') eqn:E; [|apply Hown].
    cbn. intros [= <-]. cbn. lia.
Qed.

(** C3: a command sent with a positive timeout arms a timer for the
    deadline; whatever happens next, as long as its promise is pending the
    timer stays armed, and once time reaches the deadline the command is off
    the queue and the promise is rejected with the timeout error.  A command
    sent with timeout 0 arms no timer, and nothing that happens afterwards
    rejects its promise.  In both cases a line ends the wait only when it is
    routed to the command itself, at the head of the queue, and the command
    is in its [DONE] state. *)
Theorem send_timeout
    (c : Ref) (timeoutMs : Z) (acts : list Activity) (limit : Z)
    (w : World Cmd Stats) :
  wf w ->
  let w1 := fst (send c timeoutMs w) in
  let p := snd (send c timeoutMs w) in
  let deadline := now (js w) + timeoutMs in
  let timer := mkTimer (nextTimer (js w)) deadline c p in
  (0 < timeoutMs ->
   In c (commands (this w1)) /\
   In timer (timers (js w1)) /\
   (settlement p (settled (js (run acts w1))) = None ->
    deadline <= limit ->
    In timer (timers (js (run acts w1))) /\
    ~ In c (commands (this (advance limit (run acts w1)))) /\
    settlement p (settled (js (advance limit (run acts w1))))
      = Some (Rejected "Command timed out"))) /\
  (timeoutMs <= 0 ->
   timers (js w1) = timers (js w) /\
   In c (commands (this w1)) /\
   forall reason,
     settlement p (settled (js (run acts w1))) <> Some (Rejected reason)) /\
  (forall line o,
      settlement p (settled (js (run acts w1))) = None ->
      settlement p (settled (js (routeLine line (run acts w1)))) = Some o ->
      o = Resolved c /\
      (exists q, commands (this (run acts w1)) = c :: q) /\
      (state (fields (deref (run acts w1) c)) = DONE \/
       state (fields (deref (routeLine line (run acts w1)) c)) = DONE)).
Proof.
  intros Hwf w1 p deadline timer.
  pose proof (send_effect c timeoutMs w) as H. cbn zeta in H.
  destruct H as (Hp & Hq & _ & Hd & Ht & _ & HnP & Hset & _).
  fold w1 p in Hp, Hq, Hd, Ht, HnP, Hset.
  assert (Hwf1 : wf w1) by (apply send_wf; exact Hwf).
  assert (Hc : In c (commands (this w1)))
    by (rewrite Hq; apply in_app_iff; right; now left).
  split; [|split].
  - intros Hpos. apply Z.ltb_lt in Hpos. rewrite Hpos in Ht.
    assert (Hin : In timer (timers (js w1))).
    { rewrite Ht. apply in_app_iff. right. left. unfold timer, deadline.
      now rewrite Hp. }
    split; [exact Hc|]. split; [exact Hin|]. intros Hpend Hlimit.
    pose proof (run_keeps_timer timer acts w1 Hwf1 (or_introl Hin)) as Hkeep.
    cbn [timer_promise timer] in Hkeep.
    destruct Hkeep as [Hin2 | Hs]; [|contradiction].
    split; [exact Hin2|].
    pose proof (run_wf acts w1 Hwf1) as Hwf2.
    destruct (advance_loop_fires timer limit
                (List.length (timers (js (run acts w1)))) (run acts w1)
                Hwf2 (le_n _) Hin2 Hlimit (or_introl Hpend)) as [Hgone Hrej].
    unfold advance. cbn. auto.
  - intros Hle. apply Z.ltb_ge in Hle. rewrite Hle in Ht.
    split; [exact Ht|]. split; [exact Hc|].
    apply run_never_rejected. destruct Hwf as (Ha & Hb & _).
    unfold never_rejected. rewrite Ht, HnP, Hset, Hp. split; [lia|]. split.
    + intros t Hin. apply Hb in Hin. lia.
    + intros reason. rewrite settlement_fresh; [discriminate | exact Ha | lia].
  - intros line o Hpend Hsettled.
    assert (Hown1 : owns p c w1).
    { destruct Hwf as (_ & _ & _ & Hcp & _). unfold owns.
      rewrite HnP, Hp. split; [lia|]. intros r k. rewrite Hd.
      destruct (Nat.eqb r c) eqn:E.
      - apply Nat.eqb_eq in E. cbn. intros [= <-]. cbn. auto.
      - intros Hk Hpk. apply Hcp in Hk. lia. }
    destruct (run_owns p c acts w1 Hown1) as [_ Hown].
    destruct (routeLine_settles line _ p o Hpend Hsettled)
      as (c0 & q & k & Hq0 & Hk & Hpk & -> & Hcalled).
    destruct (Hown c0 k Hk Hpk) as [-> ->].
    split; [reflexivity|]. split; [eauto|].
    destruct (routeLine_head line _ c q Hq0) as (Hf & _).
    destruct (CommandState_eqb (state (fields (deref (run acts w1) c))) DONE) eqn:E.
    + left. now apply CommandState_eqb_DONE.
    + right. rewrite Hf. apply notifies; [|exact Hcalled].
      intros Hdone. apply CommandState_eqb_DONE in Hdone. congruence.
Qed.

(** ** What the event loop leaves alone *)

Lemma quiet_refl (w : World Cmd Stats) : quiet w w.
Proof. unfold quiet; tauto. Qed.

Lemma quiet_trans (w w1 w2 : World Cmd Stats) :
  quiet w w1 -> quiet w1 w2 -> quiet w w2.
Proof. unfold quiet. intuition congruence. Qed.

Lemma routeLine_quiet (line : string) (w : World Cmd Stats) :
  quiet w (routeLine line w).
Proof.
  pose proof (routeLine_same_but_queue line w) as H.
  unfold same_but_queue in H. unfold quiet.
  assert (Hjs : serialPort (js (routeLine line w)) = serialPort (js w) /\
                nextRef (js (routeLine line w)) = nextRef (js w)).
  { unfold routeLine. destruct (commands (this w)) as [|c0 q]; [tauto|].
    destruct (Command_appendLine_frame c0 line w) as (_ & _ & _ & _ & _ & Hp & Hr).
    destruct (CommandState_eqb _ _); cbn; tauto. }
  tauto.
Qed.

Lemma routeLines_quiet (ls : list string) (w : World Cmd Stats) :
  quiet w (routeLines ls w).
Proof.
  revert w; induction ls as [|l ls IH]; intros w; [apply quiet_refl|].
  change (routeLines (l :: ls) w) with (routeLines ls (routeLine l w)).
  eapply quiet_trans; [apply routeLine_quiet | apply IH].
Qed.

Lemma onData_quiet (d : Buffer) (w : World Cmd Stats) :
  quiet w (fst (onData d w)).
Proof.
  destruct (xmodemMode (this w)) eqn:Hx.
  - unfold onData. rewrite Hx. apply quiet_refl.
  - destruct (onData_spec d w Hx) as (_ & _ & _ & Hw). rewrite Hw.
    apply (quiet_trans _ (routeLines (snd (onData d w)) w));
      [apply routeLines_quiet | unfold quiet; cbn; tauto].
Qed.

Lemma fireTimer_quiet (t : Timer) (w : World Cmd Stats) :
  quiet w (fireTimer t w).
Proof.
  unfold fireTimer, quiet, settle, _removeCommand, clearTimeout.
  destruct (settlement _ _); cbn; tauto.
Qed.

Lemma advance_loop_quiet (fuel : nat) (limit : Z) :
  forall w : World Cmd Stats, quiet w (advance_loop fuel limit w).
Proof.
  induction fuel as [|fuel IH]; intros w; cbn [advance_loop];
    [apply quiet_refl|].
  destruct (earliest (timers (js w))) as [t|]; [|apply quiet_refl].
  destruct (due t <=? limit); [|apply quiet_refl].
  set (w1 := with_now (Z.max (now (js w)) (due t)) w).
  apply (quiet_trans _ w1); [unfold quiet, w1; cbn; tauto|].
  apply (quiet_trans _ (fireTimer t w1)); [apply fireTimer_quiet | apply IH].
Qed.

Lemma advance_quiet (limit : Z) (w : World Cmd Stats) :
  quiet w (advance limit w).
Proof.
  unfold advance.
  eapply quiet_trans; [apply advance_loop_quiet | unfold quiet; cbn; tauto].
Qed.

Lemma deliver_quiet (d : Buffer) (w : World Cmd Stats) : quiet w (deliver d w).
Proof.
  unfold deliver. destruct (existsb _ _); [apply onData_quiet | apply quiet_refl].
Qed.

Lemma awaitReply_quiet (s : Script) :
  forall (w : World Cmd Stats) r s' w',
    awaitReply s w = Some (r, s', w') -> quiet w w'.
Proof.
  induction s as [|[t d | t r0] s IH]; intros w r s' w'; cbn [awaitReply].
  - discriminate.
  - intros H. apply IH in H.
    eapply quiet_trans; [|exact H].
    eapply quiet_trans; [apply advance_quiet | apply deliver_quiet].
  - intros [= <- <- <-]. apply advance_quiet.
Qed.

Lemma sleep_until_quiet (wake : Z) (s : Script) :
  forall w : World Cmd Stats, quiet w (snd (sleep_until wake s w)).
Proof.
  induction s as [|[t d | t r0] s IH]; intros w; cbn [sleep_until].
  - apply advance_quiet.
  - destruct (t <=? wake); [|apply advance_quiet].
    eapply quiet_trans; [|apply IH].
    eapply quiet_trans; [apply advance_quiet | apply deliver_quiet].
  - apply advance_quiet.
Qed.

(** A timer fires at the time at which it is due. *)
Lemma fireNext_quiet (t : Timer) (w : World Cmd Stats) :
  quiet w (fireTimer t (with_now (Z.max (now (js w)) (due t)) w)).
Proof.
  set (w1 := with_now (Z.max (now (js w)) (due t)) w).
  apply (quiet_trans _ w1); [unfold quiet, w1; cbn; tauto | apply fireTimer_quiet].
Qed.

Lemma advance_until_quiet (fuel : nat) (p : PromiseId) (limit : Z) :
  forall w : World Cmd Stats, quiet w (advance_until fuel p limit w).
Proof.
  induction fuel as [|fuel IH]; intros w; cbn [advance_until];
    destruct (settlement p (settled (js w))); try apply quiet_refl.
  destruct (earliest (timers (js w))) as [t|]; [|apply quiet_refl].
  destruct (due t <=? limit); [|apply quiet_refl].
  eapply quiet_trans; [apply fireNext_quiet | apply IH].
Qed.

Lemma with_now_quiet (t : Z) (w : World Cmd Stats) : quiet w (with_now t w).
Proof. unfold quiet; cbn; tauto. Qed.

Lemma drainTimers_quiet (fuel : nat) (p : PromiseId) :
  forall (w w' : World Cmd Stats), drainTimers fuel p w = Some w' -> quiet w w'.
Proof.
  induction fuel as [|fuel IH]; intros w w'; cbn [drainTimers];
    destruct (settlement p (settled (js w))).
  - intros [= <-]. apply quiet_refl.
  - discriminate.
  - intros [= <-]. apply quiet_refl.
  - destruct (earliest (timers (js w))) as [t|]; [|discriminate].
    intros H. apply IH in H. eapply quiet_trans; [apply fireNext_quiet | exact H].
Qed.

Lemma awaitSettlement_quiet (p : PromiseId) (s : Script) :
  forall (w : World Cmd Stats) o s' w',
    awaitSettlement p s w = Some (o, s', w') ->
    quiet w w' /\ settlement p (settled (js w')) = Some o.
Proof.
  induction s as [|[t d | t r0] s IH]; intros w o s' w'; cbn [awaitSettlement];
    destruct (settlement p (settled (js w))) as [o0|] eqn:E.
  - intros [= <- <- <-]. split; [apply quiet_refl | exact E].
  - destruct (drainTimers _ p w) as [w1|] eqn:Hd; [|discriminate].
    destruct (settlement p (settled (js w1))) as [o1|] eqn:E1; [|discriminate].
    intros [= <- <- <-]. split; [eapply drainTimers_quiet; eauto | exact E1].
  - intros [= <- <- <-]. split; [apply quiet_refl | exact E].
  - cbn zeta.
    pose proof (advance_until_quiet (List.length (timers (js w))) p t w) as Hq.
    destruct (settlement p (settled (js (advance_until _ p t w)))) as [o1|] eqn:E1.
    + intros [= <- <- <-]. split; [exact Hq | exact E1].
    + intros H. apply IH in H. destruct H as [H1 H2]. split; [|exact H2].
      eapply quiet_trans; [exact Hq|]. eapply quiet_trans; [|exact H1].
      eapply quiet_trans; [apply with_now_quiet | apply deliver_quiet].
  - intros [= <- <- <-]. split; [apply quiet_refl | exact E].
  - cbn zeta.
    pose proof (advance_until_quiet (List.length (timers (js w))) p t w) as Hq.
    destruct (settlement p (settled (js (advance_until _ p t w)))) as [o1|] eqn:E1.
    + intros [= <- <- <-]. split; [exact Hq | exact E1].
    + intros H. apply IH in H. destruct H as [H1 H2]. split; [|exact H2].
      eapply quiet_trans; [exact Hq|]. eapply quiet_trans; [|exact H1].
      apply with_now_quiet.
Qed.

(** ** The session *)

(** [await this.send(command, timeoutMs)] leaves the status, the version, the
    statistics and the port's state alone; it hands one buffer to the port. *)
Lemma await_send_quiet (c : Ref) (timeoutMs : Z) (s : Script)
    (w : World Cmd Stats) o s' w' :
  await_send c timeoutMs s w = Some (o, s', w') ->
  status (this w') = status (this w) /\
  currentVersion (this w') = currentVersion (this w) /\
  stats (this w') = stats (this w) /\
  isOpen (serialPort (js w')) = isOpen (serialPort (js w)) /\
  readers (serialPort (js w')) = readers (serialPort (js w)) /\
  disconnectListeners (serialPort (js w')) = disconnectListeners (serialPort (js w)) /\
  written (serialPort (js w'))
    = (written (serialPort (js w))
       ++ [fromString (command (fields (deref w c)) ++ newline)])%list.
Proof.
  unfold await_send.
  pose proof (send_effect c timeoutMs w) as H. cbn zeta in H.
  destruct H as (_ & _ & Hsame & _ & _ & _ & _ & _ & _ & _ & Hopen & Hrd & Hwr).
  assert (Hdl : disconnectListeners (serialPort (js (fst (send c timeoutMs w))))
                = disconnectListeners (serialPort (js w)))
    by (unfold send; destruct (0 <? timeoutMs); reflexivity).
  destruct (send c timeoutMs w) as [w1 p]. cbn [fst snd] in *.
  destruct (awaitSettlement p s w1) as [[[o1 s1] w2]|] eqn:E; [|discriminate].
  apply awaitSettlement_quiet in E. destruct E as [Hq _].
  unfold quiet, same_but_queue in *.
  destruct Hq as (Q1 & Q2 & Q3 & _ & _ & Q6 & _).
  destruct o1; intros [= <- <- <-]; rewrite Q1, Q2, Q3, Q6;
    intuition congruence.
Qed.

Lemma advance_loop_timers_le (fuel : nat) (limit : Z) :
  forall w : World Cmd Stats,
    (List.length (timers (js (advance_loop fuel limit w)))
     <= List.length (timers (js w)))%nat.
Proof.
  induction fuel as [|fuel IH]; intros w; cbn [advance_loop]; [lia|].
  destruct (earliest (timers (js w))) as [t|]; [|lia].
  destruct (due t <=? limit); [|lia].
  etransitivity; [apply IH|].
  unfold fireTimer.
  match goal with
  | |- context [settle ?a ?b ?x] => destruct (settle_frame a b x) as (_ & _ & Ht & _)
  end.
  rewrite Ht. cbn. apply filter_length_le.
Qed.

(** Firing the next timer takes it off the list of pending timers. *)
Lemma fireNext_callbacks (t : Timer) (w : World Cmd Stats) :
  earliest (timers (js w)) = Some t ->
  callbacks w (fireTimer t (with_now (Z.max (now (js w)) (due t)) w)).
Proof.
  intros E. set (w1 := with_now (Z.max (now (js w)) (due t)) w).
  apply (callbacks_cons w w1); [quiet_callback|].
  apply callbacks_one. apply fireTimer_callback. cbn. apply earliest_In. exact E.
Qed.

Lemma fireNext_fewer (t : Timer) (w : World Cmd Stats) :
  earliest (timers (js w)) = Some t ->
  (List.length (timers (js (fireTimer t (with_now (Z.max (now (js w)) (due t)) w))))
   < List.length (timers (js w)))%nat.
Proof.
  intros E. pose proof (earliest_In _ _ E) as Hin.
  unfold fireTimer.
  match goal with
  | |- context [settle ?a ?b ?y] => destruct (settle_frame a b y) as (_ & _ & Ht & _)
  end.
  rewrite Ht. cbn.
  apply (filter_length_lt _ (timers (js w)) t Hin). unfold armed.
  now rewrite Nat.eqb_refl.
Qed.

Lemma advance_until_callbacks (fuel : nat) (p : PromiseId) (limit : Z) :
  forall w : World Cmd Stats, callbacks w (advance_until fuel p limit w).
Proof.
  induction fuel as [|fuel IH]; intros w; cbn [advance_until];
    destruct (settlement p (settled (js w))); try apply callbacks_nil.
  destruct (earliest (timers (js w))) as [t|] eqn:E; [|apply callbacks_nil].
  destruct (due t <=? limit); [|apply callbacks_nil].
  eapply callbacks_trans; [apply fireNext_callbacks; exact E | apply IH].
Qed.

(** With nothing left to arrive, a promise whose timer is armed is settled
    by the timers. *)
Lemma drainTimers_settles (t0 : Timer) (fuel : nat) :
  forall w : World Cmd Stats,
    wf w ->
    (List.length (timers (js w)) <= fuel)%nat ->
    In t0 (timers (js w)) \/ settlement (timer_promise t0) (settled (js w)) <> None ->
    exists w', drainTimers fuel (timer_promise t0) w = Some w' /\
               settlement (timer_promise t0) (settled (js w')) <> None.
Proof.
  induction fuel as [|fuel IH]; intros w Hwf Hlen Hinv; cbn [drainTimers];
    destruct (settlement (timer_promise t0) (settled (js w))) as [o|] eqn:Hs;
    try (exists w; split; [reflexivity | congruence]);
    (destruct Hinv as [Hin | Hne]; [|congruence]).
  - destruct (timers (js w)); [destruct Hin | cbn in Hlen; lia].
  - destruct (earliest (timers (js w))) as [t|] eqn:E;
      [|apply earliest_None in E; rewrite E in Hin; destruct Hin].
    pose proof (fireNext_fewer t w E) as Hlt.
    apply IH.
    + eapply callbacks_wf; [apply fireNext_callbacks; exact E | exact Hwf].
    + lia.
    + eapply callbacks_keep_timer;
        [apply fireNext_callbacks; exact E | exact Hwf | now left].
Qed.

Lemma deliver_callbacks (d : Buffer) (w : World Cmd Stats) :
  callbacks w (deliver d w).
Proof.
  unfold deliver. destruct (existsb _ _);
    [apply onData_callbacks | apply callbacks_nil].
Qed.

(** Awaiting a promise whose timer is armed always ends. *)
Lemma awaitSettlement_settles (t0 : Timer) (s : Script) :
  forall w : World Cmd Stats,
    wf w ->
    In t0 (timers (js w)) \/ settlement (timer_promise t0) (settled (js w)) <> None ->
    exists o s' w', awaitSettlement (timer_promise t0) s w = Some (o, s', w').
Proof.
  induction s as [|[t d | t r0] s IH]; intros w Hwf Hinv; cbn [awaitSettlement];
    destruct (settlement (timer_promise t0) (settled (js w))) as [o|] eqn:Hs;
    try (now eauto).
  - destruct Hinv as [Hin | Hne]; [|congruence].
    destruct (drainTimers_settles t0 _ w Hwf (le_n _) (or_introl Hin))
      as (w' & -> & Hne).
    destruct (settlement (timer_promise t0) (settled (js w'))) as [o|];
      [eauto | congruence].
  - cbn zeta.
    pose proof (advance_until_callbacks (List.length (timers (js w)))
                  (timer_promise t0) t w) as Hcb0.
    set (w1 := advance_until _ _ t w) in *. clearbody w1.
    destruct (settlement (timer_promise t0) (settled (js w1))) as [o|] eqn:Hs1;
      [now eauto|].
    assert (Hcb : callbacks w (deliver d (with_now (Z.max (now (js w1)) t) w1))).
    { eapply callbacks_trans; [exact Hcb0|].
      apply (callbacks_cons w1 (with_now (Z.max (now (js w1)) t) w1));
        [quiet_callback | apply deliver_callbacks]. }
    apply IH; [eapply callbacks_wf | eapply callbacks_keep_timer]; eauto.
    rewrite Hs. exact Hinv.
  - cbn zeta.
    pose proof (advance_until_callbacks (List.length (timers (js w)))
                  (timer_promise t0) t w) as Hcb0.
    set (w1 := advance_until _ _ t w) in *. clearbody w1.
    destruct (settlement (timer_promise t0) (settled (js w1))) as [o|] eqn:Hs1;
      [now eauto|].
    assert (Hcb : callbacks w (with_now (Z.max (now (js w1)) t) w1)).
    { eapply callbacks_trans; [exact Hcb0|]. apply callbacks_one. quiet_callback. }
    apply IH; [eapply callbacks_wf | eapply callbacks_keep_timer]; eauto.
    rewrite Hs. exact Hinv.
Qed.

Lemma newCommand_wf (n r : Ref) (f : Cmd) (w : World Cmd Stats) :
  wf w -> wf (with_nextRef n (store r (mkObject f None) w)).
Proof.
  intros (Ha & Hb & Hnd & Hcp & Hct).
  assert (Hold : forall r0 k,
             onDone (deref (with_nextRef n (store r (mkObject f None) w)) r0) = Some k ->
             onDone (deref w r0) = Some k).
  { intros r0 k. unfold store, deref. cbn.
    destruct (Nat.eqb r0 r); [discriminate | auto]. }
  unfold wf. split; [exact Ha|]. split; [exact Hb|]. split; [exact Hnd|]. split.
  - intros r0 k Hk. apply Hold in Hk. exact (Hcp r0 k Hk).
  - intros r0 k tid Hk Htid. apply Hold in Hk. exact (Hct r0 k tid Hk Htid).
Qed.

(** C7: [ping] sends a fresh ping command with a timeout of 1000 ms.  When
    the promise of that command is resolved, [ping] sets the status to
    [CONNECTED] and returns; when it is rejected, [ping] rejects (with
    [undefined]) and the status is the one [ping] was called with.  Because
    of the timeout one of the two always happens. *)
Theorem ping_outcome (script : Script) (w : World Cmd Stats) :
  let r := nextRef (js w) in
  let p := nextPromise (js w) in
  let w0 := with_nextRef (S r) (store r (mkObject newPingCommand None) w) in
  let w1 := fst (send r 1000 w0) in
  (In (mkTimer (nextTimer (js w)) (now (js w) + 1000) r p) (timers (js w1)) /\
   In r (commands (this w1)) /\
   written (serialPort (js w1))
     = (written (serialPort (js w))
        ++ [fromString (command newPingCommand ++ newline)])%list /\
   status (this w1) = status (this w)) /\
  (forall c s' w2,
      awaitSettlement p script w1 = Some (Resolved c, s', w2) ->
      ping script w = Some (Returned tt, s', with_status CONNECTED w2) /\
      status (this (with_status CONNECTED w2)) = CONNECTED) /\
  (forall e s' w2,
      awaitSettlement p script w1 = Some (Rejected e, s', w2) ->
      ping script w = Some (Threw None, s', w2) /\
      status (this w2) = status (this w)) /\
  (forall o s' w',
      ping script w = Some (o, s', w') ->
      (o = Returned tt /\ status (this w') = CONNECTED) \/
      (o = Threw None /\ status (this w') = status (this w))) /\
  (wf w -> exists o s' w', ping script w = Some (o, s', w')).
Proof.
  intros r p w0 w1.
  pose proof (send_effect r 1000 w0) as H. cbn zeta in H. fold w1 in H.
  change (0 <? 1000) with true in H.
  destruct H as (Hp & Hq & Hsame & Hd & Ht & _ & _ & _ & _ & _ & _ & _ & Hwr).
  assert (Hping : ping script w
                  = match awaitSettlement p script w1 with
                    | None => None
                    | Some (Resolved _, s', w2) =>
                        Some (Returned tt, s', with_status CONNECTED w2)
                    | Some (Rejected _, s', w2) => Some (Threw None, s', w2)
                    end).
  { unfold ping, bind, try_catch, newCommand, await_send, update, ret, throw.
    fold r. fold w0. rewrite (surjective_pairing (send r 1000 w0)).
    fold w1. rewrite Hp. change (nextPromise (js w0)) with p.
    destruct (awaitSettlement p script w1) as [[[[c|e] s'] w2]|]; reflexivity. }
  assert (Hstatus : forall o s' w2, awaitSettlement p script w1 = Some (o, s', w2) ->
                                    status (this w2) = status (this w)).
  { intros o s' w2 E. apply awaitSettlement_quiet in E. destruct E as [Hq' _].
    unfold quiet, same_but_queue in *. destruct Hq' as (-> & _).
    destruct Hsame as (_ & _ & -> & _). reflexivity. }
  assert (Htimer : In (mkTimer (nextTimer (js w)) (now (js w) + 1000) r p)
                      (timers (js w1)))
    by (rewrite Ht; apply in_app_iff; right; left; reflexivity).
  split; [|split; [|split; [|split]]].
  - repeat split.
    + exact Htimer.
    + rewrite Hq. apply in_app_iff. right. now left.
    + rewrite Hwr. unfold w0, store, deref. cbn. rewrite Nat.eqb_refl. reflexivity.
  - intros c s' w2 E. rewrite Hping, E. auto.
  - intros e s' w2 E. rewrite Hping, E. split; [reflexivity|]. eauto.
  - intros o s' w' E. rewrite Hping in E.
    destruct (awaitSettlement p script w1) as [[[[c|e] s1] w2]|] eqn:Ea;
      [| |discriminate]; injection E as <- <- <-.
    + left. auto.
    + right. split; [reflexivity|]. eauto.
  - intros Hwf.
    assert (Hwf1 : wf w1) by (apply send_wf, newCommand_wf, Hwf).
    destruct (awaitSettlement_settles _ script w1 Hwf1 (or_introl Htimer))
      as (o & s' & w2 & E).
    cbn [timer_promise] in E. rewrite Hping, E. destruct o; eauto.
Qed.

Lemma bind_returned {A B : Type} (m : Async A) (k : A -> Async B)
    (s : Script) (w : World Cmd Stats) a s' w' :
  m s w = Some (Returned a, s', w') -> bind m k s w = k a s' w'.
Proof. unfold bind. now intros ->. Qed.

Lemma transport_quiet (prepare : World Cmd Stats -> World Cmd Stats)
    (s : Script) (w : World Cmd Stats) o s' w' :
  transport prepare s w = Some (o, s', w') -> quiet (prepare w) w'.
Proof.
  unfold transport.
  destruct (awaitReply s (prepare w)) as [[[r s1] w1]|] eqn:E; [|discriminate].
  apply awaitReply_quiet in E. destruct r; intros [= <- <- <-]; exact E.
Qed.

Lemma sleep_quiet (ms : Z) (s : Script) (w : World Cmd Stats) o s' w' :
  sleep ms s w = Some (o, s', w') -> quiet w w'.
Proof.
  unfold sleep. pose proof (sleep_until_quiet (now (js w) + ms) s w) as H.
  destruct (sleep_until _ s w) as [s1 w1]. intros [= <- <- <-]. exact H.
Qed.

(** Waiting for the welcome banner writes nothing and sets nothing. *)
Lemma waitForWelcomeString_loop_quiet (fuel : nat) (br : Reader) (t0 : Z) :
  forall (s : Script) (w : World Cmd Stats) o s' w',
    waitForWelcomeString_loop fuel br t0 s w = Some (o, s', w') -> quiet w w'.
Proof.
  induction fuel as [|fuel IH]; intros s w o s' w'; cbn [waitForWelcomeString_loop];
    destruct (now (js w) <? t0 + 15000);
    try (intros [= <- <- <-]; apply quiet_refl); try discriminate.
  unfold bind at 1. unfold try_catch, readLine.
  unfold bind at 1.
  destruct (transport (fun w0 => w0) s w) as [[[[b|e] s1] w1]|] eqn:E;
    [| |discriminate]; apply transport_quiet in E.
  - destruct (isWelcomeString (Some (toString b))).
    + cbn. intros [= <- <- <-]. exact E.
    + unfold bind, ret.
      destruct (sleep 100 s1 w1) as [[[o2 s2] w2]|] eqn:E2; [|discriminate].
      apply sleep_quiet in E2.
      destruct o2; intros H; apply IH in H;
        (eapply quiet_trans; [exact E | eapply quiet_trans; eauto]).
  - cbn. intros H. apply IH in H. eapply quiet_trans; eauto.
Qed.

Lemma waitForWelcomeString_quiet (br : Reader) (s : Script)
    (w : World Cmd Stats) o s' w' :
  waitForWelcomeString br s w = Some (o, s', w') -> quiet w w'.
Proof. apply waitForWelcomeString_loop_quiet. Qed.

Lemma awaitReply_script (s : Script) :
  forall (w : World Cmd Stats) r s' w',
    awaitReply s w = Some (r, s', w') ->
    (exists t, In (Reply t r) s) /\ incl s' s.
Proof.
  induction s as [|[t d | t r0] s IH]; intros w r s' w'; cbn [awaitReply].
  - discriminate.
  - intros H. apply IH in H. destruct H as [[t' Hin] Hincl].
    split; [exists t'; now right | now apply incl_tl].
  - intros [= <- <- <-]. split; [exists t; now left | apply incl_tl, incl_refl].
Qed.

Lemma sleep_until_script (wake : Z) (s : Script) :
  forall w : World Cmd Stats, incl (fst (sleep_until wake s w)) s.
Proof.
  induction s as [|[t d | t r0] s IH]; intros w; cbn [sleep_until].
  - apply incl_refl.
  - destruct (t <=? wake); [apply incl_tl, IH | apply incl_refl].
  - apply incl_refl.
Qed.

(** [waitForWelcomeString] never throws.  It returns [true] only after it has
    read a line that is a welcome banner, and [false] only once the detection
    window of 15 seconds has elapsed. *)
Lemma waitForWelcomeString_loop_result (fuel : nat) (br : Reader) (t0 : Z) :
  forall (s : Script) (w : World Cmd Stats) o s' w',
    waitForWelcomeString_loop fuel br t0 s w = Some (o, s', w') ->
    (o = Returned true /\
     exists t b, In (Reply t (Fulfilled b)) s /\
                 isWelcomeString (Some (toString b)) = true) \/
    (o = Returned false /\ t0 + 15000 <= now (js w')).
Proof.
  induction fuel as [|fuel IH]; intros s w o s' w'; cbn [waitForWelcomeString_loop];
    destruct (now (js w) <? t0 + 15000) eqn:Hwin;
    try (intros [= <- <- <-]; right; split; [reflexivity|];
         apply Z.ltb_ge in Hwin; exact Hwin);
    try discriminate.
  unfold bind at 1. unfold try_catch, readLine.
  unfold bind at 1. unfold transport.
  destruct (awaitReply s w) as [[[[b|e] s1] w1]|] eqn:E; [| |discriminate];
    apply awaitReply_script in E; destruct E as [[t Hin] Hincl].
  - destruct (isWelcomeString (Some (toString b))) eqn:Hb.
    + cbn. intros [= <- <- <-]. left. split; [reflexivity|]. eauto.
    + unfold bind, ret. unfold sleep.
      pose proof (sleep_until_script (now (js w1) + 100) s1 w1) as Hs.
      destruct (sleep_until (now (js w1) + 100) s1 w1) as [s2 w2].
      cbn [fst] in Hs. intros H. apply IH in H.
      destruct H as [(-> & t' & b' & Hin' & Hb') | H]; [left | now right].
      split; [reflexivity|]. exists t', b'. split; [|exact Hb'].
      apply Hincl, Hs, Hin'.
  - cbn. intros H. apply IH in H.
    destruct H as [(-> & t' & b' & Hin' & Hb') | H]; [left | now right].
    split; [reflexivity|]. exists t', b'. split; [|exact Hb'].
    apply Hincl, Hin'.
Qed.

(** With statistics cached or no version known, [getStats] does nothing. *)
Lemma getStats_idle (s : Script) (w : World Cmd Stats) :
  stats (this w) <> None \/ truthy (currentVersion (this w)) = false ->
  getStats s w = Some (Returned (stats (this w)), s, w).
Proof.
  intros H. unfold getStats, bind, read.
  destruct (stats (this w)) as [st|] eqn:E.
  - cbn. rewrite E. reflexivity.
  - destruct H as [H | ->]; [congruence|]. cbn. rewrite E. reflexivity.
Qed.

(** In every case [getStats] returns without throwing, and all it can do to
    the port is to hand it the text of one statistics query. *)
Lemma getStats_frame (s : Script) (w : World Cmd Stats) o s' w' :
  getStats s w = Some (o, s', w') ->
  o = Returned (stats (this w')) /\
  status (this w') = status (this w) /\
  currentVersion (this w') = currentVersion (this w) /\
  isOpen (serialPort (js w')) = isOpen (serialPort (js w)) /\
  readers (serialPort (js w')) = readers (serialPort (js w)) /\
  disconnectListeners (serialPort (js w')) = disconnectListeners (serialPort (js w)) /\
  (written (serialPort (js w')) = written (serialPort (js w)) \/
   written (serialPort (js w'))
     = (written (serialPort (js w))
        ++ [fromString (command newGetStatsCommand ++ newline)])%list).
Proof.
  unfold getStats. unfold bind at 1. unfold read at 1.
  destruct (match stats (this w) with
            | Some _ => false
            | None => truthy (currentVersion (this w))
            end).
  - unfold bind at 1. unfold try_catch, newCommand. unfold bind at 1.
    set (r := nextRef (js w)).
    set (w0 := with_nextRef (S r) (store r (mkObject newGetStatsCommand None) w)).
    destruct (bind (await_send r 5000) _ s w0) as [[[o1 s1] w1]|] eqn:E;
      [|discriminate].
    unfold bind in E.
    destruct (await_send r 5000 s w0) as [[[o2 s2] w2]|] eqn:E2; [|discriminate].
    apply await_send_quiet in E2.
    assert (Hcmd : command (fields (deref w0 r)) = command newGetStatsCommand)
      by (unfold w0, store, deref; cbn; now rewrite Nat.eqb_refl).
    rewrite Hcmd in E2. destruct E2 as (A1 & A2 & A3 & A4 & A5 & A6 & A7).
    destruct o2 as [c'|e].
    + unfold update in E. injection E as <- <- <-. unfold ret, read.
      intros [= <- <- <-]. cbn. repeat split; try assumption. right. exact A7.
    + injection E as <- <- <-. unfold ret, read.
      intros [= <- <- <-]. cbn. repeat split; try assumption. right. exact A7.
  - unfold bind, ret, read. intros [= <- <- <-]. repeat split. now left.
Qed.

(** [await this.send(command, timeoutMs)] with a positive timeout always
    ends. *)
Lemma await_send_returns (c : Ref) (timeoutMs : Z) (s : Script)
    (w : World Cmd Stats) :
  wf w -> 0 < timeoutMs ->
  exists o s' w', await_send c timeoutMs s w = Some (o, s', w').
Proof.
  intros Hwf Hpos. unfold await_send.
  pose proof (send_effect c timeoutMs w) as H. cbn zeta in H.
  destruct H as (Hp & _ & _ & _ & Ht & _).
  pose proof (send_wf c timeoutMs w Hwf) as Hwf1.
  apply Z.ltb_lt in Hpos. rewrite Hpos in Ht.
  destruct (send c timeoutMs w) as [w1 p]. cbn [fst snd] in *. subst p.
  set (t0 := mkTimer (nextTimer (js w)) (now (js w) + timeoutMs) c (nextPromise (js w))).
  assert (Hin : In t0 (timers (js w1)))
    by (rewrite Ht; apply in_app_iff; right; left; reflexivity).
  destruct (awaitSettlement_settles t0 s w1 Hwf1 (or_introl Hin))
    as (o & s' & w2 & E).
  cbn [timer_promise t0] in E. rewrite E. destruct o; eauto.
Qed.

(** [getStats] always returns. *)
Lemma getStats_returns (s : Script) (w : World Cmd Stats) :
  wf w -> exists o s' w', getStats s w = Some (o, s', w').
Proof.
  intros Hwf. unfold getStats. unfold bind at 1. unfold read at 1.
  destruct (match stats (this w) with
            | Some _ => false
            | None => truthy (currentVersion (this w))
            end).
  - unfold bind at 1. unfold try_catch, newCommand. unfold bind at 1.
    set (r := nextRef (js w)).
    set (w0 := with_nextRef (S r) (store r (mkObject newGetStatsCommand None) w)).
    assert (Hwf0 : wf w0) by (apply newCommand_wf, Hwf).
    destruct (await_send_returns r 5000 s w0 Hwf0 eq_refl) as (o & s' & w' & E).
    unfold bind at 1. rewrite E.
    destruct o; unfold update, ret, bind, read; eauto.
  - unfold bind, ret, read. eauto.
Qed.

(** With no statistics cached and a version known, [getStats] sends a fresh
    statistics query with a timeout of 5000 ms and awaits it: when the
    promise of the query is resolved the statistics of the command are
    stored and returned, when it is rejected the error is swallowed. *)
Lemma getStats_fetch (s : Script) (w w0 w1 : World Cmd Stats) (r : Ref)
    (p : PromiseId) :
  r = nextRef (js w) ->
  p = nextPromise (js w) ->
  w0 = with_nextRef (S r) (store r (mkObject newGetStatsCommand None) w) ->
  w1 = fst (send r 5000 w0) ->
  stats (this w) = None ->
  truthy (currentVersion (this w)) = true ->
  (In (mkTimer (nextTimer (js w)) (now (js w) + 5000) r p) (timers (js w1)) /\
   In r (commands (this w1)) /\
   written (serialPort (js w1))
     = (written (serialPort (js w))
        ++ [fromString (command newGetStatsCommand ++ newline)])%list) /\
  getStats s w
  = match awaitSettlement p s w1 with
    | None => None
    | Some (Resolved c, s', w2) =>
        Some (Returned (Command_getStats (fields (deref w2 c))), s',
              with_stats (Command_getStats (fields (deref w2 c))) w2)
    | Some (Rejected _, s', w2) => Some (Returned (stats (this w2)), s', w2)
    end.
Proof.
  intros Hr Hp Hw0 Hw1 Hst Hv.
  pose proof (send_effect r 5000 w0) as H. cbn zeta in H. rewrite <- Hw1 in H.
  change (0 <? 5000) with true in H.
  destruct H as (Hsp & Hq & _ & _ & Ht & _ & _ & _ & _ & _ & _ & _ & Hwr).
  assert (Hp0 : nextPromise (js w0) = p) by (rewrite Hw0, Hp; reflexivity).
  rewrite Hp0 in Hsp, Ht.
  split; [split; [|split]|].
  - rewrite Ht. apply in_app_iff. right. left. rewrite Hw0. reflexivity.
  - rewrite Hq. apply in_app_iff. right. now left.
  - rewrite Hwr. rewrite Hw0. unfold store, deref. cbn. rewrite Nat.eqb_refl.
    reflexivity.
  - unfold getStats. unfold bind at 1. unfold read at 1. rewrite Hst, Hv.
    unfold bind at 1. unfold try_catch, newCommand. unfold bind at 1.
    rewrite <- Hr, <- Hw0. unfold bind at 1. unfold await_send.
    rewrite (surjective_pairing (send r 5000 w0)), <- Hw1, Hsp.
    destruct (awaitSettlement p s w1) as [[[[c|e] s'] w2]|]; reflexivity.
Qed.

(** C9, as amended: on an open port [connect] opens nothing, resets nothing,
    runs no handshake, registers no reader or listener and does not assign
    the status; it goes straight to [getStats] and returns the status.  With
    statistics cached or no version known that does nothing at all.
    Otherwise [connect] sends a fresh statistics query with a timeout of
    5000 ms: the query joins the queue, its text is written to the port and
    its timer is due 5000 ms later; when the promise of the query is
    resolved, the statistics of the command are stored in the session, and
    when it is rejected they stay unset; in both cases [connect] returns the
    status it was called with.  The only trace on the port is the text of
    that one query.  The call always returns. *)
Theorem connect_when_open (script : Script) (w : World Cmd Stats) :
  isOpen (serialPort (js w)) = true ->
  (stats (this w) <> None \/ truthy (currentVersion (this w)) = false ->
   connect script w = Some (Returned (status (this w)), script, w)) /\
  (stats (this w) = None -> truthy (currentVersion (this w)) = true ->
   let r := nextRef (js w) in
   let p := nextPromise (js w) in
   let w0 := with_nextRef (S r) (store r (mkObject newGetStatsCommand None) w) in
   let w1 := fst (send r 5000 w0) in
   (In (mkTimer (nextTimer (js w)) (now (js w) + 5000) r p) (timers (js w1)) /\
    In r (commands (this w1)) /\
    written (serialPort (js w1))
      = (written (serialPort (js w))
         ++ [fromString (command newGetStatsCommand ++ newline)])%list) /\
   (forall c s' w2,
       awaitSettlement p script w1 = Some (Resolved c, s', w2) ->
       connect script w
       = Some (Returned (status (this w)), s',
               with_stats (Command_getStats (fields (deref w2 c))) w2)) /\
   (forall e s' w2,
       awaitSettlement p script w1 = Some (Rejected e, s', w2) ->
       connect script w = Some (Returned (status (this w)), s', w2) /\
       stats (this w2) = None)) /\
  (forall o s' w',
      connect script w = Some (o, s', w') ->
      o = Returned (status (this w)) /\
      status (this w') = status (this w) /\
      currentVersion (this w') = currentVersion (this w) /\
      isOpen (serialPort (js w')) = true /\
      readers (serialPort (js w')) = readers (serialPort (js w)) /\
      disconnectListeners (serialPort (js w'))
        = disconnectListeners (serialPort (js w)) /\
      (written (serialPort (js w')) = written (serialPort (js w)) \/
       written (serialPort (js w'))
         = (written (serialPort (js w))
            ++ [fromString (command newGetStatsCommand ++ newline)])%list)) /\
  (wf w -> exists o s' w', connect script w = Some (o, s', w')).
Proof.
  intros Hopen.
  assert (Hconnect : connect script w
                     = match getStats script w with
                       | None => None
                       | Some (Returned _, s', w') =>
                           Some (Returned (status (this w')), s', w')
                       | Some (Threw e, s', w') => Some (Threw e, s', w')
                       end).
  { unfold connect. unfold bind at 1. unfold read at 1. rewrite Hopen.
    unfold bind at 1. unfold ret at 1. unfold bind. reflexivity. }
  split; [|split; [|split]].
  - intros Hidle. rewrite Hconnect, (getStats_idle script w Hidle). reflexivity.
  - intros Hst Hv r p w0 w1.
    destruct (getStats_fetch script w w0 w1 r p eq_refl eq_refl eq_refl eq_refl Hst Hv)
      as (Hsent & Hget).
    assert (Hkeep : forall o s' w2,
               awaitSettlement p script w1 = Some (o, s', w2) ->
               status (this w2) = status (this w) /\ stats (this w2) = None).
    { intros o s' w2 E. apply awaitSettlement_quiet in E. destruct E as [Hq _].
      destruct Hq as (Q1 & _ & Q3 & _). rewrite Q1, Q3.
      pose proof (send_effect r 5000 w0) as H. cbn zeta in H. fold w1 in H.
      destruct H as (_ & _ & Hsame & _). unfold same_but_queue in Hsame.
      destruct Hsame as (_ & _ & S3 & _ & _ & S6).
      split; [rewrite S3 | rewrite S6]; [reflexivity | exact Hst]. }
    split; [exact Hsent|]. split.
    + intros c s' w2 E. destruct (Hkeep _ _ _ E) as [Hs _].
      rewrite Hconnect, Hget, E. cbn. rewrite Hs. reflexivity.
    + intros e s' w2 E. destruct (Hkeep _ _ _ E) as [Hs Hn].
      rewrite Hconnect, Hget, E, Hs. auto.
  - intros o s' w' E. rewrite Hconnect in E.
    destruct (getStats script w) as [[[o1 s1] w1]|] eqn:Eg;
      [|discriminate].
    apply getStats_frame in Eg.
    destruct Eg as (-> & A1 & A2 & A3 & A4 & A5 & A6).
    injection E as <- <- <-. rewrite A1, A3. auto 10.
  - intros Hwf. rewrite Hconnect.
    destruct (getStats_returns script w Hwf) as (o & s' & w' & ->).
    destruct o; eauto.
Qed.

Lemma connect_open_frame (s : Script) (w : World Cmd Stats) br s' w' :
  connect_open s w = Some (Returned br, s', w') ->
  currentVersion (this w') = currentVersion (this w) /\
  stats (this w') = stats (this w) /\
  written (serialPort (js w')) = written (serialPort (js w)) /\
  isOpen (serialPort (js w')) = true.
Proof.
  unfold connect_open, bind, newBufferedReader, port_open, update, ret.
  set (w0 := with_nextRef (S (nextRef (js w))) w).
  destruct (awaitReply s w0) as [[[[b|e] s1] w1]|] eqn:E; [| |discriminate];
    [|discriminate].
  apply awaitReply_quiet in E. intros [= <- <- <-].
  unfold quiet in E. destruct E as (E1 & E2 & E3 & E4 & E5 & E6 & _).
  cbn. rewrite E2, E3, E6. cbn. auto.
Qed.

Lemma connect_reset_frame (br : Reader) (s : Script) (w : World Cmd Stats) s' w' :
  connect_reset br s w = Some (Returned tt, s', w') ->
  currentVersion (this w') = currentVersion (this w) /\
  stats (this w') = stats (this w) /\
  written (serialPort (js w'))
    = (written (serialPort (js w)) ++ [[Byte.x0c; Byte.x18]])%list.
Proof.
  unfold connect_reset, await_write, bind, update, ret.
  destruct (transport (port_write [Byte.x0c; Byte.x18]) s (addReader br w))
    as [[[[b|e] s1] w1]|] eqn:E; [| |discriminate]; [|discriminate].
  apply transport_quiet in E. intros [= <- <-].
  unfold quiet in E. destruct E as (E1 & E2 & E3 & E4 & E5 & E6 & _).
  rewrite E2, E3, E6. cbn. auto.
Qed.

(** C5: when the port has been opened and reset and no welcome banner is seen
    within the detection window ([waitForWelcomeString] returns [false], which
    it does only once the window of 15 seconds has elapsed),
    [_initializeController] returns at once, without an error and without the
    version query, and [connect] completes with status [CONNECTED]; the
    version, unset before, is still unset, and the reset bytes are all that
    was written. *)
Theorem connect_without_banner
    (script s1 s2 s3 : Script) (w w1 w2 w3 : World Cmd Stats) (br : Reader) :
  isOpen (serialPort (js w)) = false ->
  currentVersion (this w) = None ->
  connect_open script w = Some (Returned br, s1, w1) ->
  connect_reset br s1 w1 = Some (Returned tt, s2, w2) ->
  waitForWelcomeString br s2 w2 = Some (Returned false, s3, w3) ->
  let w4 := addReader OnDataReader (with_status CONNECTED (removeReader br w3)) in
  now (js w2) + 15000 <= now (js w3) /\
  _initializeController br s2 w2 = Some (Returned tt, s3, w3) /\
  connect script w = Some (Returned CONNECTED, s3, w4) /\
  status (this w4) = CONNECTED /\
  currentVersion (this w4) = None /\
  written (serialPort (js w4))
    = (written (serialPort (js w)) ++ [[Byte.x0c; Byte.x18]])%list.
Proof.
  intros Hclosed Hversion Hopen Hreset Hwait w4.
  assert (Hinit : _initializeController br s2 w2 = Some (Returned tt, s3, w3))
    by (unfold _initializeController; rewrite (bind_returned _ _ _ _ _ _ _ Hwait);
        reflexivity).
  destruct (connect_open_frame _ _ _ _ _ Hopen) as (A1 & A2 & A3 & _).
  destruct (connect_reset_frame _ _ _ _ _ Hreset) as (B1 & B2 & B3).
  pose proof (waitForWelcomeString_quiet _ _ _ _ _ _ Hwait) as Hq.
  unfold quiet in Hq. destruct Hq as (_ & C2 & _ & _ & _ & C6 & _).
  assert (Hv4 : currentVersion (this w4) = None)
    by (unfold w4; cbn; congruence).
  assert (Hw4 : written (serialPort (js w4))
                = (written (serialPort (js w)) ++ [[Byte.x0c; Byte.x18]])%list)
    by (unfold w4; cbn; rewrite C6; congruence).
  split.
  { destruct (waitForWelcomeString_loop_result _ _ _ _ _ _ _ _ Hwait)
      as [(H & _) | (_ & H)]; [discriminate H | exact H]. }
  split; [exact Hinit|]. split; [|auto].
  unfold connect. unfold bind at 1. unfold read at 1. rewrite Hclosed.
  match goal with
  | |- bind ?branch _ _ _ = _ =>
      assert (Hbranch : branch script w = Some (Returned tt, s3, w4))
  end.
  { rewrite (bind_returned _ _ _ _ _ _ _ Hopen).
    unfold bind at 1. unfold try_finally.
    rewrite (bind_returned _ _ _ _ _ _ _ Hreset), Hinit. reflexivity. }
  rewrite (bind_returned _ _ _ _ _ _ _ Hbranch).
  unfold bind.
  rewrite (getStats_idle s3 w4) by (right; rewrite Hv4; reflexivity).
  unfold read. rewrite Hv4 || idtac. reflexivity.
Qed.

(** ** Status listeners *)

Lemma filter_app_single_out {A : Type} (g : A -> bool) (l : list A) (x : A) :
  g x = false -> filter g (l ++ [x]) = filter g l.
Proof.
  intros Hx. rewrite filter_app. cbn. rewrite Hx. apply app_nil_r.
Qed.

Lemma filter_all_in {A : Type} (g : A -> bool) (l : list A) :
  (forall x, In x l -> g x = true) -> filter g l = l.
Proof.
  induction l as [|a l IH]; intros H; cbn; [reflexivity|].
  rewrite (H a (or_introl eq_refl)). f_equal. apply IH.
  intros x Hx. apply H. now right.
Qed.

Lemma world_eta (w : World Cmd Stats) :
  mkWorld (mkService (buffer (this w)) (commands (this w)) (xmodemMode (this w))
             (status (this w)) (currentVersion (this w))
             (statusListeners (this w)) (stats (this w))) (js w) = w.
Proof. destruct w as [[] ?]. reflexivity. Qed.

(** X1: once [removeListener] was called for a listener, a notification
    calls the listeners that are left, in the order they had, and makes no
    call to the removed one, however often it had been added. *)
Theorem removeListener_silences
    (listener : nat) (st : ControllerStatus) (w : World Cmd Stats) :
  _notifyStatus st (removeListener listener w)
    = filter (fun call => negb (Nat.eqb (fst call) listener)) (_notifyStatus st w) /\
  ~ In listener (map fst (_notifyStatus st (removeListener listener w))) /\
  forall other,
    other <> listener ->
    count_occ Nat.eq_dec (map fst (_notifyStatus st (removeListener listener w))) other
    = count_occ Nat.eq_dec (map fst (_notifyStatus st w)) other.
Proof.
  unfold _notifyStatus, removeListener, with_statusListeners. cbn [this statusListeners].
  generalize (statusListeners (this w)) as ls. intros ls.
  split; [|split].
  - induction ls as [|l ls IH]; cbn; [reflexivity|].
    destruct (Nat.eqb l listener); cbn; [exact IH | now rewrite IH].
  - rewrite map_map. cbn. rewrite map_id. intros Hin.
    apply filter_In in Hin. destruct Hin as [_ Hne].
    rewrite Nat.eqb_refl in Hne. discriminate.
  - intros other Hne. rewrite !map_map. cbn. rewrite !map_id.
    induction ls as [|l ls IH]; cbn; [reflexivity|].
    destruct (Nat.eqb l listener) eqn:E; cbn.
    + apply Nat.eqb_eq in E. subst l.
      destruct (Nat.eq_dec listener other); [congruence | exact IH].
    + destruct (Nat.eq_dec l other); now rewrite IH.
Qed.

(** X2: a listener that was not registered can be added any number of times
    and one [removeListener] takes every registration back: the service is
    as it was before the first [addListener]. *)
Theorem removeListener_undoes_addListener
    (listener : nat) (n : nat) (w : World Cmd Stats) :
  ~ In listener (statusListeners (this w)) ->
  removeListener listener (Nat.iter n (addListener listener) w) = w.
Proof.
  intros Hnew.
  assert (H : forall k,
             Nat.iter k (addListener listener) w
             = with_statusListeners
                 (statusListeners (this w) ++ repeat listener k) w).
  { induction k as [|k IH]; cbn [Nat.iter nat_rect].
    - cbn. rewrite app_nil_r. unfold with_statusListeners. symmetry. apply world_eta.
    - fold (Nat.iter k (addListener listener) w). rewrite IH.
      unfold addListener, with_statusListeners. cbn.
      rewrite <- app_assoc. do 3 f_equal.
      change [listener] with (repeat listener 1). rewrite <- repeat_app.
      now rewrite Nat.add_1_r. }
  rewrite H. unfold removeListener, with_statusListeners. cbn.
  rewrite filter_app.
  rewrite (filter_all_in _ (statusListeners (this w))).
  - assert (Hrep : filter (fun l => negb (Nat.eqb l listener)) (repeat listener n) = []).
    { induction n as [|n IH]; cbn; [reflexivity|]. now rewrite Nat.eqb_refl. }
    rewrite Hrep, app_nil_r. apply world_eta.
  - intros x Hx. destruct (Nat.eqb x listener) eqn:E; [|reflexivity].
    apply Nat.eqb_eq in E. subst x. contradiction.
Qed.

(** ** The socket adapter of a binary transfer *)

Lemma adapter_receive_buffer (chunks : list Buffer) :
  forall a : XModemSocketAdapter,
    adapter_buffer (adapter_receive chunks a)
      = (adapter_buffer a ++ List.concat chunks)%list /\
    adapter_reader (adapter_receive chunks a) = adapter_reader a.
Proof.
  induction chunks as [|d chunks IH]; intros a.
  - cbn. now rewrite app_nil_r.
  - change (adapter_receive (d :: chunks) a)
      with (adapter_receive chunks (XModemSocketAdapter_onData d a)).
    destruct (IH (XModemSocketAdapter_onData d a)) as [Hb Hr].
    rewrite Hb, Hr. unfold XModemSocketAdapter_onData, Buffer_truthy. cbn.
    now rewrite app_assoc.
Qed.

(** X3: [read] hands over the bytes of all chunks that arrived since the
    previous [read], in arrival order, and leaves nothing behind: a second
    [read] with no chunk in between returns the empty buffer.  Bytes that
    were pending before come first. *)
Theorem adapter_read_returns_received
    (chunks : list Buffer) (a : XModemSocketAdapter) :
  let a1 := adapter_receive chunks (snd (XModemSocketAdapter_read a)) in
  fst (XModemSocketAdapter_read a1) = List.concat chunks /\
  fst (XModemSocketAdapter_read (snd (XModemSocketAdapter_read a1))) = [] /\
  adapter_reader (snd (XModemSocketAdapter_read a1)) = adapter_reader a /\
  fst (XModemSocketAdapter_read (adapter_receive chunks a))
    = (adapter_buffer a ++ List.concat chunks)%list.
Proof.
  cbn zeta. unfold XModemSocketAdapter_read. cbn [fst snd adapter_buffer adapter_reader].
  destruct (adapter_receive_buffer chunks (mkAdapter [] (adapter_reader a))) as [Hb Hr].
  destruct (adapter_receive_buffer chunks a) as [Hb' _].
  rewrite Hb, Hb'. cbn. auto.
Qed.

(** X4: [peekByte] yields the first byte that the next [read] would return
    and [undefined] exactly when no byte is pending, that is when nothing
    was pending and every chunk received since was empty. *)
Theorem adapter_peekByte_first_pending
    (chunks : list Buffer) (a : XModemSocketAdapter) :
  let a1 := adapter_receive chunks a in
  XModemSocketAdapter_peekByte a1 = hd_error (fst (XModemSocketAdapter_read a1)) /\
  XModemSocketAdapter_peekByte a1
    = hd_error (adapter_buffer a ++ List.concat chunks)%list /\
  (XModemSocketAdapter_peekByte a1 = None <->
   adapter_buffer a = [] /\ Forall (fun d => d = []) chunks).
Proof.
  cbn zeta. unfold XModemSocketAdapter_peekByte, XModemSocketAdapter_read. cbn [fst].
  destruct (adapter_receive_buffer chunks a) as [Hb _]. rewrite Hb.
  assert (Hnth : forall l : Buffer, nth_error l 0 = hd_error l)
    by (intros [|? ?]; reflexivity).
  rewrite Hnth. split; [reflexivity|]. split; [reflexivity|].
  assert (Hnil : forall l : Buffer, hd_error l = None <-> l = [])
    by (intros [|? ?]; cbn; split; congruence).
  rewrite Hnil. split.
  - intros H. apply app_eq_nil in H. destruct H as [Ha Hc]. split; [exact Ha|].
    clear Hb. induction chunks as [|d chunks IH]; [constructor|].
    cbn in Hc. apply app_eq_nil in Hc. destruct Hc as [Hd Hc].
    constructor; auto.
  - intros [Ha Hall]. rewrite Ha. cbn.
    clear Hb. induction Hall as [|d chunks Hd _ IH]; [reflexivity|].
    cbn. now rewrite Hd, IH.
Qed.

(** ** While the service is deaf *)

Lemma frozen_refl (w : World Cmd Stats) : frozen w w.
Proof. unfold frozen. auto using incl_refl. Qed.

Lemma frozen_trans (w w1 w2 : World Cmd Stats) :
  frozen w w1 -> frozen w1 w2 -> frozen w w2.
Proof.
  intros (Hb & Hh & Hc & Hs) (Hb' & Hh' & Hc' & Hs').
  unfold frozen. split; [congruence|]. split; [congruence|].
  split; [eapply incl_tran; eauto|].
  intros p o Hp. apply Hs' in Hp. destruct Hp as [Hp | ->]; auto.
Qed.

Lemma fireTimer_frozen (t : Timer) (w : World Cmd Stats) :
  frozen w (fireTimer t w).
Proof.
  unfold frozen. split; [|split; [|split]].
  - unfold fireTimer.
    destruct (settle_frame (timer_promise t) (Rejected "Command timed out")
                (_removeCommand (timer_command t) (clearTimeout (timer_id t) w)))
      as (-> & _). reflexivity.
  - unfold fireTimer.
    destruct (settle_frame (timer_promise t) (Rejected "Command timed out")
                (_removeCommand (timer_command t) (clearTimeout (timer_id t) w)))
      as (_ & -> & _). reflexivity.
  - rewrite fireTimer_commands. apply incl_filter.
  - intros p o. unfold fireTimer. rewrite settled_settle.
    change (settled (js (_removeCommand (timer_command t)
                           (clearTimeout (timer_id t) w))))
      with (settled (js w)).
    destruct (settlement (timer_promise t) (settled (js w))); [auto|].
    rewrite settlement_app.
    destruct (settlement p (settled (js w))); [auto|].
    cbn. destruct (Nat.eqb (timer_promise t) p); [|discriminate].
    intros [= <-]. now right.
Qed.

Lemma advance_loop_frozen (fuel : nat) (limit : Z) :
  forall w : World Cmd Stats, frozen w (advance_loop fuel limit w).
Proof.
  induction fuel as [|fuel IH]; intros w; cbn [advance_loop];
    [apply frozen_refl|].
  destruct (earliest (timers (js w))) as [t|]; [|apply frozen_refl].
  destruct (due t <=? limit); [|apply frozen_refl].
  eapply frozen_trans; [|apply IH].
  eapply frozen_trans; [|apply fireTimer_frozen].
  unfold frozen. cbn. auto using incl_refl.
Qed.

Lemma advance_frozen (limit : Z) (w : World Cmd Stats) :
  frozen w (advance limit w).
Proof.
  unfold advance. eapply frozen_trans; [apply advance_loop_frozen|].
  unfold frozen. cbn. auto using incl_refl.
Qed.





(** ** The clock *)

Lemma fireTimer_now (t : Timer) (w : World Cmd Stats) :
  now (js (fireTimer t w)) = now (js w).
Proof.
  unfold fireTimer.
  destruct (settle_frame (timer_promise t) (Rejected "Command timed out")
              (_removeCommand (timer_command t) (clearTimeout (timer_id t) w)))
    as (_ & _ & _ & _ & _ & -> & _). reflexivity.
Qed.

Lemma advance_loop_now (fuel : nat) (limit : Z) :
  forall w : World Cmd Stats, now (js w) <= now (js (advance_loop fuel limit w)).
Proof.
  induction fuel as [|fuel IH]; intros w; cbn [advance_loop]; [lia|].
  destruct (earliest (timers (js w))) as [t|]; [|lia].
  destruct (due t <=? limit); [|lia].
  etransitivity; [|apply IH]. rewrite fireTimer_now. cbn. lia.
Qed.

Lemma advance_now (limit : Z) (w : World Cmd Stats) :
  now (js w) <= now (js (advance limit w)) /\ limit <= now (js (advance limit w)).
Proof.
  unfold advance. cbn.
  pose proof (advance_loop_now (List.length (timers (js w))) limit w). lia.
Qed.

Lemma routeLine_now (line : string) (w : World Cmd Stats) :
  now (js (routeLine line w)) = now (js w).
Proof.
  unfold routeLine. destruct (commands (this w)) as [|c0 q]; [reflexivity|].
  destruct (Command_appendLine_frame c0 line w) as (_ & _ & _ & _ & Hn & _).
  destruct (CommandState_eqb _ _); cbn; exact Hn.
Qed.

Lemma routeLines_now (ls : list string) :
  forall w : World Cmd Stats, now (js (routeLines ls w)) = now (js w).
Proof.
  induction ls as [|l ls IH]; intros w; [reflexivity|].
  change (routeLines (l :: ls) w) with (routeLines ls (routeLine l w)).
  rewrite IH. apply routeLine_now.
Qed.

Lemma deliver_now (d : Buffer) (w : World Cmd Stats) :
  now (js (deliver d w)) = now (js w).
Proof.
  unfold deliver. destruct (existsb _ _); [|reflexivity].
  destruct (xmodemMode (this w)) eqn:Hx.
  - unfold onData. now rewrite Hx.
  - destruct (onData_spec d w Hx) as (_ & _ & _ & ->). cbn.
    apply routeLines_now.
Qed.



(** ** Closing the session *)

Lemma Reader_eqb_eq (a b : Reader) : Reader_eqb a b = true <-> a = b.
Proof.
  destruct a as [|i], b as [|j]; cbn; split; try congruence; try discriminate.
  - intros H. apply Nat.eqb_eq in H. now subst.
  - intros [= ->]. apply Nat.eqb_refl.
Qed.





(** ** Binary transfers *)



(** A transport operation takes the next reply of the script. *)
Lemma awaitReply_replies (s : Script) :
  forall (w : World Cmd Stats) r s' w',
    awaitReply s w = Some (r, s', w') -> replies_of s = r :: replies_of s'.
Proof.
  induction s as [|[t d | t r0] s IH]; intros w r s' w'; cbn [awaitReply replies_of].
  - discriminate.
  - apply IH.
  - intros [= <- <- <-]. reflexivity.
Qed.


(** A pause takes no reply. *)
Lemma sleep_until_replies (wake : Z) (s : Script) :
  forall w : World Cmd Stats,
    replies_of (fst (sleep_until wake s w)) = replies_of s.
Proof.
  induction s as [|[t d | t r0] s IH]; intros w; cbn [sleep_until]; try reflexivity.
  destruct (t <=? wake); [|reflexivity]. rewrite IH. reflexivity.
Qed.

Lemma transport_replies (prepare : World Cmd Stats -> World Cmd Stats)
    (s : Script) (w : World Cmd Stats) o s' w' :
  transport prepare s w = Some (o, s', w') ->
  (exists b, o = Returned b /\ replies_of s = Fulfilled b :: replies_of s') \/
  (exists reason, o = Threw (Some reason) /\
                  replies_of s = Failed reason :: replies_of s').
Proof.
  unfold transport.
  destruct (awaitReply s (prepare w)) as [[[r s1] w1]|] eqn:E; [|discriminate].
  apply awaitReply_replies in E.
  destruct r; intros [= <- <- <-]; [left | right]; eauto.
Qed.

Lemma await_write_replies (b : Buffer) (s : Script) (w : World Cmd Stats) o s' w' :
  await_write b s w = Some (o, s', w') ->
  (exists a, o = Returned tt /\ replies_of s = Fulfilled a :: replies_of s') \/
  (exists reason, o = Threw (Some reason) /\
                  replies_of s = Failed reason :: replies_of s').
Proof.
  unfold await_write, bind. intros H.
  destruct (transport (port_write b) s w) as [[[o1 s1] w1]|] eqn:E; [|discriminate].
  apply transport_replies in E. destruct E as [(a & -> & Hr) | (e & -> & Hr)].
  - unfold ret in H. injection H as <- <- <-. left. eauto.
  - injection H as <- <- <-. right. eauto.
Qed.





(** ** The handshake *)

Lemma quiet_same_session (w w' : World Cmd Stats) : quiet w w' -> same_session w w'.
Proof.
  unfold quiet, same_session. intros (-> & _ & -> & -> & -> & -> & ->). auto 10.
Qed.

Lemma same_session_refl (w : World Cmd Stats) : same_session w w.
Proof. unfold same_session. auto 10. Qed.

Lemma same_session_trans (w w1 w2 : World Cmd Stats) :
  same_session w w1 -> same_session w1 w2 -> same_session w w2.
Proof.
  unfold same_session.
  intros (A1 & A2 & A3 & A4 & A5 & A6 & A7 & A8) (B1 & B2 & B3 & B4 & B5 & B6 & B7 & B8).
  repeat split; congruence.
Qed.

(** A transport operation either yields its payload or fails with the
    reason of a failed reply of the script. *)
Lemma transport_result (prepare : World Cmd Stats -> World Cmd Stats)
    (s : Script) (w : World Cmd Stats) o s' w' :
  transport prepare s w = Some (o, s', w') ->
  quiet (prepare w) w' /\ incl s' s /\
  ((exists b t, o = Returned b /\ In (Reply t (Fulfilled b)) s) \/
   (exists reason t, o = Threw (Some reason) /\ In (Reply t (Failed reason)) s)).
Proof.
  intros H. split; [eapply transport_quiet; eauto|].
  unfold transport in H.
  destruct (awaitReply s (prepare w)) as [[[r s1] w1]|] eqn:E; [|discriminate].
  destruct (awaitReply_script _ _ _ _ _ E) as [[t Ht] Hs].
  destruct r; injection H as <- <- <-; (split; [exact Hs|]); [left | right]; eauto.
Qed.

Lemma await_write_result (b : Buffer) (s : Script) (w : World Cmd Stats) o s' w' :
  await_write b s w = Some (o, s', w') ->
  quiet (port_write b w) w' /\ incl s' s /\
  (o = Returned tt \/
   exists reason t, o = Threw (Some reason) /\ In (Reply t (Failed reason)) s).
Proof.
  unfold await_write, bind. intros H.
  destruct (transport (port_write b) s w) as [[[o1 s1] w1]|] eqn:E; [|discriminate].
  apply transport_result in E. destruct E as (Hq & Hs & [(p & t & -> & Ht) | (e & t & -> & Ht)]).
  - unfold ret in H. injection H as <- <- <-. auto.
  - injection H as <- <- <-. split; [exact Hq|]. split; [exact Hs|]. right. eauto.
Qed.

Lemma waitForSettle_loop_result (fuel : nat) (br : Reader) (ms : Z) :
  forall (s : Script) (w : World Cmd Stats) o s' w',
    waitForSettle_loop fuel br ms s w = Some (o, s', w') ->
    quiet w w' /\ incl s' s /\
    (o = Returned tt \/
     exists reason t, o = Threw (Some reason) /\ In (Reply t (Failed reason)) s).
Proof.
  induction fuel as [|fuel IH]; intros s w o s' w'; cbn [waitForSettle_loop];
    [discriminate|].
  unfold bind at 1. unfold waitForLine.
  destruct (transport (fun w0 => w0) s w) as [[[o1 s1] w1]|] eqn:E; [|discriminate].
  apply transport_result in E.
  destruct E as (Hq & Hs & [(b & t & -> & Ht) | (e & t & -> & Ht)]).
  - destruct (0 <? Z.of_nat (List.length b)).
    + unfold bind, sleep.
      destruct (sleep_until (now (js w1) + 100) s1 w1) as [s2 w2] eqn:E2.
      intros H. apply IH in H. destruct H as (Hq3 & Hs3 & Ho).
      pose proof (sleep_until_quiet (now (js w1) + 100) s1 w1) as Hq2.
      pose proof (sleep_until_script (now (js w1) + 100) s1 w1) as Hs2.
      rewrite E2 in Hq2, Hs2. cbn [fst snd] in Hq2, Hs2.
      split; [eapply quiet_trans; [exact Hq|]; eapply quiet_trans; eauto|].
      split; [intros x Hx; apply Hs, Hs2, Hs3, Hx|].
      destruct Ho as [-> | (e & t' & -> & Ht')]; [now left|].
      right. exists e, t'. split; [reflexivity|]. apply Hs, Hs2, Ht'.
    + unfold ret. intros [= <- <- <-]. auto.
  - intros [= <- <- <-]. split; [exact Hq|]. split; [exact Hs|]. right. eauto.
Qed.

Lemma waitForSettle_result (br : Reader) (ms : Z) (s : Script)
    (w : World Cmd Stats) o s' w' :
  waitForSettle br ms s w = Some (o, s', w') ->
  quiet w w' /\ incl s' s /\
  (o = Returned tt \/
   exists reason t, o = Threw (Some reason) /\ In (Reply t (Failed reason)) s).
Proof. apply waitForSettle_loop_result. Qed.

Lemma waitForWelcomeString_loop_script (fuel : nat) (br : Reader) (t0 : Z) :
  forall (s : Script) (w : World Cmd Stats) o s' w',
    waitForWelcomeString_loop fuel br t0 s w = Some (o, s', w') -> incl s' s.
Proof.
  induction fuel as [|fuel IH]; intros s w o s' w'; cbn [waitForWelcomeString_loop].
  - destruct (now (js w) <? t0 + 15000); [discriminate|].
    intros [= <- <- <-]. apply incl_refl.
  - destruct (now (js w) <? t0 + 15000); [|intros [= <- <- <-]; apply incl_refl].
    unfold bind at 1. unfold try_catch. unfold bind at 1. unfold readLine.
    destruct (transport (fun w0 => w0) s w) as [[[o1 s1] w1]|] eqn:E; [|discriminate].
    apply transport_result in E. destruct E as (_ & Hs & _).
    destruct o1 as [b | e].
    + destruct (isWelcomeString (Some (toString b))).
      * unfold ret. intros [= <- <- <-]. exact Hs.
      * unfold bind, sleep, ret.
        destruct (sleep_until (now (js w1) + 100) s1 w1) as [s2 w2] eqn:E2.
        intros H. apply IH in H.
        pose proof (sleep_until_script (now (js w1) + 100) s1 w1) as Hs2.
        rewrite E2 in Hs2. cbn [fst] in Hs2.
        intros x Hx. apply Hs, Hs2, H, Hx.
    + unfold ret. intros H. apply IH in H. intros x Hx. apply Hs, H, Hx.
Qed.

Lemma session_but_refl (w : World Cmd Stats) :
  session_but [] (currentVersion (this w)) w w.
Proof.
  unfold session_but. split; [apply same_session_refl|]. now rewrite app_nil_r.
Qed.

Lemma session_but_quiet (extra : list Buffer) (v : option string)
    (w w1 w2 : World Cmd Stats) :
  session_but extra v w w1 -> quiet w1 w2 -> session_but extra v w w2.
Proof.
  intros (Hs & Hw & Hv) Hq. pose proof (quiet_same_session _ _ Hq) as Hs'.
  destruct Hq as (_ & Qv & _ & _ & _ & Qp & _).
  split; [eapply same_session_trans; eauto|]. split; congruence.
Qed.

Lemma session_but_write (extra : list Buffer) (v : option string) (b : Buffer)
    (w w1 : World Cmd Stats) :
  session_but extra v w w1 -> session_but (extra ++ [b]) v w (port_write b w1).
Proof.
  intros (Hs & Hw & Hv). unfold session_but, same_session in *. cbn.
  rewrite Hw, app_assoc. tauto.
Qed.

Lemma session_but_version (extra : list Buffer) (v v' : option string)
    (w w1 : World Cmd Stats) :
  session_but extra v w w1 -> session_but extra v' w (with_currentVersion v' w1).
Proof.
  intros (Hs & Hw & Hv). unfold session_but, same_session in *. cbn. tauto.
Qed.

(** A list is cut in one way only at its first element that is not [P]. *)
Lemma first_exception {A : Type} (P : A -> Prop) (pre pre' : list A) (x x' : A)
    (post post' : list A) :
  Forall P pre -> ~ P x -> Forall P pre' -> ~ P x' ->
  (pre ++ x :: post = pre' ++ x' :: post')%list ->
  pre = pre' /\ x = x' /\ post = post'.
Proof.
  intros Hpre Hx. revert pre'.
  induction Hpre as [|a pre Ha _ IH]; intros [|a' pre'] Hpre' Hx' E; cbn in E.
  - injection E as -> ->. auto.
  - injection E as -> _. inversion Hpre'; contradiction.
  - injection E as -> _. contradiction.
  - injection E as -> E. inversion Hpre' as [|? ? _ Hpre'']; subst.
    destruct (IH pre' Hpre'' Hx' E) as (-> & -> & ->). auto.
Qed.

(** The replies of a handshake determine the reply to the version query:
    however the replies of a script begin with those of a handshake, the
    version is the same. *)
Lemma handshake_replies_version (v v' : Buffer) (c c' rest rest' : list IOReply) :
  handshake_replies v c -> handshake_replies v' c' ->
  (c ++ rest = c' ++ rest')%list -> v = v'.
Proof.
  intros (pre & banner & settle1 & a1 & line & a2 & settle2 & -> & Hpre & Hb & Hs1 & _)
         (pre' & banner' & settle1' & a1' & line' & a2' & settle2' & -> & Hpre' & Hb' & Hs1' & _) E.
  repeat (rewrite <- ?app_assoc in E; cbn [app] in E).
  assert (Hw : forall b, isWelcomeString (Some (toString b)) = true ->
                         ~ unwelcome (Fulfilled b))
    by (unfold unwelcome; intros b H; congruence).
  assert (He : ~ unsettled (Fulfilled [])) by (unfold unsettled; congruence).
  destruct (first_exception unwelcome _ _ _ _ _ _ Hpre (Hw _ Hb) Hpre' (Hw _ Hb') E)
    as (_ & _ & E1).
  destruct (first_exception unsettled _ _ _ _ _ _ Hs1 He Hs1' He E1) as (_ & _ & E2).
  congruence.
Qed.

(** The reads of [waitForSettle], when it returns: lines that are not empty
    and then an empty one. *)
Lemma waitForSettle_loop_replies (fuel : nat) (br : Reader) (ms : Z) :
  forall (s : Script) (w : World Cmd Stats) s' w',
    waitForSettle_loop fuel br ms s w = Some (Returned tt, s', w') ->
    exists pre,
      replies_of s = (pre ++ Fulfilled [] :: replies_of s')%list /\
      Forall unsettled pre.
Proof.
  induction fuel as [|fuel IH]; intros s w s' w'; cbn [waitForSettle_loop];
    [discriminate|].
  unfold bind at 1. unfold waitForLine.
  destruct (transport (fun w0 => w0) s w) as [[[o1 s1] w1]|] eqn:E; [|discriminate].
  apply transport_replies in E.
  destruct E as [(b & -> & Hr) | (e & -> & Hr)]; [|discriminate].
  destruct b as [|x b]; cbn [List.length].
  - change (0 <? Z.of_nat 0) with false. cbv iota. unfold ret.
    intros [= <- <-]. exists []. split; [exact Hr | constructor].
  - assert (Hpos : (0 <? Z.of_nat (S (List.length b))) = true)
      by (apply Z.ltb_lt; lia).
    rewrite Hpos. unfold bind, sleep.
    pose proof (sleep_until_replies (now (js w1) + 100) s1 w1) as R2.
    destruct (sleep_until (now (js w1) + 100) s1 w1) as [s2 w2]. cbn [fst] in R2.
    intros H. apply IH in H. destruct H as (pre & Hpre & Hall).
    exists (Fulfilled (x :: b) :: pre). split.
    + rewrite Hr, <- R2, Hpre. reflexivity.
    + constructor; [cbn; discriminate | exact Hall].
Qed.

(** The reads of [waitForWelcomeString]: reads that bring no welcome line
    and, when it returns [true], the banner. *)
Lemma waitForWelcomeString_loop_replies (fuel : nat) (br : Reader) (t0 : Z) :
  forall (s : Script) (w : World Cmd Stats) found s' w',
    waitForWelcomeString_loop fuel br t0 s w = Some (Returned found, s', w') ->
    exists pre,
      Forall unwelcome pre /\
      if found : bool
      then exists b, replies_of s = (pre ++ Fulfilled b :: replies_of s')%list /\
                     isWelcomeString (Some (toString b)) = true
      else replies_of s = (pre ++ replies_of s')%list.
Proof.
  induction fuel as [|fuel IH]; intros s w found s' w';
    cbn [waitForWelcomeString_loop];
    destruct (now (js w) <? t0 + 15000);
    try (intros [= <- <- <-]; exists []; split; [constructor | reflexivity]);
    try discriminate.
  unfold bind at 1. unfold try_catch, readLine.
  unfold bind at 1.
  destruct (transport (fun w0 => w0) s w) as [[[o1 s1] w1]|] eqn:E; [|discriminate].
  apply transport_replies in E.
  destruct E as [(b & -> & Hr) | (e & -> & Hr)].
  - destruct (isWelcomeString (Some (toString b))) eqn:Hb.
    + cbn. intros [= <- <- <-]. exists []. split; [constructor|].
      exists b. split; [exact Hr | exact Hb].
    + unfold bind, ret. unfold sleep.
      pose proof (sleep_until_replies (now (js w1) + 100) s1 w1) as R2.
      destruct (sleep_until (now (js w1) + 100) s1 w1) as [s2 w2].
      cbn [fst] in R2. intros H. apply IH in H.
      destruct H as (pre & Hall & Hpre).
      exists (Fulfilled b :: pre). split; [constructor; [exact Hb | exact Hall]|].
      destruct found.
      * destruct Hpre as (b' & Hpre & Hb'). exists b'. split; [|exact Hb'].
        rewrite Hr, <- R2, Hpre. reflexivity.
      * rewrite Hr, <- R2, Hpre. reflexivity.
  - cbn. intros H. apply IH in H. destruct H as (pre & Hall & Hpre).
    exists (Failed e :: pre). split; [constructor; [exact I | exact Hall]|].
    destruct found.
    + destruct Hpre as (b' & Hpre & Hb'). exists b'. split; [|exact Hb'].
      rewrite Hr, Hpre. reflexivity.
    + rewrite Hr, Hpre. reflexivity.
Qed.

(** What a handshake that returns has read.  Without a banner: reads that
    brought no welcome line, until the detection window had passed.  With a
    banner: the replies of a complete handshake, of which the version is the
    one read right after the version query was acknowledged. *)
Lemma _initializeController_replies (br : Reader) (s : Script)
    (w : World Cmd Stats) s' w' :
  _initializeController br s w = Some (Returned tt, s', w') ->
  (quiet w w' /\ now (js w) + 15000 <= now (js w') /\
   exists pre, replies_of s = (pre ++ replies_of s')%list /\ Forall unwelcome pre) \/
  (exists v consumed,
      replies_of s = (consumed ++ replies_of s')%list /\
      handshake_replies v consumed /\
      session_but [fromString newline; fromString ("$I" ++ newline)]
        (Some (toString v)) w w').
Proof.
  unfold _initializeController. unfold bind at 1.
  destruct (waitForWelcomeString br s w) as [[[o1 s1] w1]|] eqn:E1; [|discriminate].
  pose proof (waitForWelcomeString_quiet _ _ _ _ _ _ E1) as Hq1.
  unfold waitForWelcomeString in E1.
  pose proof (waitForWelcomeString_loop_result _ _ _ _ _ _ _ _ E1) as Hres.
  destruct o1 as [found | e]; [|destruct Hres as [[Habs _] | [Habs _]]; discriminate].
  apply waitForWelcomeString_loop_replies in E1. destruct E1 as (pre & Hpre & R1).
  destruct found.
  2:{ unfold ret. intros [= <- <-]. left. split; [exact Hq1|].
      destruct Hres as [[Habs _] | [_ Hlate]]; [discriminate|].
      split; [exact Hlate|]. exists pre. auto. }
  destruct R1 as (banner & R1 & Hbanner).
  pose proof (session_but_quiet _ _ _ _ _ (session_but_refl w) Hq1) as S1.
  (* waitForSettle *)
  unfold bind at 1.
  destruct (waitForSettle br 500 s1 w1) as [[[o2 s2] w2]|] eqn:E2; [|discriminate].
  pose proof (waitForSettle_result _ _ _ _ _ _ _ E2) as (Hq2 & _ & _).
  destruct o2 as [[]|e]; [|discriminate].
  apply waitForSettle_loop_replies in E2. destruct E2 as (settle1 & R2 & Hsettle1).
  pose proof (session_but_quiet _ _ _ _ _ S1 Hq2) as S2.
  (* the newline *)
  unfold bind at 1.
  destruct (await_write (fromString newline) s2 w2) as [[[o3 s3] w3]|] eqn:E3;
    [|discriminate].
  pose proof (await_write_result _ _ _ _ _ _ E3) as (Hq3 & _ & _).
  apply await_write_replies in E3.
  destruct E3 as [(a1 & -> & R3) | (e & -> & _)]; [|discriminate].
  pose proof (session_but_quiet _ _ _ _ _
                (session_but_write _ _ (fromString newline) _ _ S2) Hq3) as S3.
  cbn [app] in S3.
  (* the line that answers it *)
  unfold bind at 1. unfold waitForLine at 1.
  destruct (transport (fun w0 => w0) s3 w3) as [[[o4 s4] w4]|] eqn:E4; [|discriminate].
  pose proof (transport_quiet _ _ _ _ _ _ E4) as Hq4.
  apply transport_replies in E4.
  destruct E4 as [(line & -> & R4) | (e & -> & _)]; [|discriminate].
  pose proof (session_but_quiet _ _ _ _ _ S3 Hq4) as S4.
  (* the version query *)
  unfold bind at 1.
  destruct (await_write (fromString ("$I" ++ newline)) s4 w4) as [[[o5 s5] w5]|] eqn:E5;
    [|discriminate].
  pose proof (await_write_result _ _ _ _ _ _ E5) as (Hq5 & _ & _).
  apply await_write_replies in E5.
  destruct E5 as [(a2 & -> & R5) | (e & -> & _)]; [|discriminate].
  pose proof (session_but_quiet _ _ _ _ _
                (session_but_write _ _ (fromString ("$I" ++ newline)) _ _ S4) Hq5) as S5.
  cbn [app] in S5.
  (* its reply *)
  unfold bind at 1. unfold waitForLine at 1.
  destruct (transport (fun w0 => w0) s5 w5) as [[[o6 s6] w6]|] eqn:E6; [|discriminate].
  pose proof (transport_quiet _ _ _ _ _ _ E6) as Hq6.
  apply transport_replies in E6.
  destruct E6 as [(v & -> & R6) | (e & -> & _)]; [|discriminate].
  pose proof (session_but_quiet _ _ _ _ _ S5 Hq6) as S6.
  (* the version, and the last wait *)
  unfold bind at 1. unfold update at 1.
  pose proof (session_but_version _ _ (Some (toString v)) _ _ S6) as S6'.
  intros E7.
  pose proof (waitForSettle_result _ _ _ _ _ _ _ E7) as (Hq7 & _ & _).
  apply waitForSettle_loop_replies in E7. destruct E7 as (settle2 & R7 & Hsettle2).
  pose proof (session_but_quiet _ _ _ _ _ S6' Hq7) as S7.
  right. exists v.
  exists (pre ++ Fulfilled banner :: settle1
          ++ Fulfilled [] :: Fulfilled a1 :: Fulfilled line
          :: Fulfilled a2 :: Fulfilled v :: settle2 ++ [Fulfilled []])%list.
  split; [|split; [|exact S7]].
  - rewrite R1, R2, R3, R4, R5, R6, R7.
    repeat (rewrite <- ?app_assoc; cbn [app]). reflexivity.
  - exists pre, banner, settle1, a1, line, a2, settle2. auto.
Qed.

(** The handshake, whatever its outcome.  Without a banner it returns after
    the detection window and has changed nothing of the session.  After a
    banner it writes a newline and the version query, in this order, and
    takes the reply to the query as the version; it fails exactly when one
    of its transport operations fails. *)
Lemma _initializeController_result (br : Reader) (s : Script)
    (w : World Cmd Stats) o s' w' :
  _initializeController br s w = Some (o, s', w') ->
  incl s' s /\
  ((o = Returned tt /\ quiet w w' /\ now (js w) + 15000 <= now (js w')) \/
   (banner_seen s /\
    ((o = Returned tt /\
      exists t b,
        In (Reply t (Fulfilled b)) s /\
        session_but [fromString newline; fromString ("$I" ++ newline)]
          (Some (toString b)) w w') \/
     (exists reason t extra v,
         o = Threw (Some reason) /\ In (Reply t (Failed reason)) s /\
         session_but extra v w w' /\
         (extra = [] \/ extra = [fromString newline] \/
          extra = [fromString newline; fromString ("$I" ++ newline)]) /\
         (v = currentVersion (this w) \/
          exists t' b, In (Reply t' (Fulfilled b)) s /\ v = Some (toString b)))))).
Proof.
  unfold _initializeController. unfold bind at 1.
  destruct (waitForWelcomeString br s w) as [[[o1 s1] w1]|] eqn:E1; [|discriminate].
  pose proof (waitForWelcomeString_quiet _ _ _ _ _ _ E1) as Hq1.
  unfold waitForWelcomeString in E1.
  pose proof (waitForWelcomeString_loop_script _ _ _ _ _ _ _ _ E1) as Hs1.
  apply waitForWelcomeString_loop_result in E1.
  destruct E1 as [[-> Hbanner] | [-> Hlate]].
  2:{ unfold ret. intros [= <- <- <-]. split; [exact Hs1|]. left. auto. }
  assert (Hb : banner_seen s) by exact Hbanner. clear Hbanner.
  pose proof (session_but_quiet _ _ _ _ _ (session_but_refl w) Hq1) as S1.
  assert (Hfail : forall reason t s0 extra v (w0 : World Cmd Stats),
             In (Reply t (Failed reason)) s0 -> incl s0 s ->
             session_but extra v w w0 ->
             (extra = [] \/ extra = [fromString newline] \/
              extra = [fromString newline; fromString ("$I" ++ newline)]) ->
             (v = currentVersion (this w) \/
              exists t' b, In (Reply t' (Fulfilled b)) s /\ v = Some (toString b)) ->
             banner_seen s /\
             ((Threw (Some reason) = Returned tt /\
               exists t b,
                 In (Reply t (Fulfilled b)) s /\
                 session_but [fromString newline; fromString ("$I" ++ newline)]
                   (Some (toString b)) w w0) \/
              (exists reason' t' extra' v',
                  @Threw unit (Some reason) = Threw (Some reason') /\
                  In (Reply t' (Failed reason')) s /\
                  session_but extra' v' w w0 /\
                  (extra' = [] \/ extra' = [fromString newline] \/
                   extra' = [fromString newline; fromString ("$I" ++ newline)]) /\
                  (v' = currentVersion (this w) \/
                   exists t' b, In (Reply t' (Fulfilled b)) s /\ v' = Some (toString b))))).
  { intros reason t s0 extra v w0 Hin Hincl Hsb Hex Hv. split; [exact Hb|]. right.
    exists reason, t, extra, v. split; [reflexivity|]. split; [apply Hincl, Hin|]. auto. }
  (* waitForSettle *)
  unfold bind at 1.
  destruct (waitForSettle br 500 s1 w1) as [[[o2 s2] w2]|] eqn:E2; [|discriminate].
  apply waitForSettle_result in E2. destruct E2 as (Hq2 & Hs2 & Ho2).
  pose proof (session_but_quiet _ _ _ _ _ S1 Hq2) as S2.
  assert (I2 : incl s2 s) by (intros x Hx; apply Hs1, Hs2, Hx).
  destruct Ho2 as [-> | (e & t & -> & Ht)].
  2:{ intros [= <- <- <-]. split; [exact I2|]. right.
      eapply (Hfail e t s1); eauto. }
  (* the newline *)
  unfold bind at 1.
  destruct (await_write (fromString newline) s2 w2) as [[[o3 s3] w3]|] eqn:E3;
    [|discriminate].
  apply await_write_result in E3. destruct E3 as (Hq3 & Hs3 & Ho3).
  pose proof (session_but_quiet _ _ _ _ _ (session_but_write _ _ (fromString newline) _ _ S2) Hq3)
    as S3.
  cbn [app] in S3.
  assert (I3 : incl s3 s) by (intros x Hx; apply I2, Hs3, Hx).
  destruct Ho3 as [-> | (e & t & -> & Ht)].
  2:{ intros [= <- <- <-]. split; [exact I3|]. right.
      eapply (Hfail e t s2); eauto. }
  (* the line that answers it *)
  unfold bind at 1. unfold waitForLine at 1.
  destruct (transport (fun w0 => w0) s3 w3) as [[[o4 s4] w4]|] eqn:E4; [|discriminate].
  apply transport_result in E4. destruct E4 as (Hq4 & Hs4 & Ho4).
  pose proof (session_but_quiet _ _ _ _ _ S3 Hq4) as S4.
  assert (I4 : incl s4 s) by (intros x Hx; apply I3, Hs4, Hx).
  destruct Ho4 as [(b4 & t4 & -> & Ht4) | (e & t & -> & Ht)].
  2:{ intros [= <- <- <-]. split; [exact I4|]. right.
      eapply (Hfail e t s3); eauto. }
  (* the version query *)
  unfold bind at 1.
  destruct (await_write (fromString ("$I" ++ newline)) s4 w4) as [[[o5 s5] w5]|] eqn:E5;
    [|discriminate].
  apply await_write_result in E5. destruct E5 as (Hq5 & Hs5 & Ho5).
  pose proof (session_but_quiet _ _ _ _ _
                (session_but_write _ _ (fromString ("$I" ++ newline)) _ _ S4) Hq5) as S5.
  cbn [app] in S5.
  assert (I5 : incl s5 s) by (intros x Hx; apply I4, Hs5, Hx).
  destruct Ho5 as [-> | (e & t & -> & Ht)].
  2:{ intros [= <- <- <-]. split; [exact I5|]. right.
      eapply (Hfail e t s4); eauto. }
  (* its reply *)
  unfold bind at 1. unfold waitForLine at 1.
  destruct (transport (fun w0 => w0) s5 w5) as [[[o6 s6] w6]|] eqn:E6; [|discriminate].
  apply transport_result in E6. destruct E6 as (Hq6 & Hs6 & Ho6).
  pose proof (session_but_quiet _ _ _ _ _ S5 Hq6) as S6.
  assert (I6 : incl s6 s) by (intros x Hx; apply I5, Hs6, Hx).
  destruct Ho6 as [(b6 & t6 & -> & Ht6) | (e & t & -> & Ht)].
  2:{ intros [= <- <- <-]. split; [exact I6|]. right.
      eapply (Hfail e t s5); eauto. }
  (* the version, and the last wait *)
  unfold bind at 1. unfold update at 1.
  pose proof (session_but_version _ _ (Some (toString b6)) _ _ S6) as S6'.
  intros E7. apply waitForSettle_result in E7. destruct E7 as (Hq7 & Hs7 & Ho7).
  pose proof (session_but_quiet _ _ _ _ _ S6' Hq7) as S7.
  split; [intros x Hx; apply I6, Hs7, Hx|]. right.
  destruct Ho7 as [-> | (e & t & -> & Ht)].
  - split; [exact Hb|]. left. split; [reflexivity|]. exists t6, b6.
    split; [apply I5, Ht6 | exact S7].
  - eapply (Hfail e t s6); eauto. right. exists t6, b6. split; [apply I5, Ht6 | reflexivity].
Qed.

Lemma _initializeController_session (br : Reader) (s : Script)
    (w : World Cmd Stats) o s' w' :
  _initializeController br s w = Some (o, s', w') ->
  same_session w w' /\ incl s' s /\
  (o = Returned tt \/
   exists reason t, o = Threw (Some reason) /\ In (Reply t (Failed reason)) s).
Proof.
  intros H. apply _initializeController_result in H.
  destruct H as (Hs & [(-> & Hq & _) | (_ & [(-> & t & b & _ & Hsb) | (e & t & ex & v & -> & Ht & Hsb & _)])]).
  - split; [now apply quiet_same_session|]. auto.
  - split; [apply Hsb|]. auto.
  - split; [apply Hsb|]. split; [exact Hs|]. right. eauto.
Qed.

Lemma In_removeReader (r x : Reader) (l : list Reader) :
  In x (filter (fun y => negb (Reader_eqb y r)) l) <-> In x l /\ x <> r.
Proof.
  rewrite filter_In. split; intros [Hin H]; (split; [exact Hin|]).
  - intros ->. assert (E : Reader_eqb r r = true) by now apply Reader_eqb_eq.
    rewrite E in H. discriminate.
  - destruct (Reader_eqb x r) eqn:E; [|reflexivity].
    apply Reader_eqb_eq in E. contradiction.
Qed.

(** X8: [hardReset] does not reopen the port or change the status.  When the
    reset operation fails, [hardReset] rejects with its reason and nothing
    else has happened.  Once the reset operation has succeeded, the
    temporary reader that [hardReset] attaches is detached again, whether
    the handshake returns or fails; the other readers stay.  It rejects only
    with the reason of a failed transport operation.  When it returns,
    either nothing was written and the version is as before, or a banner was
    seen, a newline and the version query were written and the version is
    the text of the reply that the handshake read right after the version
    query was acknowledged. *)
Theorem hardReset_outcome (s : Script) (w : World Cmd Stats)
    (o : Outcome unit) (s' : Script) (w' : World Cmd Stats) :
  hardReset s w = Some (o, s', w') ->
  let temporary := BufferedReader (nextRef (js w)) in
  status (this w') = status (this w) /\
  stats (this w') = stats (this w) /\
  isOpen (serialPort (js w')) = isOpen (serialPort (js w)) /\
  (forall r, r <> temporary ->
             (In r (readers (serialPort (js w'))) <-> In r (readers (serialPort (js w))))) /\
  (o = Returned tt \/
   exists reason t, o = Threw (Some reason) /\ In (Reply t (Failed reason)) s) /\
  (forall reason rest,
      replies_of s = Failed reason :: rest ->
      o = Threw (Some reason) /\ quiet w w' /\ replies_of s' = rest) /\
  (forall b rest,
      replies_of s = Fulfilled b :: rest ->
      ~ In temporary (readers (serialPort (js w')))) /\
  (o = Returned tt ->
   ~ In temporary (readers (serialPort (js w'))) /\
   ((currentVersion (this w') = currentVersion (this w) /\
     written (serialPort (js w')) = written (serialPort (js w))) \/
    (banner_seen s /\
     written (serialPort (js w'))
       = (written (serialPort (js w))
          ++ [fromString newline; fromString ("$I" ++ newline)])%list /\
     exists b v consumed,
       replies_of s = (Fulfilled b :: consumed ++ replies_of s')%list /\
       handshake_replies v consumed /\
       currentVersion (this w') = Some (toString v)))).
Proof.
  intros H temporary. unfold hardReset in H. unfold bind at 1 in H.
  destruct (transport (fun w0 => w0) s w) as [[[o1 s1] w1]|] eqn:E1; [|discriminate].
  pose proof (transport_replies _ _ _ _ _ _ E1) as R1.
  apply transport_result in E1. destruct E1 as (Hq1 & Hs1 & Ho1).
  pose proof (quiet_same_session _ _ Hq1) as (A1 & A2 & _ & _ & A5 & A6 & A7 & _).
  destruct Ho1 as [(b1 & t1 & -> & Ht1) | (e & t & -> & Ht)].
  2:{ injection H as <- <- <-.
      destruct R1 as [(b & Habs & _) | (e' & [= <-] & R1)]; [discriminate|].
      split; [exact A1|]. split; [exact A2|]. split; [exact A6|].
      split; [intros r _; now rewrite A7|]. split; [right; eauto|].
      split; [intros reason rest Hr; rewrite R1 in Hr; injection Hr as <- <-; auto|].
      split; [intros b rest Hr; rewrite R1 in Hr; discriminate|]. discriminate. }
  destruct R1 as [(b & [= <-] & R1) | (e' & Habs & _)]; [|discriminate].
  unfold bind at 1 in H. unfold newBufferedReader at 1 in H.
  unfold bind at 1 in H. unfold try_finally at 1 in H.
  unfold bind at 1 in H. unfold update at 1 in H.
  rewrite A5 in H. fold temporary in H.
  set (w2 := addReader temporary (with_nextRef (S (nextRef (js w))) w1)) in H.
  destruct (_initializeController temporary s1 w2) as [[[o3 s3] w3]|] eqn:E3;
    [|discriminate].
  pose proof (_initializeController_session _ _ _ _ _ _ E3) as (Hss & Hs3 & Ho3).
  pose proof (_initializeController_result _ _ _ _ _ _ E3) as (_ & Hres).
  destruct Hss as (B1 & B2 & _ & _ & _ & B6 & B7 & _).
  assert (Hrd : forall r,
             In r (readers (serialPort (js (removeReader temporary w3)))) <->
             In r (readers (serialPort (js w))) /\ r <> temporary).
  { intros r. unfold removeReader, with_port. cbn. rewrite In_removeReader, B7.
    unfold w2. cbn. rewrite A7, in_app_iff. cbn. intuition congruence. }
  assert (Hfr : status (this (removeReader temporary w3)) = status (this w) /\
                stats (this (removeReader temporary w3)) = stats (this w) /\
                isOpen (serialPort (js (removeReader temporary w3)))
                  = isOpen (serialPort (js w)) /\
                (forall r, r <> temporary ->
                           (In r (readers (serialPort (js (removeReader temporary w3)))) <->
                            In r (readers (serialPort (js w)))))).
  { cbn. rewrite B1, B2, B6. unfold w2. cbn.
    split; [exact A1|]. split; [exact A2|]. split; [exact A6|].
    intros r Hr. rewrite Hrd. tauto. }
  destruct Hfr as (F1 & F2 & F3 & F4).
  assert (Hgone : ~ In temporary (readers (serialPort (js (removeReader temporary w3)))))
    by (rewrite Hrd; tauto).
  destruct o3 as [[] | e3].
  - pose proof (_initializeController_replies _ _ _ _ _ E3) as Hrep.
    unfold ret in H. injection H as <- <- <-.
    split; [exact F1|]. split; [exact F2|]. split; [exact F3|]. split; [exact F4|].
    split; [now left|].
    split; [intros reason rest Hr; rewrite R1 in Hr; discriminate|].
    split; [intros _ _ _; exact Hgone|].
    intros _. split; [exact Hgone|].
    destruct Hrep as [(Hq & _) | (v & consumed & Hr & Hh & Hsb)].
    + left. destruct Hq as (_ & Qv & _ & _ & _ & Qp & _). cbn. rewrite Qv, Qp.
      unfold w2. cbn. destruct Hq1 as (_ & -> & _ & _ & _ & -> & _). auto.
    + right. split.
      * destruct Hres as [(_ & Hq & _) | ((tb & bb & Hinb & Hw) & _)].
        -- exfalso. destruct Hsb as (_ & Hwr & _).
           destruct Hq as (_ & _ & _ & _ & _ & Qp & _). rewrite Qp in Hwr.
           apply (f_equal (@List.length Buffer)) in Hwr.
           rewrite length_app in Hwr. cbn in Hwr. lia.
        -- exists tb, bb. split; [apply Hs1, Hinb | exact Hw].
      * destruct Hsb as (_ & Hwr & Hv). cbn. rewrite Hwr. unfold w2. cbn.
        destruct Hq1 as (_ & _ & _ & _ & _ & -> & _).
        split; [reflexivity|]. exists b1, v, consumed.
        split; [rewrite R1, Hr; reflexivity|]. split; [exact Hh | exact Hv].
  - injection H as <- <- <-.
    split; [exact F1|]. split; [exact F2|]. split; [exact F3|]. split; [exact F4|].
    split; [|split; [|split; [|discriminate]]].
    + right. destruct Ho3 as [Habs | (e & t & [= ->] & Ht)]; [discriminate|].
      exists e, t. split; [reflexivity | apply Hs1, Ht].
    + intros reason rest Hr. rewrite R1 in Hr. discriminate.
    + intros _ _ _. exact Hgone.
Qed.

Lemma connect_open_result (s : Script) (w : World Cmd Stats) o s1 w1 :
  connect_open s w = Some (o, s1, w1) ->
  incl s1 s /\
  status (this w1) = status (this w) /\
  stats (this w1) = stats (this w) /\
  readers (serialPort (js w1)) = readers (serialPort (js w)) /\
  ((o = Returned (BufferedReader (nextRef (js w))) /\
    isOpen (serialPort (js w1)) = true /\
    disconnectListeners (serialPort (js w1)) = S (disconnectListeners (serialPort (js w)))) \/
   (exists reason t, o = Threw (Some reason) /\ In (Reply t (Failed reason)) s)).
Proof.
  unfold connect_open, bind, newBufferedReader, port_open, update, ret.
  destruct (awaitReply s (with_nextRef (S (nextRef (js w))) w))
    as [[[r s2] w2]|] eqn:E; [|discriminate].
  destruct (awaitReply_script _ _ _ _ _ E) as [[t Ht] Hs].
  apply awaitReply_quiet in E. destruct E as (Qa & _ & Qc & _ & _ & Qf & _).
  cbn in Qa, Qc, Qf.
  destruct r as [b | e]; intros [= <- <- <-]; cbn; rewrite ?Qf.
  - split; [exact Hs|]. split; [exact Qa|]. split; [exact Qc|].
    split; [reflexivity|]. left. auto.
  - split; [exact Hs|]. split; [exact Qa|]. split; [exact Qc|].
    split; [reflexivity|]. right. eauto.
Qed.

Lemma connect_reset_result (br : Reader) (s : Script) (w : World Cmd Stats) o s' w' :
  connect_reset br s w = Some (o, s', w') ->
  quiet (port_write [Byte.x0c; Byte.x18] (addReader br w)) w' /\ incl s' s /\
  (o = Returned tt \/
   exists reason t, o = Threw (Some reason) /\ In (Reply t (Failed reason)) s).
Proof.
  unfold connect_reset. unfold bind at 1. unfold update at 1.
  apply await_write_result.
Qed.

(** [connect] on a closed port, whatever its outcome. *)
Lemma connect_closed_result (s : Script) (w : World Cmd Stats)
    (o : Outcome ControllerStatus) (s' : Script) (w' : World Cmd Stats) :
  isOpen (serialPort (js w)) = false ->
  connect s w = Some (o, s', w') ->
  let temporary := BufferedReader (nextRef (js w)) in
  (o = Returned CONNECTED /\
   status (this w') = CONNECTED /\
   isOpen (serialPort (js w')) = true /\
   disconnectListeners (serialPort (js w'))
     = S (disconnectListeners (serialPort (js w))) /\
   readers (serialPort (js w'))
     = (filter (fun x => negb (Reader_eqb x temporary)) (readers (serialPort (js w)))
        ++ [OnDataReader])%list) \/
  (exists reason t,
      o = Threw (Some reason) /\ In (Reply t (Failed reason)) s /\
      status (this w') = status (this w) /\
      stats (this w') = stats (this w) /\
      forall r, r <> temporary ->
                (In r (readers (serialPort (js w'))) <->
                 In r (readers (serialPort (js w))))).
Proof.
  intros Hclosed H temporary. unfold connect in H.
  unfold bind at 1 in H. unfold read at 1 in H. rewrite Hclosed in H.
  unfold bind at 1 in H. unfold bind at 1 in H.
  destruct (connect_open s w) as [[[o1 s1] w1]|] eqn:E1; [|discriminate].
  apply connect_open_result in E1.
  destruct E1 as (Hs1 & A1 & A2 & A3 & [(-> & A4 & A5) | (e & t & -> & Ht)]).
  2:{ injection H as <- <- <-. right. exists e, t.
      split; [reflexivity|]. split; [exact Ht|]. split; [exact A1|].
      split; [exact A2|]. intros r _. now rewrite A3. }
  fold temporary in H.
  unfold bind at 1 in H. unfold try_finally at 1 in H. unfold bind at 1 in H.
  destruct (connect_reset temporary s1 w1) as [[[o2 s2] w2]|] eqn:E2; [|discriminate].
  apply connect_reset_result in E2. destruct E2 as (Hq2 & Hs2 & Ho2).
  pose proof (quiet_same_session _ _ Hq2) as (B1 & B2 & _ & _ & _ & B6 & B7 & B8).
  cbn in B1, B2, B6, B7, B8.
  assert (Hrd : forall (w3 : World Cmd Stats),
             readers (serialPort (js w3)) = readers (serialPort (js w2)) ->
             readers (serialPort (js (removeReader temporary w3)))
             = filter (fun x => negb (Reader_eqb x temporary))
                 (readers (serialPort (js w)))).
  { intros w3 E. unfold removeReader, with_port. cbn. rewrite E, B7, A3.
    apply filter_app_single_out.
    assert (Er : Reader_eqb temporary temporary = true) by now apply Reader_eqb_eq.
    now rewrite Er. }
  assert (Hfail : forall e t (w3 : World Cmd Stats),
             In (Reply t (Failed e)) s ->
             status (this w3) = status (this w) ->
             stats (this w3) = stats (this w) ->
             readers (serialPort (js w3)) = readers (serialPort (js w2)) ->
             exists reason t0,
               @Threw ControllerStatus (Some e) = Threw (Some reason) /\
               In (Reply t0 (Failed reason)) s /\
               status (this (removeReader temporary w3)) = status (this w) /\
               stats (this (removeReader temporary w3)) = stats (this w) /\
               forall r, r <> temporary ->
                         (In r (readers (serialPort (js (removeReader temporary w3)))) <->
                          In r (readers (serialPort (js w))))).
  { intros e t w3 Hin Hst Hsta Hr. exists e, t.
    split; [reflexivity|]. split; [exact Hin|]. split; [exact Hst|].
    split; [exact Hsta|]. intros r Hne. rewrite (Hrd w3 Hr), In_removeReader. tauto. }
  destruct Ho2 as [-> | (e & t & -> & Ht)].
  2:{ injection H as <- <- <-. right.
      apply (Hfail e t w2); [apply Hs1, Ht | congruence | congruence | reflexivity]. }
  destruct (_initializeController temporary s2 w2) as [[[o3 s3] w3]|] eqn:E3;
    [|discriminate].
  apply _initializeController_session in E3.
  destruct E3 as ((C1 & C2 & _ & _ & _ & C6 & C7 & C8) & Hs3 & Ho3).
  destruct Ho3 as [-> | (e & t & -> & Ht)].
  2:{ injection H as <- <- <-. right.
      apply (Hfail e t w3); [apply Hs1, Hs2, Ht | congruence | congruence | exact C7]. }
  unfold bind at 1 in H. unfold update at 1 in H. unfold update at 1 in H.
  set (w5 := addReader OnDataReader (with_status CONNECTED (removeReader temporary w3))) in H.
  unfold bind at 1 in H.
  destruct (getStats s3 w5) as [[[o6 s6] w6]|] eqn:E6; [|discriminate].
  apply getStats_frame in E6.
  destruct E6 as (-> & G1 & _ & G3 & G4 & G5 & _).
  unfold read in H. injection H as <- <- <-. left.
  rewrite G1, G3, G4, G5. unfold w5. cbn.
  split; [reflexivity|]. split; [reflexivity|].
  split; [congruence|]. split; [congruence|].
  f_equal. rewrite C7, B7, A3. apply filter_app_single_out.
  assert (Er : Reader_eqb temporary temporary = true) by now apply Reader_eqb_eq.
  now rewrite Er.
Qed.

(** X9: [connect] on a closed port either returns [CONNECTED] or rejects
    with the reason of a failed transport operation.  When it returns, the
    status is [CONNECTED], the port is open, one more disconnect listener is
    registered, the temporary reader is gone and [onData] was attached
    last.  When it rejects, the status and the statistics are untouched,
    [onData] was not attached and the readers other than the temporary one
    are as before. *)
Theorem connect_closed_outcome (s : Script) (w : World Cmd Stats)
    (o : Outcome ControllerStatus) (s' : Script) (w' : World Cmd Stats) :
  isOpen (serialPort (js w)) = false ->
  connect s w = Some (o, s', w') ->
  let temporary := BufferedReader (nextRef (js w)) in
  (o = Returned CONNECTED /\
   status (this w') = CONNECTED /\
   isOpen (serialPort (js w')) = true /\
   disconnectListeners (serialPort (js w'))
     = S (disconnectListeners (serialPort (js w))) /\
   readers (serialPort (js w'))
     = (filter (fun x => negb (Reader_eqb x temporary)) (readers (serialPort (js w)))
        ++ [OnDataReader])%list) \/
  (exists reason t,
      o = Threw (Some reason) /\ In (Reply t (Failed reason)) s /\
      status (this w') = status (this w) /\
      stats (this w') = stats (this w) /\
      forall r, r <> temporary ->
                (In r (readers (serialPort (js w'))) <->
                 In r (readers (serialPort (js w))))).
Proof. apply connect_closed_result. Qed.

(** X10: on a well-formed world [getStats] always completes and never
    rejects, also when the query times out: it returns the [stats] field as
    it is afterwards.  With statistics already known, or with no version, it
    returns at once and changes nothing; and once it has returned
    statistics, every later call returns the same without contacting the
    device. *)
Theorem getStats_caches (s : Script) (w : World Cmd Stats) :
  wf w ->
  exists st s' w',
    getStats s w = Some (Returned st, s', w') /\
    st = stats (this w') /\
    (stats (this w) <> None \/ truthy (currentVersion (this w)) = false ->
     st = stats (this w) /\ s' = s /\ w' = w) /\
    (st <> None ->
     forall s2, getStats s2 w' = Some (Returned st, s2, w')).
Proof.
  intros Hwf. destruct (getStats_returns s w Hwf) as (o & s' & w' & E).
  pose proof (getStats_frame _ _ _ _ _ E) as (-> & _).
  exists (stats (this w')), s', w'.
  split; [exact E|]. split; [reflexivity|]. split.
  - intros Hidle. rewrite (getStats_idle s w Hidle) in E.
    injection E as <- <- <-. auto.
  - intros Hsome s2. apply getStats_idle. now left.
Qed.

(** X11: [waitForWelcomeString] never rejects, whatever the reads do.  It
    returns [true] only if one of the lines read was a welcome line, and
    [false] only when at least 15000 ms have passed since it was entered;
    it leaves the session as it is.  When the first line read is a welcome
    line it returns [true] as soon as that line is there. *)
Theorem waitForWelcomeString_verdict (br : Reader) (s : Script) (w : World Cmd Stats) :
  (forall o s' w',
      waitForWelcomeString br s w = Some (o, s', w') ->
      quiet w w' /\
      ((o = Returned true /\ banner_seen s) \/
       (o = Returned false /\ now (js w) + 15000 <= now (js w')))) /\
  (forall t b rest,
      s = Reply t (Fulfilled b) :: rest ->
      isWelcomeString (Some (toString b)) = true ->
      waitForWelcomeString br s w = Some (Returned true, rest, advance t w)).
Proof.
  split.
  - intros o s' w' H. split; [eapply waitForWelcomeString_quiet; eauto|].
    unfold waitForWelcomeString in H.
    apply waitForWelcomeString_loop_result in H.
    destruct H as [[-> Hb] | [-> Hl]]; [left | right]; auto.
  - intros t b rest -> Hb. unfold waitForWelcomeString.
    cbn [List.length waitForWelcomeString_loop].
    assert (Hlt : (now (js w) <? now (js w) + 15000) = true) by (apply Z.ltb_lt; lia).
    rewrite Hlt. unfold bind, try_catch, readLine, transport. cbn [awaitReply].
    rewrite Hb. reflexivity.
Qed.

(** X12: the handshake never touches the status.  It writes to the port and
    sets the version only after a welcome line was read.  When it returns,
    either it has read only lines that are no welcome line, the detection
    window has passed and the session is as it was; or it has read a banner,
    written a newline and the version query, in this order, and the version
    is the text of the reply that it read right after the version query was
    acknowledged: the replies read are, in order, reads without a welcome
    line, the banner, lines until an empty read, the acknowledgement of the
    newline, the line after it, the acknowledgement of the query, the
    version, and lines until an empty read.  The replies of the script leave
    no choice for that reply. *)
Theorem _initializeController_outcome (br : Reader) (s : Script)
    (w : World Cmd Stats) (o : Outcome unit) (s' : Script) (w' : World Cmd Stats) :
  _initializeController br s w = Some (o, s', w') ->
  status (this w') = status (this w) /\
  (written (serialPort (js w')) <> written (serialPort (js w)) \/
   currentVersion (this w') <> currentVersion (this w) -> banner_seen s) /\
  (o = Returned tt ->
   (quiet w w' /\ now (js w) + 15000 <= now (js w') /\
    exists pre, replies_of s = (pre ++ replies_of s')%list /\ Forall unwelcome pre) \/
   (exists v consumed,
       replies_of s = (consumed ++ replies_of s')%list /\
       handshake_replies v consumed /\
       written (serialPort (js w'))
         = (written (serialPort (js w))
            ++ [fromString newline; fromString ("$I" ++ newline)])%list /\
       currentVersion (this w') = Some (toString v) /\
       forall v' consumed' rest',
         handshake_replies v' consumed' ->
         replies_of s = (consumed' ++ rest')%list -> v' = v)).
Proof.
  intros H. pose proof (_initializeController_session _ _ _ _ _ _ H) as ((Hst & _) & _).
  split; [exact Hst|]. split.
  - apply _initializeController_result in H. destruct H as (_ & H).
    destruct H as [(_ & Hq & _) | (Hb & _)]; [|auto].
    destruct Hq as (_ & Qv & _ & _ & _ & Qp & _). rewrite Qv, Qp.
    intros [Hne | Hne]; now elim Hne.
  - intros ->. apply _initializeController_replies in H.
    destruct H as [H | (v & consumed & Hr & Hh & _ & Hwr & Hv)]; [now left|].
    right. exists v, consumed.
    split; [exact Hr|]. split; [exact Hh|]. split; [exact Hwr|]. split; [exact Hv|].
    intros v' consumed' rest' Hh' Hr'. rewrite Hr in Hr'.
    symmetry. exact (handshake_replies_version _ _ _ _ _ _ Hh Hh' Hr').
Qed.

(** ** No timeout before its time *)

Lemma callback_nextPromise (w w' : World Cmd Stats) :
  callback w w' -> nextPromise (js w') = nextPromise (js w).
Proof. intros [[_ [H _]] | ? ? [_ [H _]] | ? [_ [H _]]]; exact H. Qed.

Lemma routeLine_not_before (D : Z) (p : PromiseId) (line : string)
    (w : World Cmd Stats) :
  not_before D p w -> not_before D p (routeLine line w).
Proof.
  intros (Hp & Ht & Hs). pose proof (routeLine_callback line w) as Hcb.
  split; [now rewrite (callback_nextPromise _ _ Hcb)|]. split.
  - intros t Hin. apply Ht. eapply callback_timers_subset; eauto.
  - intros reason Hr. rewrite routeLine_now.
    destruct (settlement p (settled (js w))) as [o0|] eqn:E.
    + rewrite (callback_settlement_kept _ _ _ _ Hcb E) in Hr.
      injection Hr as ->. eauto.
    + destruct (routeLine_settles _ _ _ _ E Hr) as (? & ? & ? & _ & _ & _ & Habs & _).
      discriminate.
Qed.

Lemma routeLines_not_before (D : Z) (p : PromiseId) (ls : list string) :
  forall w : World Cmd Stats, not_before D p w -> not_before D p (routeLines ls w).
Proof.
  induction ls as [|l ls IH]; intros w H; [exact H|].
  change (routeLines (l :: ls) w) with (routeLines ls (routeLine l w)).
  now apply IH, routeLine_not_before.
Qed.

Lemma onData_not_before (D : Z) (p : PromiseId) (d : Buffer) (w : World Cmd Stats) :
  not_before D p w -> not_before D p (fst (onData d w)).
Proof.
  intros H. destruct (xmodemMode (this w)) eqn:Hx.
  - unfold onData. now rewrite Hx.
  - destruct (onData_spec d w Hx) as (_ & _ & _ & ->).
    apply (routeLines_not_before D p (snd (onData d w))) in H.
    exact H.
Qed.

Lemma deliver_not_before (D : Z) (p : PromiseId) (d : Buffer) (w : World Cmd Stats) :
  not_before D p w -> not_before D p (deliver d w).
Proof.
  intros H. unfold deliver. destruct (existsb _ _); [|exact H].
  now apply onData_not_before.
Qed.

Lemma fireTimer_not_before (D : Z) (p : PromiseId) (t : Timer) (w : World Cmd Stats) :
  In t (timers (js w)) ->
  not_before D p w ->
  not_before D p (fireTimer t (with_now (Z.max (now (js w)) (due t)) w)).
Proof.
  intros Hin (Hp & Ht & Hs).
  set (w0 := with_now (Z.max (now (js w)) (due t)) w).
  assert (Hin0 : In t (timers (js w0))) by exact Hin.
  pose proof (fireTimer_callback t w0 Hin0) as Hcb.
  split; [rewrite (callback_nextPromise _ _ Hcb); exact Hp|]. split.
  - intros x Hx. apply Ht. apply (callback_timers_subset _ _ _ Hcb Hx).
  - intros reason. rewrite fireTimer_now. unfold fireTimer. rewrite settled_settle.
    change (settled (js (_removeCommand (timer_command t)
                           (clearTimeout (timer_id t) w0))))
      with (settled (js w)).
    change (now (js w0)) with (Z.max (now (js w)) (due t)).
    destruct (settlement (timer_promise t) (settled (js w))) eqn:E.
    + intros Hr. apply Hs in Hr. lia.
    + rewrite settlement_app.
      destruct (settlement p (settled (js w))) eqn:E'.
      * intros [= ->]. pose proof (Hs _ eq_refl). lia.
      * cbn. destruct (Nat.eqb (timer_promise t) p) eqn:Ep; [|discriminate].
        apply Nat.eqb_eq in Ep. intros _. pose proof (Ht t Hin Ep). lia.
Qed.

Lemma advance_loop_not_before (D : Z) (p : PromiseId) (fuel : nat) (limit : Z) :
  forall w : World Cmd Stats,
    not_before D p w -> not_before D p (advance_loop fuel limit w).
Proof.
  induction fuel as [|fuel IH]; intros w H; cbn [advance_loop]; [exact H|].
  destruct (earliest (timers (js w))) as [t|] eqn:E; [|exact H].
  destruct (due t <=? limit); [|exact H].
  apply IH, fireTimer_not_before; [now apply earliest_In | exact H].
Qed.

Lemma advance_not_before (D : Z) (p : PromiseId) (limit : Z) (w : World Cmd Stats) :
  not_before D p w -> not_before D p (advance limit w).
Proof.
  intros H. apply (advance_loop_not_before D p (List.length (timers (js w))) limit) in H.
  destruct H as (Hp & Ht & Hs). unfold advance.
  split; [exact Hp|]. split; [exact Ht|].
  intros reason Hr. cbn. apply Hs in Hr. lia.
Qed.

Lemma with_now_not_before (D : Z) (p : PromiseId) (t : Z) (w : World Cmd Stats) :
  not_before D p w -> not_before D p (with_now (Z.max (now (js w)) t) w).
Proof.
  intros (Hp & Ht & Hs). split; [exact Hp|]. split; [exact Ht|].
  intros reason Hr. cbn. apply Hs in Hr. lia.
Qed.

Lemma advance_until_not_before (D : Z) (p q : PromiseId) (fuel : nat) (limit : Z) :
  forall w : World Cmd Stats,
    not_before D p w -> not_before D p (advance_until fuel q limit w).
Proof.
  induction fuel as [|fuel IH]; intros w H; cbn [advance_until];
    destruct (settlement q (settled (js w))); try exact H.
  destruct (earliest (timers (js w))) as [t|] eqn:E; [|exact H].
  destruct (due t <=? limit); [|exact H].
  apply IH, fireTimer_not_before; [now apply earliest_In | exact H].
Qed.

Lemma drainTimers_not_before (D : Z) (p q : PromiseId) (fuel : nat) :
  forall w w' : World Cmd Stats,
    drainTimers fuel q w = Some w' -> not_before D p w -> not_before D p w'.
Proof.
  induction fuel as [|fuel IH]; intros w w'; cbn [drainTimers];
    destruct (settlement q (settled (js w))); try discriminate;
    try (intros [= <-]; auto; fail).
  destruct (earliest (timers (js w))) as [t|] eqn:E; [|discriminate].
  intros H Hn. eapply IH; [exact H|].
  apply fireTimer_not_before; [now apply earliest_In | exact Hn].
Qed.

Lemma awaitSettlement_not_before (D : Z) (p q : PromiseId) (s : Script) :
  forall (w : World Cmd Stats) o s' w',
    awaitSettlement q s w = Some (o, s', w') ->
    not_before D p w -> not_before D p w'.
Proof.
  induction s as [|[t d | t r0] s IH]; intros w o s' w'; cbn [awaitSettlement];
    destruct (settlement q (settled (js w))); try (intros [= <- <- <-]; auto; fail).
  - destruct (drainTimers (List.length (timers (js w))) q w) as [w1|] eqn:E;
      [|discriminate].
    destruct (settlement q (settled (js w1))); [|discriminate].
    intros [= <- <- <-]. eapply drainTimers_not_before; eauto.
  - cbn zeta. intros H Hn.
    apply (advance_until_not_before D p q (List.length (timers (js w))) t) in Hn.
    destruct (settlement q (settled (js (advance_until _ q t w)))).
    + injection H as <- <- <-. exact Hn.
    + eapply IH; [exact H|].
      now apply deliver_not_before, with_now_not_before.
  - cbn zeta. intros H Hn.
    apply (advance_until_not_before D p q (List.length (timers (js w))) t) in Hn.
    destruct (settlement q (settled (js (advance_until _ q t w)))).
    + injection H as <- <- <-. exact Hn.
    + eapply IH; [exact H|]. now apply with_now_not_before.
Qed.

Lemma send_not_before_other (D : Z) (p : PromiseId) (c : Ref) (timeoutMs : Z)
    (w : World Cmd Stats) :
  not_before D p w -> not_before D p (fst (send c timeoutMs w)).
Proof.
  intros (Hp & Ht & Hs).
  pose proof (send_effect c timeoutMs w) as H. cbn zeta in H.
  destruct H as (_ & _ & _ & _ & Htm & _ & Hnp & Hse & Hnow & _).
  split; [rewrite Hnp; lia|]. split.
  - intros t. rewrite Htm. destruct (0 <? timeoutMs); [|apply Ht].
    rewrite in_app_iff. intros [Hin | [<- | []]]; [now apply Ht|].
    cbn. lia.
  - intros reason. rewrite Hse, Hnow. apply Hs.
Qed.

Lemma send_not_before (c : Ref) (timeoutMs : Z) (w : World Cmd Stats) :
  wf w ->
  not_before (now (js w) + timeoutMs) (snd (send c timeoutMs w))
    (fst (send c timeoutMs w)).
Proof.
  intros (Ha & Hb & _).
  pose proof (send_effect c timeoutMs w) as H. cbn zeta in H.
  destruct H as (-> & _ & _ & _ & Htm & _ & Hnp & Hse & Hnow & _).
  split; [rewrite Hnp; lia|]. split.
  - intros t. rewrite Htm.
    assert (Hold : In t (timers (js w)) -> timer_promise t = nextPromise (js w) ->
                   now (js w) + timeoutMs <= due t).
    { intros Hin E. apply Hb in Hin. lia. }
    destruct (0 <? timeoutMs); [|exact Hold].
    rewrite in_app_iff. intros [Hin | [<- | []]]; [now apply Hold|].
    cbn. lia.
  - intros reason. rewrite Hse.
    rewrite (settlement_fresh w (nextPromise (js w)) Ha (le_n _)). discriminate.
Qed.

Lemma run_not_before (D : Z) (p : PromiseId) (acts : list Activity) :
  forall w : World Cmd Stats, not_before D p w -> not_before D p (run acts w).
Proof.
  induction acts as [|a acts IH]; intros w H; [exact H|].
  change (run (a :: acts) w) with (run acts (act a w)). apply IH.
  destruct a as [d | c timeoutMs | limit]; cbn [act].
  - now apply onData_not_before.
  - now apply send_not_before_other.
  - now apply advance_not_before.
Qed.

(** X13: a command is never timed out early.  For a timeout that
    [setTimeout] honours (at most [TIMEOUT_MAX]), whatever happens after
    [send(command, timeoutMs)] (chunks arrive, other commands are sent, time
    passes), if the promise that [send] returned is found rejected, then at
    least [timeoutMs] milliseconds have passed since the call. *)
Theorem send_no_early_timeout
    (c : Ref) (timeoutMs : Z) (acts : list Activity) (w : World Cmd Stats)
    (reason : string) :
  wf w ->
  timeoutMs <= TIMEOUT_MAX ->
  let w1 := fst (send c timeoutMs w) in
  let p := snd (send c timeoutMs w) in
  settlement p (settled (js (run acts w1))) = Some (Rejected reason) ->
  now (js w) + timeoutMs <= now (js (run acts w1)).
Proof.
  intros Hwf _ w1 p Hr.
  pose proof (run_not_before _ _ acts _ (send_not_before c timeoutMs w Hwf))
    as (_ & _ & Hs).
  eapply Hs. exact Hr.
Qed.

(** ** Detecting the controller *)

Lemma drainTimers_callbacks (fuel : nat) (p : PromiseId) :
  forall w w' : World Cmd Stats, drainTimers fuel p w = Some w' -> callbacks w w'.
Proof.
  induction fuel as [|fuel IH]; intros w w'; cbn [drainTimers];
    destruct (settlement p (settled (js w))); try discriminate;
    try (intros [= <-]; apply callbacks_nil).
  destruct (earliest (timers (js w))) as [t|] eqn:E; [|discriminate].
  intros H. apply IH in H.
  eapply callbacks_trans; [apply fireNext_callbacks; exact E | exact H].
Qed.

Lemma awaitSettlement_callbacks (p : PromiseId) (s : Script) :
  forall (w : World Cmd Stats) o s' w',
    awaitSettlement p s w = Some (o, s', w') -> callbacks w w'.
Proof.
  induction s as [|[t d | t r0] s IH]; intros w o s' w'; cbn [awaitSettlement];
    destruct (settlement p (settled (js w)));
    try (intros [= <- <- <-]; apply callbacks_nil).
  - destruct (drainTimers (List.length (timers (js w))) p w) as [w1|] eqn:E;
      [|discriminate].
    destruct (settlement p (settled (js w1))); [|discriminate].
    intros [= <- <- <-]. eapply drainTimers_callbacks; eauto.
  - cbn zeta.
    pose proof (advance_until_callbacks (List.length (timers (js w))) p t w) as Hcb.
    set (w1 := advance_until _ _ t w) in *. clearbody w1.
    destruct (settlement p (settled (js w1))).
    + intros [= <- <- <-]. exact Hcb.
    + intros H. apply IH in H.
      eapply callbacks_trans; [exact Hcb|].
      apply (callbacks_cons w1 (with_now (Z.max (now (js w1)) t) w1));
        [quiet_callback|].
      eapply callbacks_trans; [apply deliver_callbacks | exact H].
  - cbn zeta.
    pose proof (advance_until_callbacks (List.length (timers (js w))) p t w) as Hcb.
    set (w1 := advance_until _ _ t w) in *. clearbody w1.
    destruct (settlement p (settled (js w1))).
    + intros [= <- <- <-]. exact Hcb.
    + intros H. apply IH in H.
      eapply callbacks_trans; [exact Hcb|].
      apply (callbacks_cons w1 (with_now (Z.max (now (js w1)) t) w1));
        [quiet_callback | exact H].
Qed.

Lemma fireNext_now (t : Timer) (w : World Cmd Stats) :
  now (js w) <= now (js (fireTimer t (with_now (Z.max (now (js w)) (due t)) w))).
Proof. rewrite fireTimer_now. cbn. lia. Qed.

Lemma advance_until_now (fuel : nat) (p : PromiseId) (limit : Z) :
  forall w : World Cmd Stats, now (js w) <= now (js (advance_until fuel p limit w)).
Proof.
  induction fuel as [|fuel IH]; intros w; cbn [advance_until];
    destruct (settlement p (settled (js w))); try lia.
  destruct (earliest (timers (js w))) as [t|]; [|lia].
  destruct (due t <=? limit); [|lia].
  etransitivity; [apply (fireNext_now t w) | apply IH].
Qed.

Lemma drainTimers_now (fuel : nat) (p : PromiseId) :
  forall w w' : World Cmd Stats,
    drainTimers fuel p w = Some w' -> now (js w) <= now (js w').
Proof.
  induction fuel as [|fuel IH]; intros w w'; cbn [drainTimers];
    destruct (settlement p (settled (js w))); try discriminate;
    try (intros [= <-]; lia).
  destruct (earliest (timers (js w))) as [t|]; [|discriminate].
  intros H. apply IH in H. pose proof (fireNext_now t w). lia.
Qed.

Lemma awaitSettlement_now (p : PromiseId) (s : Script) :
  forall (w : World Cmd Stats) o s' w',
    awaitSettlement p s w = Some (o, s', w') -> now (js w) <= now (js w').
Proof.
  induction s as [|[t d | t r0] s IH]; intros w o s' w'; cbn [awaitSettlement];
    destruct (settlement p (settled (js w)));
    try (intros [= <- <- <-]; lia).
  - destruct (drainTimers (List.length (timers (js w))) p w) as [w1|] eqn:E;
      [|discriminate].
    destruct (settlement p (settled (js w1))); [|discriminate].
    intros [= <- <- <-]. eapply drainTimers_now; eauto.
  - cbn zeta.
    pose proof (advance_until_now (List.length (timers (js w))) p t w) as Hn.
    set (w1 := advance_until _ _ t w) in *. clearbody w1.
    destruct (settlement p (settled (js w1))).
    + intros [= <- <- <-]. exact Hn.
    + intros H. apply IH in H. rewrite deliver_now in H. cbn in H. lia.
  - cbn zeta.
    pose proof (advance_until_now (List.length (timers (js w))) p t w) as Hn.
    set (w1 := advance_until _ _ t w) in *. clearbody w1.
    destruct (settlement p (settled (js w1))).
    + intros [= <- <- <-]. exact Hn.
    + intros H. apply IH in H. cbn in H. lia.
Qed.

(** What one [ping] comes to on a well-formed world. *)
Lemma ping_result (s : Script) (w : World Cmd Stats) :
  wf w ->
  exists o s' w',
    ping s w = Some (o, s', w') /\
    wf w' /\
    written (serialPort (js w'))
      = (written (serialPort (js w))
         ++ [fromString (command newPingCommand ++ newline)])%list /\
    now (js w) <= now (js w') /\
    ((o = Returned tt /\ status (this w') = CONNECTED) \/
     (o = Threw None /\ status (this w') = status (this w) /\
      now (js w) + 1000 <= now (js w'))).
Proof.
  intros Hwf.
  set (r := nextRef (js w)).
  set (w0 := with_nextRef (S r) (store r (mkObject newPingCommand None) w)).
  set (w1 := fst (send r 1000 w0)).
  set (p := snd (send r 1000 w0)).
  assert (Hwf0 : wf w0) by apply newCommand_wf, Hwf.
  assert (Hwf1 : wf w1) by apply send_wf, Hwf0.
  assert (Hping : ping s w
                  = match awaitSettlement p s w1 with
                    | None => None
                    | Some (Resolved _, s', w2) =>
                        Some (Returned tt, s', with_status CONNECTED w2)
                    | Some (Rejected _, s', w2) => Some (Threw None, s', w2)
                    end).
  { unfold ping, bind, try_catch, newCommand, await_send, update, ret, throw.
    fold r. fold w0. rewrite (surjective_pairing (send r 1000 w0)).
    fold w1. fold p.
    destruct (awaitSettlement p s w1) as [[[[c|e] s1] w3]|]; reflexivity. }
  pose proof (send_effect r 1000 w0) as H. cbn zeta in H. fold w1 in H. fold p in H.
  change (0 <? 1000) with true in H.
  destruct H as (Hp & _ & Hsame & _ & Ht & _ & _ & _ & Hnow & _ & _ & _ & Hwr).
  assert (Htimer : In (mkTimer (nextTimer (js w0)) (now (js w0) + 1000) r p)
                      (timers (js w1)))
    by (rewrite Ht, <- Hp; apply in_app_iff; right; left; reflexivity).
  destruct (awaitSettlement_settles _ s w1 Hwf1 (or_introl Htimer))
    as (o & s' & w2 & E).
  cbn [timer_promise] in E.
  pose proof (callbacks_wf _ _ (awaitSettlement_callbacks _ _ _ _ _ _ E) Hwf1) as Hwf2.
  pose proof (awaitSettlement_not_before _ p _ _ _ _ _ _ E
                (send_not_before r 1000 w0 Hwf0)) as (_ & _ & Hnb).
  pose proof (awaitSettlement_now _ _ _ _ _ _ E) as Hmono.
  rewrite Hnow in Hmono. change (now (js w0)) with (now (js w)) in Hmono, Hnb.
  pose proof (awaitSettlement_quiet _ _ _ _ _ _ E) as [Hq Hset].
  destruct Hq as (Qa & _ & _ & _ & _ & Qf & _).
  assert (Hst : status (this w2) = status (this w)).
  { rewrite Qa. destruct Hsame as (_ & _ & -> & _). reflexivity. }
  assert (Hwr2 : written (serialPort (js w2))
                 = (written (serialPort (js w))
                    ++ [fromString (command newPingCommand ++ newline)])%list).
  { rewrite Qf, Hwr. unfold w0, store, deref. cbn. unfold r. rewrite Nat.eqb_refl.
    reflexivity. }
  rewrite E in Hping. destruct o as [c | e].
  - exists (Returned tt), s', (with_status CONNECTED w2).
    split; [exact Hping|]. split; [exact Hwf2|]. split; [exact Hwr2|].
    split; [exact Hmono|]. left. auto.
  - exists (Threw None), s', w2.
    split; [exact Hping|]. split; [exact Hwf2|]. split; [exact Hwr2|].
    split; [exact Hmono|]. right. split; [reflexivity|]. split; [exact Hst|].
    eapply Hnb. exact Hset.
Qed.

Lemma _detectController_loop_result (fuel : nat) :
  forall (pingCount : Z) (s : Script) (w : World Cmd Stats),
    wf w ->
    0 <= pingCount < MAX_PING_COUNT ->
    MAX_PING_COUNT - pingCount <= Z.of_nat fuel ->
    exists o s' w' n,
      _detectController_loop fuel pingCount s w = Some (o, s', w') /\
      (1 <= n)%nat /\ Z.of_nat n <= MAX_PING_COUNT - pingCount /\
      written (serialPort (js w'))
        = (written (serialPort (js w))
           ++ repeat (fromString (command newPingCommand ++ newline)) n)%list /\
      ((o = Returned tt /\ status (this w') = CONNECTED /\
        exists s1 w1,
          unanswered (Nat.pred n) s w s1 w1 /\
          ping s1 w1 = Some (Returned tt, s', w')) \/
       (o = Threw (Some "Could not detect controller...") /\
        status (this w') = UNKNOWN_DEVICE /\
        Z.of_nat n = MAX_PING_COUNT - pingCount /\
        now (js w) + 1000 * (MAX_PING_COUNT - pingCount) <= now (js w') /\
        exists w1,
          unanswered n s w s' w1 /\ w' = with_status UNKNOWN_DEVICE w1)).
Proof.
  unfold MAX_PING_COUNT.
  induction fuel as [|fuel IH]; intros pingCount s w Hwf Hc Hfuel; [lia|].
  cbn [_detectController_loop]. unfold bind at 1. unfold try_catch.
  unfold bind at 1.
  destruct (ping_result s w Hwf)
    as (o & s1 & w1 & Hping & Hwf1 & Hwr & Hmono & [(-> & Hst) | (-> & Hst & Hlate)]);
    rewrite Hping.
  - unfold ret. exists (Returned tt), s1, w1, 1%nat.
    split; [reflexivity|]. split; [lia|]. split; [lia|]. split; [exact Hwr|].
    left. split; [reflexivity|]. split; [exact Hst|].
    exists s, w. split; [split; reflexivity | exact Hping].
  - unfold ret at 1. unfold MAX_PING_COUNT.
    destruct (10 <=? pingCount + 1) eqn:Hmax.
    + apply Z.leb_le in Hmax. unfold bind, update, throw.
      exists (Threw (Some "Could not detect controller...")), s1,
        (with_status UNKNOWN_DEVICE w1), 1%nat.
      split; [reflexivity|]. split; [lia|]. split; [lia|]. split; [exact Hwr|].
      right. split; [reflexivity|]. split; [reflexivity|]. split; [lia|].
      change (now (js (with_status UNKNOWN_DEVICE w1))) with (now (js w1)).
      split; [lia|]. exists w1. split; [|reflexivity].
      exists s1, w1. split; [exact Hping | split; reflexivity].
    + apply Z.leb_gt in Hmax.
      destruct (IH (pingCount + 1) s1 w1 Hwf1 ltac:(lia) ltac:(lia))
        as (o & s' & w' & n & E & Hn1 & Hn2 & Hwr' & Ho).
      exists o, s', w', (S n).
      split; [exact E|]. split; [lia|]. split; [lia|].
      split; [rewrite Hwr', Hwr, <- app_assoc; reflexivity|].
      destruct Ho as [(Ho & Hs & s2 & w2 & Hun & Hlast) | (Ho & Hs & Hn & Hl & w2 & Hun & Hw')].
      * left. split; [exact Ho|]. split; [exact Hs|]. exists s2, w2.
        split; [|exact Hlast]. destruct n as [|n]; [lia|]. cbn [Nat.pred] in *.
        exists s1, w1. split; [exact Hping | exact Hun].
      * right. split; [exact Ho|]. split; [exact Hs|]. split; [lia|].
        split; [lia|]. exists w2. split; [|exact Hw'].
        exists s1, w1. split; [exact Hping | exact Hun].
Qed.

(** X14: on a well-formed world [_detectController] always comes to an end,
    after at least one and at most ten pings, each of which wrote the ping
    command.  It returns exactly when a ping returns: the pings before it
    were rejected one after the other, the last one was answered, and the
    status is [CONNECTED].  It rejects with [Could not detect controller...]
    exactly when ten pings in a row were rejected, with the status
    [UNKNOWN_DEVICE] and not before 10000 ms have passed. *)
Theorem _detectController_outcome (s : Script) (w : World Cmd Stats) :
  wf w ->
  exists o s' w' n,
    _detectController s w = Some (o, s', w') /\
    (1 <= n <= 10)%nat /\
    written (serialPort (js w'))
      = (written (serialPort (js w))
         ++ repeat (fromString (command newPingCommand ++ newline)) n)%list /\
    ((o = Returned tt /\ status (this w') = CONNECTED /\
      exists s1 w1,
        unanswered (Nat.pred n) s w s1 w1 /\
        ping s1 w1 = Some (Returned tt, s', w')) \/
     (o = Threw (Some "Could not detect controller...") /\
      status (this w') = UNKNOWN_DEVICE /\
      n = 10%nat /\
      now (js w) + 10000 <= now (js w') /\
      exists w1,
        unanswered 10 s w s' w1 /\ w' = with_status UNKNOWN_DEVICE w1)).
Proof.
  intros Hwf. unfold _detectController.
  destruct (_detectController_loop_result (Z.to_nat MAX_PING_COUNT) 0 s w Hwf)
    as (o & s' & w' & n & E & Hn1 & Hn2 & Hwr & Ho);
    [unfold MAX_PING_COUNT; lia | unfold MAX_PING_COUNT; lia |].
  unfold MAX_PING_COUNT in *.
  exists o, s', w', n. split; [exact E|]. split; [lia|]. split; [exact Hwr|].
  destruct Ho as [Ho | (Ho & Hs & Hn & Hl & w1 & Hun & Hw')]; [now left|].
  assert (Hn10 : n = 10%nat) by lia.
  right. split; [exact Ho|]. split; [exact Hs|]. split; [exact Hn10|].
  split; [lia|]. exists w1. rewrite <- Hn10. auto.
Qed.

(** ** A command that is answered in time *)

Lemma routeLine_closure (line : string) (w : World Cmd Stats)
    (c : Ref) (q : list Ref) (k : OnDoneClosure) :
  commands (this w) = c :: q ->
  onDone (deref w c) = Some k ->
  settled (js (routeLine line w))
    = (if snd (appendLine line (fields (deref w c)))
       then settled_after (od_promise k) (Resolved (od_command k)) (settled (js w))
       else settled (js w)) /\
  timers (js (routeLine line w))
    = (if snd (appendLine line (fields (deref w c)))
       then match od_timer k with
            | Some tid => filter (fun t => negb (armed tid t)) (timers (js w))
            | None => timers (js w)
            end
       else timers (js w)).
Proof.
  intros Hq Hk. unfold routeLine. rewrite Hq.
  assert (Hjs : forall (b : bool) (cs : list Ref) (w1 : World Cmd Stats),
             js (if b then with_commands cs w1 else w1) = js w1)
    by (intros [] ? ?; reflexivity).
  rewrite Hjs. unfold Command_appendLine.
  destruct (appendLine line (fields (deref w c))) as [f called]. cbn [snd].
  destruct called; [|cbn; auto].
  unfold call_onDone, store, deref in *. cbn. rewrite Nat.eqb_refl. cbn.
  rewrite Hk. cbn. rewrite settled_settle.
  match goal with
  | |- context [settle ?a ?b ?x] => destruct (settle_frame a b x) as (_ & _ & Ht & _)
  end.
  rewrite Ht. unfold settled_after. destruct (od_timer k); cbn; auto.
Qed.

Lemma route_expected_closure (ls : list string) :
  forall (w : World Cmd Stats) (c : Ref) (q : list Ref) (k : OnDoneClosure),
    commands (this w) = c :: q ->
    onDone (deref w c) = Some k ->
    settlement (od_promise k) (settled (js w)) = None ->
    completes_on (fields (deref w c)) ls ->
    commands (this (routeLines ls w)) = q /\
    settled (js (routeLines ls w))
      = (settled (js w) ++ [(od_promise k, Resolved (od_command k))])%list /\
    timers (js (routeLines ls w))
      = match od_timer k with
        | Some tid => filter (fun t => negb (armed tid t)) (timers (js w))
        | None => timers (js w)
        end.
Proof.
  induction ls as [|l ls IH]; intros w c q k Hq Hk Hp Hc; [contradiction|].
  cbn [completes_on] in Hc. destruct Hc as [Hpend Hc].
  destruct (routeLine_head l w c q Hq) as (Hf & Hod & _ & Hpop & Hstay).
  destruct (routeLine_closure l w c q k Hq Hk) as (Hset & Htm).
  pose proof (notifies l (fields (deref w c)) Hpend) as Hn.
  change (routeLines (l :: ls) w) with (routeLines ls (routeLine l w)).
  destruct ls as [|l2 ls].
  - cbn [routeLines fold_left]. rewrite Hf in Hpop.
    assert (Hcalled : snd (appendLine l (fields (deref w c))) = true)
      by (apply Hn; exact Hc).
    rewrite Hcalled in Hset, Htm. unfold settled_after in Hset.
    rewrite Hp in Hset. auto.
  - pose proof (completes_on_pending _ _ Hc) as Hpend'.
    assert (Hcalled : snd (appendLine l (fields (deref w c))) = false).
    { destruct (snd (appendLine l (fields (deref w c)))); [|reflexivity].
      exfalso. apply Hpend'. apply Hn. reflexivity. }
    rewrite Hcalled in Hset, Htm. rewrite <- Hf in Hpend'.
    specialize (Hstay Hpend').
    destruct (IH (routeLine l w) c q k) as (Hq' & Hset' & Htm');
      [assumption | congruence | congruence | now rewrite Hf |].
    split; [exact Hq'|]. split; [congruence|]. rewrite Htm', Htm. reflexivity.
Qed.

(** Chunks that carry exactly the lines [ls] route exactly these lines. *)
Lemma feed_lines (chunks : list Buffer) (ls : list string) (w : World Cmd Stats) :
  xmodemMode (this w) = false ->
  buffer (this w) = "" ->
  Forall (lacks LF) ls ->
  removeCR (decoded chunks) = unlines ls ->
  fst (feed chunks w) = with_buffer "" (routeLines ls w).
Proof.
  intros Hx Hb Hlines Htext.
  destruct (feed_spec chunks w Hx) as (Hcat & Hall & Hno).
  pose proof (feed_routes chunks w Hx) as Hw.
  assert (Hsplit : snd (feed chunks w) = ls /\
                   buffer (this (fst (feed chunks w))) = "").
  { destruct chunks as [|d chunks].
    - cbn in *. split; [|exact Hb].
      symmetry. apply unlines_lacks_LF. rewrite <- Htext. exact I.
    - apply unlines_unique.
      + exact Hall.
      + apply Hno. discriminate.
      + exact Hlines.
      + exact I.
      + rewrite Hcat, Hb, Htext, append_nil_r. reflexivity. }
  destruct Hsplit as [Hls Hbuf]. rewrite Hw, Hbuf, Hls. reflexivity.
Qed.

Lemma run_settlement_kept (p : PromiseId) (o : Settlement) (acts : list Activity) :
  forall w : World Cmd Stats,
    settlement p (settled (js w)) = Some o ->
    settlement p (settled (js (run acts w))) = Some o.
Proof.
  induction acts as [|a acts IH]; intros w H; [exact H|].
  change (run (a :: acts) w) with (run acts (act a w)). apply IH.
  destruct (act_callbacks_or_send a w) as [Hcb | (c & t & ->)].
  - eapply callbacks_settlement_kept; eauto.
  - pose proof (send_effect c t w) as He. cbn zeta in He.
    destruct He as (_ & _ & _ & _ & _ & _ & _ & -> & _). exact H.
Qed.

(** X15: a command that is sent to an idle service, with a timeout that
    [setTimeout] honours (at most [TIMEOUT_MAX]), and answered before its
    deadline.  The service has no pending command and no pending timer; the
    command is sent, time passes up to a moment before the deadline, and
    chunks arrive that carry exactly the lines the command expects.  Then
    the promise is resolved with the command, the queue is empty again and
    the timeout has been cancelled: no timer is left, and whatever happens
    later the promise stays resolved. *)
Theorem send_answered_in_time
    (c : Ref) (timeoutMs limit : Z) (ls : list string) (chunks : list Buffer)
    (w : World Cmd Stats) :
  wf w ->
  xmodemMode (this w) = false ->
  buffer (this w) = "" ->
  commands (this w) = [] ->
  timers (js w) = [] ->
  completes_on (fields (deref w c)) ls ->
  Forall (lacks LF) ls ->
  removeCR (decoded chunks) = unlines ls ->
  timeoutMs <= TIMEOUT_MAX ->
  limit < now (js w) + timeoutMs ->
  let w1 := fst (send c timeoutMs w) in
  let p := snd (send c timeoutMs w) in
  let w2 := fst (feed chunks (advance limit w1)) in
  settlement p (settled (js w2)) = Some (Resolved c) /\
  commands (this w2) = [] /\
  timers (js w2) = [] /\
  forall acts, settlement p (settled (js (run acts w2))) = Some (Resolved c).
Proof.
  intros Hwf Hx Hb Hq Ht Hc Hlines Htext _ Hlimit w1 p w2.
  pose proof (send_effect c timeoutMs w) as H. cbn zeta in H.
  fold w1 in H. fold p in H.
  destruct H as (Hp & Hq1 & Hsame & Hd & Ht1 & _ & _ & Hset & Hnow & _).
  rewrite Hq in Hq1. rewrite Ht in Ht1. cbn [app] in Hq1, Ht1.
  assert (Hadv : advance limit w1 = with_now (Z.max (now (js w1)) limit) w1).
  { unfold advance. rewrite Ht1. destruct (0 <? timeoutMs); [|reflexivity].
    cbn [List.length advance_loop]. rewrite Ht1. cbn [earliest due].
    assert (E : (now (js w) + timeoutMs <=? limit) = false) by (apply Z.leb_gt; lia).
    rewrite E. reflexivity. }
  set (wA := advance limit w1) in *.
  assert (HxA : xmodemMode (this wA) = false).
  { rewrite Hadv. cbn. destruct Hsame as (_ & -> & _). exact Hx. }
  assert (HbA : buffer (this wA) = "").
  { rewrite Hadv. cbn. destruct Hsame as (-> & _). exact Hb. }
  assert (Hw2 : w2 = with_buffer "" (routeLines ls wA))
    by (apply feed_lines; assumption).
  set (k := mkClosure (if 0 <? timeoutMs then Some (nextTimer (js w)) else None) p c).
  destruct (route_expected_closure ls wA c [] k) as (Hq2 & Hs2 & Ht2).
  - rewrite Hadv. exact Hq1.
  - rewrite Hadv. unfold deref in *. cbn. rewrite Hd, Nat.eqb_refl. cbn.
    unfold k. now rewrite Hp.
  - rewrite Hadv. cbn. rewrite Hset, Hp.
    apply settlement_fresh; [apply Hwf | apply le_n].
  - rewrite Hadv. unfold deref in *. cbn. rewrite Hd, Nat.eqb_refl. exact Hc.
  - assert (Hres : settlement p (settled (js w2)) = Some (Resolved c)).
    { assert (Hnone : settlement p (settled (js wA)) = None).
      { rewrite Hadv. cbn. rewrite Hset, Hp.
        apply settlement_fresh; [apply Hwf | apply le_n]. }
      rewrite Hw2.
      change (js (with_buffer "" (routeLines ls wA))) with (js (routeLines ls wA)).
      rewrite Hs2, settlement_app, Hnone. unfold k.
      cbn [od_promise od_command settlement]. now rewrite Nat.eqb_refl. }
    split; [exact Hres|]. split; [rewrite Hw2; exact Hq2|].
    split; [|intros acts; now apply run_settlement_kept].
    rewrite Hw2.
    change (js (with_buffer "" (routeLines ls wA))) with (js (routeLines ls wA)).
    rewrite Ht2. unfold k. cbn [od_timer]. rewrite Hadv.
    change (timers (js (with_now (Z.max (now (js w1)) limit) w1)))
      with (timers (js w1)).
    rewrite Ht1. destruct (0 <? timeoutMs); [|reflexivity].
    cbn. unfold armed. cbn. now rewrite Nat.eqb_refl.
Qed.

(** ** A command object that is sent again *)

Lemma callback_orphaned (p : PromiseId) (w w' : World Cmd Stats) :
  callback w w' -> orphaned p w -> orphaned p w'.
Proof.
  intros Hcb (Hlt & Hclo & Hres).
  assert (Hsame : same_handles w w') by (destruct Hcb; assumption).
  destruct Hsame as (_ & HnP & Hsc). unfold orphaned. rewrite HnP.
  split; [exact Hlt|]. split; [intros r k; rewrite Hsc; apply Hclo|].
  intros c0. destruct Hcb as [_ _ Hs | r k _ Hk _ Hs | t _ _ _ Hs]; rewrite Hs.
  - apply Hres.
  - rewrite settlement_settled_after.
    destruct (settlement p (settled (js w))) eqn:E; [apply Hres|].
    destruct (Nat.eqb (od_promise k) p) eqn:Ep; [|discriminate].
    apply Nat.eqb_eq in Ep. now apply Hclo in Hk.
  - rewrite settlement_settled_after.
    destruct (settlement p (settled (js w))) eqn:E; [apply Hres|].
    destruct (Nat.eqb (timer_promise t) p); discriminate.
Qed.

Lemma callbacks_orphaned (p : PromiseId) (w w' : World Cmd Stats) :
  callbacks w w' -> orphaned p w -> orphaned p w'.
Proof.
  induction 1 as [|w w1 w2 Hcb _ IH]; [auto|].
  intros H. apply IH. eapply callback_orphaned; eauto.
Qed.

Lemma run_orphaned (p : PromiseId) (acts : list Activity) :
  forall w : World Cmd Stats, orphaned p w -> orphaned p (run acts w).
Proof.
  induction acts as [|a acts IH]; intros w Hinv; [exact Hinv|].
  apply (IH (act a w)).
  destruct (act_callbacks_or_send a w) as [H | (c' & t & ->)].
  - eapply callbacks_orphaned; eauto.
  - pose proof (send_effect c' t w) as H. cbn zeta in H.
    destruct H as (_ & _ & _ & Hd & _ & _ & HnP & Hset & _).
    destruct Hinv as (Hlt & Hclo & Hres). unfold orphaned. rewrite HnP, Hset.
    split; [lia|]. split; [|exact Hres].
    intros r k. rewrite Hd. destruct (Nat.eqb r c') eqn:E; [|apply Hclo].
    cbn. intros [= <-]. cbn. lia.
Qed.

Lemma run_app (acts acts' : list Activity) (w : World Cmd Stats) :
  run (acts ++ acts') w = run acts' (run acts w).
Proof. unfold run. apply fold_left_app. Qed.

(** X16: [send] overwrites the [onDone] property of the command, so a
    command object that is sent a second time, while the promise of the
    first [send] is still pending, can no longer resolve that promise:
    whatever happens afterwards, the first promise is never resolved.  If
    the first [send] had no timeout, its promise stays pending for ever. *)
Theorem resend_orphans_promise
    (c : Ref) (t1 t2 : Z) (acts0 acts : list Activity) (w : World Cmd Stats) :
  wf w ->
  let w1 := fst (send c t1 w) in
  let p1 := snd (send c t1 w) in
  settlement p1 (settled (js (run acts0 w1))) = None ->
  let w2 := fst (send c t2 (run acts0 w1)) in
  (forall c', settlement p1 (settled (js (run acts w2))) <> Some (Resolved c')) /\
  (t1 <= 0 -> settlement p1 (settled (js (run acts w2))) = None).
Proof.
  intros Hwf w1 p1 Hpend w2.
  pose proof (send_effect c t1 w) as H. cbn zeta in H.
  fold w1 in H. fold p1 in H.
  destruct H as (Hp & _ & _ & Hd & Ht & _ & HnP & Hset & _).
  assert (Hown1 : owns p1 c w1).
  { destruct Hwf as (_ & _ & _ & Hcp & _). unfold owns.
    rewrite HnP, Hp. split; [lia|]. intros r k. rewrite Hd.
    destruct (Nat.eqb r c) eqn:E.
    - apply Nat.eqb_eq in E. cbn. intros [= <-]. cbn. auto.
    - intros Hk Hpk. apply Hcp in Hk. lia. }
  destruct (run_owns p1 c acts0 w1 Hown1) as [Hlt Hown].
  assert (Horph : orphaned p1 w2).
  { pose proof (send_effect c t2 (run acts0 w1)) as H. cbn zeta in H.
    fold w2 in H. destruct H as (_ & _ & _ & Hd2 & _ & _ & HnP2 & Hset2 & _).
    unfold orphaned. rewrite HnP2, Hset2, Hpend.
    split; [lia|]. split; [|discriminate].
    intros r k. rewrite Hd2. destruct (Nat.eqb r c) eqn:E.
    - cbn. intros [= <-]. cbn. lia.
    - intros Hk Hpk. destruct (Hown r k Hk Hpk) as [-> _].
      rewrite Nat.eqb_refl in E. discriminate. }
  pose proof (run_orphaned p1 acts w2 Horph) as (_ & _ & Hres).
  split; [exact Hres|]. intros Hle.
  assert (Hnr : never_rejected p1 w1).
  { apply Z.ltb_ge in Hle. rewrite Hle in Ht. destruct Hwf as (Ha & Hb & _).
    unfold never_rejected. rewrite Ht, HnP, Hset, Hp. split; [lia|]. split.
    - intros t Hin. apply Hb in Hin. lia.
    - intros reason. rewrite settlement_fresh; [discriminate | exact Ha | lia]. }
  assert (Hall : run acts w2 = run (acts0 ++ Sends c t2 :: acts) w1).
  { rewrite run_app. reflexivity. }
  pose proof (run_never_rejected p1 (acts0 ++ Sends c t2 :: acts) w1 Hnr)
    as (_ & _ & Hrej).
  rewrite <- Hall in Hrej.
  destruct (settlement p1 (settled (js (run acts w2)))) as [[c' | reason]|] eqn:E;
    [now elim (Hres c') | now elim (Hrej reason) | reflexivity].
Qed.

(** ** How the stream is cut into chunks *)

(** What a sequence of chunks does to the service depends on the text of the
    chunks only, not on where the text is cut. *)
Lemma feed_same_text (chunks chunks' : list Buffer) (w : World Cmd Stats) :
  xmodemMode (this w) = false ->
  lacks LF (buffer (this w)) ->
  decoded chunks = decoded chunks' ->
  feed chunks w = feed chunks' w.
Proof.
  intros Hx Hclean Hsame.
  destruct (feed_spec chunks w Hx) as (Hcat & Hall & Hno).
  destruct (feed_spec chunks' w Hx) as (Hcat' & Hall' & Hno').
  rewrite <- Hsame in Hcat'.
  assert (Hb : forall cs : list Buffer,
             (cs <> [] -> lacks LF (buffer (this (fst (feed cs w))))) ->
             lacks LF (buffer (this (fst (feed cs w))))).
  { intros [|d cs] H; [exact Hclean | apply H; discriminate]. }
  destruct (unlines_unique _ _ _ _ Hall (Hb _ Hno) Hall' (Hb _ Hno'))
    as [Hls Hbuf]; [congruence|].
  rewrite (surjective_pairing (feed chunks w)), (surjective_pairing (feed chunks' w)).
  rewrite (feed_routes chunks w Hx), (feed_routes chunks' w Hx), Hls, Hbuf.
  reflexivity.
Qed.

(** ** A reply that comes too late *)

Lemma advance_single (t : Timer) (limit : Z) (w : World Cmd Stats) :
  timers (js w) = [t] ->
  due t <= limit ->
  advance limit w
  = with_now (Z.max (now (js (fireTimer t (with_now (Z.max (now (js w)) (due t)) w)))) limit)
      (fireTimer t (with_now (Z.max (now (js w)) (due t)) w)).
Proof.
  intros Ht Hdue. unfold advance. rewrite Ht. cbn [List.length advance_loop].
  rewrite Ht. cbn [earliest].
  assert (E : (due t <=? limit) = true) by (apply Z.leb_le; exact Hdue).
  rewrite E. reflexivity.
Qed.

Lemma fireTimer_settled (t : Timer) (w : World Cmd Stats) :
  settled (js (fireTimer t w))
  = settled_after (timer_promise t) (Rejected "Command timed out") (settled (js w)).
Proof. unfold fireTimer. rewrite settled_settle. reflexivity. Qed.

Lemma late_reply_routed
    (a b : Ref) (timeoutMs limit : Z) (line : string) (chunks : list Buffer)
    (w w1 w2 w3 w4 : World Cmd Stats) (pa : PromiseId) :
  wf w ->
  xmodemMode (this w) = false ->
  buffer (this w) = "" ->
  commands (this w) = [] ->
  timers (js w) = [] ->
  a <> b ->
  0 < timeoutMs ->
  now (js w) + timeoutMs <= limit ->
  lacks LF line ->
  removeCR (decoded chunks) = line ++ newline ->
  w1 = fst (send a timeoutMs w) ->
  pa = snd (send a timeoutMs w) ->
  w2 = fst (send b 0 w1) ->
  w3 = advance limit w2 ->
  w4 = fst (feed chunks w3) ->
  settlement pa (settled (js w3)) = Some (Rejected "Command timed out") /\
  commands (this w3) = [b] /\
  fields (deref w4 b) = fst (appendLine line (fields (deref w b))) /\
  fields (deref w4 a) = fields (deref w a).
Proof.
  intros Hwf Hx Hb Hq Ht Hab Hpos Hlimit Hline Htext E1 Ep E2 E3 E4.
  pose proof (send_effect a timeoutMs w) as H1. cbn zeta in H1.
  rewrite <- E1, <- Ep in H1.
  destruct H1 as (Hp1 & Hq1 & Hsame1 & Hd1 & Ht1 & _ & _ & Hset1 & Hnow1 & _).
  apply Z.ltb_lt in Hpos. rewrite Hpos, Ht in Ht1. rewrite Hq in Hq1.
  cbn [app] in Ht1, Hq1.
  pose proof (send_effect b 0 w1) as H2. cbn zeta in H2. rewrite <- E2 in H2.
  destruct H2 as (_ & Hq2 & Hsame2 & Hd2 & Ht2 & _ & _ & Hset2 & Hnow2 & _).
  change (0 <? 0) with false in Ht2, Hd2. rewrite Ht1 in Ht2. rewrite Hq1 in Hq2.
  cbn [app] in Hq2.
  remember (mkTimer (nextTimer (js w)) (now (js w) + timeoutMs) a (nextPromise (js w)))
    as t eqn:Et.
  assert (Hdue : due t <= limit) by (rewrite Et; exact Hlimit).
  assert (Htp : timer_promise t = nextPromise (js w)) by (rewrite Et; reflexivity).
  assert (Htc : timer_command t = a) by (rewrite Et; reflexivity).
  pose proof (advance_single t limit w2 Ht2 Hdue) as Hw3. rewrite <- E3 in Hw3.
  remember (fireTimer t (with_now (Z.max (now (js w2)) (due t)) w2)) as wF eqn:EF.
  assert (Hneq : Nat.eqb b a = false) by (apply Nat.eqb_neq; congruence).
  assert (Hq3 : commands (this w3) = [b]).
  { rewrite Hw3.
    change (commands (this (with_now (Z.max (now (js wF)) limit) wF)))
      with (commands (this wF)).
    rewrite EF, fireTimer_commands, Htc.
    change (commands (this (with_now (Z.max (now (js w2)) (due t)) w2)))
      with (commands (this w2)).
    rewrite Hq2. cbn [filter]. rewrite Nat.eqb_refl, Hneq. reflexivity. }
  assert (Hfresh : settlement (nextPromise (js w)) (settled (js w)) = None)
    by (apply settlement_fresh; [apply Hwf | apply le_n]).
  assert (Hrej : settlement pa (settled (js w3))
                 = Some (Rejected "Command timed out")).
  { rewrite Hp1, Hw3.
    change (settled (js (with_now (Z.max (now (js wF)) limit) wF)))
      with (settled (js wF)).
    rewrite EF, fireTimer_settled, Htp.
    change (settled (js (with_now (Z.max (now (js w2)) (due t)) w2)))
      with (settled (js w2)).
    rewrite Hset2, Hset1. unfold settled_after. rewrite Hfresh.
    rewrite settlement_app, Hfresh. cbn [settlement]. now rewrite Nat.eqb_refl. }
  destruct (advance_frozen limit w2) as (Hb3 & Hh3 & _). rewrite <- E3 in Hb3, Hh3.
  destruct (advance_quiet limit w2) as (_ & _ & _ & Hx3 & _). rewrite <- E3 in Hx3.
  assert (Hx3' : xmodemMode (this w3) = false).
  { rewrite Hx3. destruct Hsame2 as (_ & -> & _). destruct Hsame1 as (_ & -> & _).
    exact Hx. }
  assert (Hb3' : buffer (this w3) = "").
  { rewrite Hb3. destruct Hsame2 as (-> & _). destruct Hsame1 as (-> & _).
    exact Hb. }
  assert (Hw4 : w4 = with_buffer "" (routeLines [line] w3)).
  { rewrite E4.
    apply feed_lines; [exact Hx3' | exact Hb3' | repeat constructor; exact Hline |].
    rewrite Htext. reflexivity. }
  destruct (routeLine_head line w3 b [] Hq3) as (Hf & _ & Hother & _).
  assert (Hfields : forall r, fields (deref w3 r) = fields (deref w r)).
  { intros r. unfold deref. rewrite Hh3. fold (deref w2 r). rewrite Hd2.
    destruct (Nat.eqb r b) eqn:Eb.
    - apply Nat.eqb_eq in Eb. subst r. cbn [fields]. rewrite Hd1, Hneq.
      reflexivity.
    - rewrite Hd1.
      destruct (Nat.eqb r a) eqn:Ea; [apply Nat.eqb_eq in Ea; subst r|];
        reflexivity. }
  split; [exact Hrej|]. split; [exact Hq3|].
  rewrite Hw4.
  change (deref (with_buffer "" (routeLines [line] w3)))
    with (deref (routeLine line w3)).
  split.
  - rewrite Hf. now rewrite Hfields.
  - rewrite (Hother a Hab). apply Hfields.
Qed.

(** X22: replies are paired with commands by position only.  On an idle
    service a command [a] is sent with a timeout and a command [b] after it;
    [a] gets no answer and is timed out, which leaves [b] at the head of the
    queue.  A line that arrives afterwards, such as the late answer to [a],
    is then given to [b]; [a] does not see it. *)
Theorem late_reply_goes_to_next_command
    (a b : Ref) (timeoutMs limit : Z) (line : string) (chunks : list Buffer)
    (w : World Cmd Stats) :
  wf w ->
  xmodemMode (this w) = false ->
  buffer (this w) = "" ->
  commands (this w) = [] ->
  timers (js w) = [] ->
  a <> b ->
  0 < timeoutMs ->
  now (js w) + timeoutMs <= limit ->
  lacks LF line ->
  removeCR (decoded chunks) = line ++ newline ->
  let w1 := fst (send a timeoutMs w) in
  let w2 := fst (send b 0 w1) in
  let w3 := advance limit w2 in
  let w4 := fst (feed chunks w3) in
  settlement (snd (send a timeoutMs w)) (settled (js w3))
    = Some (Rejected "Command timed out") /\
  commands (this w3) = [b] /\
  fields (deref w4 b) = fst (appendLine line (fields (deref w b))) /\
  fields (deref w4 a) = fields (deref w a).
Proof.
  intros Hwf Hx Hb Hq Ht Hab Hpos Hlimit Hline Htext w1 w2 w3 w4.
  exact (late_reply_routed a b timeoutMs limit line chunks w w1 w2 w3 w4 _
           Hwf Hx Hb Hq Ht Hab Hpos Hlimit Hline Htext
           eq_refl eq_refl eq_refl eq_refl eq_refl).
Qed.

(** ** Connecting again after a failed attempt *)

Lemma connect_idle (s : Script) (w : World Cmd Stats) :
  isOpen (serialPort (js w)) = true ->
  stats (this w) <> None \/ truthy (currentVersion (this w)) = false ->
  connect s w = Some (Returned (status (this w)), s, w).
Proof.
  intros Hopen Hidle. unfold connect. unfold bind at 1. unfold read at 1.
  rewrite Hopen. unfold bind at 1. unfold ret at 1. unfold bind at 1.
  rewrite (getStats_idle s w Hidle). reflexivity.
Qed.

(** X23: a failed [connect] is not repaired by calling [connect] again.
    When [connect] on a closed port has opened the port and then failed, and
    the version is still unknown (or the statistics are known), a second
    [connect] does nothing at all: it returns at once, with the status the
    service had before the first attempt, and leaves the world as the failed
    attempt left it, with [onData] no more attached than it was. *)
Theorem connect_again_after_failure (s s2 : Script) (w : World Cmd Stats)
    (e : option string) (s' : Script) (w' : World Cmd Stats) :
  isOpen (serialPort (js w)) = false ->
  connect s w = Some (Threw e, s', w') ->
  isOpen (serialPort (js w')) = true ->
  stats (this w') <> None \/ truthy (currentVersion (this w')) = false ->
  connect s2 w' = Some (Returned (status (this w)), s2, w') /\
  (In OnDataReader (readers (serialPort (js w'))) <->
   In OnDataReader (readers (serialPort (js w)))).
Proof.
  intros Hclosed H Hopen Hidle.
  destruct (connect_closed_result s w _ _ _ Hclosed H)
    as [(Habs & _) | (reason & t & _ & _ & Hst & _ & Hrd)]; [discriminate Habs|].
  split.
  - rewrite <- Hst. apply connect_idle; assumption.
  - apply Hrd. discriminate.
Qed.

(** ** Waiting for the device to settle *)

Lemma waitForSettle_loop_stops (br : Reader) (ms : Z) (t : Z) (rest : Script)
    (lines : list (Z * Buffer)) :
  forall (fuel : nat) (w : World Cmd Stats),
    (List.length lines < fuel)%nat ->
    Forall (fun tb => snd tb <> []) lines ->
    exists w',
      waitForSettle_loop fuel br ms
        (map (fun tb => Reply (fst tb) (Fulfilled (snd tb))) lines
         ++ Reply t (Fulfilled []) :: rest)%list w
      = Some (Returned tt, rest, w') /\
      quiet w w' /\
      now (js w) + 100 * Z.of_nat (List.length lines) <= now (js w').
Proof.
  induction lines as [|[t1 b1] lines IH]; intros fuel w Hfuel Hall;
    (destruct fuel as [|fuel]; [cbn in Hfuel; lia|]).
  - cbn [map app waitForSettle_loop]. unfold bind, waitForLine, transport.
    cbn [awaitReply List.length]. change (0 <? Z.of_nat 0) with false.
    unfold ret. exists (advance t w). split; [reflexivity|].
    split; [apply advance_quiet|]. pose proof (advance_now t w).
    change (Z.of_nat (List.length (@nil (Z * Buffer)))) with 0. lia.
  - inversion Hall as [|? ? Hb Hrest]; subst. cbn [snd] in Hb.
    cbn [map app waitForSettle_loop fst snd]. unfold bind at 1.
    unfold waitForLine, transport. cbn [awaitReply].
    assert (Hpos : (0 <? Z.of_nat (List.length b1)) = true).
    { apply Z.ltb_lt. destruct b1; [contradiction | cbn; lia]. }
    rewrite Hpos. unfold bind, sleep.
    destruct lines as [|[t2 b2] lines'] eqn:El.
    + cbn [map app sleep_until].
      destruct (IH fuel (advance (now (js (advance t1 w)) + 100) (advance t1 w)))
        as (w' & E & Hq & Hn); [cbn in *; lia | constructor |].
      cbn [map app] in E. exists w'. split; [exact E|]. split.
      * eapply quiet_trans; [apply advance_quiet|].
        eapply quiet_trans; [apply advance_quiet | exact Hq].
      * pose proof (advance_now t1 w).
        pose proof (advance_now (now (js (advance t1 w)) + 100) (advance t1 w)).
        cbn [List.length] in *. lia.
    + cbn [map app sleep_until fst snd].
      destruct (IH fuel (advance (now (js (advance t1 w)) + 100) (advance t1 w)))
        as (w' & E & Hq & Hn); [cbn in *; lia | exact Hrest |].
      cbn [map app fst snd] in E. exists w'. split; [exact E|]. split.
      * eapply quiet_trans; [apply advance_quiet|].
        eapply quiet_trans; [apply advance_quiet | exact Hq].
      * pose proof (advance_now t1 w).
        pose proof (advance_now (now (js (advance t1 w)) + 100) (advance t1 w)).
        cbn [List.length] in *. lia.
Qed.

(** X24: [waitForSettle] reads lines until it reads an empty one, pausing
    100 ms after every line that is not empty.  When the device sends some
    lines that are not empty and then an empty one, it returns right after
    the empty line: it has consumed these replies and nothing behind them,
    has left the session as it was, and has taken at least 100 ms per line
    that was not empty. *)
Theorem waitForSettle_stops_at_empty_line (br : Reader) (ms : Z) (t : Z)
    (rest : Script) (lines : list (Z * Buffer)) (w : World Cmd Stats) :
  Forall (fun tb => snd tb <> []) lines ->
  exists w',
    waitForSettle br ms
      (map (fun tb => Reply (fst tb) (Fulfilled (snd tb))) lines
       ++ Reply t (Fulfilled []) :: rest)%list w
    = Some (Returned tt, rest, w') /\
    quiet w w' /\
    now (js w) + 100 * Z.of_nat (List.length lines) <= now (js w').
Proof.
  intros Hall. unfold waitForSettle.
  apply waitForSettle_loop_stops; [|exact Hall].
  rewrite length_app, length_map. cbn. lia.
Qed.

(** ** What a successful connect writes *)

Lemma connect_open_replies (s : Script) (w : World Cmd Stats) br s1 w1 :
  connect_open s w = Some (Returned br, s1, w1) ->
  exists a, replies_of s = Fulfilled a :: replies_of s1.
Proof.
  unfold connect_open, bind, newBufferedReader, port_open, update, ret.
  destruct (awaitReply s (with_nextRef (S (nextRef (js w))) w))
    as [[[r s2] w2]|] eqn:E; [|discriminate].
  apply awaitReply_replies in E. destruct r as [a|e]; [|discriminate].
  intros [= _ <- _]. eauto.
Qed.

Lemma connect_reset_replies (br : Reader) (s : Script) (w : World Cmd Stats) s' w' :
  connect_reset br s w = Some (Returned tt, s', w') ->
  exists a, replies_of s = Fulfilled a :: replies_of s'.
Proof.
  unfold connect_reset. unfold bind at 1. unfold update at 1. intros H.
  apply await_write_replies in H.
  destruct H as [(a & _ & H) | (e & Habs & _)]; [eauto | discriminate].
Qed.

(** X25: what [connect] writes to a closed port when it returns.  First the
    two control bytes 0x0c 0x18; then, only if a banner was read, a newline
    and the version query, in which case the version is the text of the
    reply read right after the version query was acknowledged (without a
    banner the version is as before); and last, only if the version is then
    known and there were no statistics, the statistics query.  Nothing else
    is written.  The replies read up to the end of the handshake are the
    acknowledgements of the opening and of the control bytes and then those
    of the handshake. *)
Theorem connect_wire_trace (s : Script) (w : World Cmd Stats)
    (st : ControllerStatus) (s' : Script) (w' : World Cmd Stats) :
  isOpen (serialPort (js w)) = false ->
  connect s w = Some (Returned st, s', w') ->
  exists handshake query,
    written (serialPort (js w'))
      = (written (serialPort (js w)) ++ [[Byte.x0c; Byte.x18]] ++ handshake ++ query)%list /\
    ((handshake = [] /\ currentVersion (this w') = currentVersion (this w)) \/
     (handshake = [fromString newline; fromString ("$I" ++ newline)] /\
      banner_seen s /\
      exists a0 a1 v consumed rest,
        replies_of s = (Fulfilled a0 :: Fulfilled a1 :: consumed ++ rest)%list /\
        handshake_replies v consumed /\
        currentVersion (this w') = Some (toString v))) /\
    (query = [] \/
     (query = [fromString (command newGetStatsCommand ++ newline)] /\
      truthy (currentVersion (this w')) = true /\
      stats (this w) = None)).
Proof.
  intros Hclosed H. unfold connect in H.
  unfold bind at 1 in H. unfold read at 1 in H. rewrite Hclosed in H.
  unfold bind at 1 in H. unfold bind at 1 in H.
  destruct (connect_open s w) as [[[o1 s1] w1]|] eqn:E1; [|discriminate].
  destruct o1 as [br|]; [|discriminate].
  pose proof (connect_open_frame _ _ _ _ _ E1) as (A1 & A2 & A3 & _).
  pose proof (connect_open_replies _ _ _ _ _ E1) as (a0 & R1).
  apply connect_open_result in E1. destruct E1 as (Hs1 & _).
  unfold bind at 1 in H. unfold try_finally at 1 in H. unfold bind at 1 in H.
  destruct (connect_reset br s1 w1) as [[[o2 s2] w2]|] eqn:E2; [|discriminate].
  destruct o2 as [[]|]; [|discriminate].
  pose proof (connect_reset_frame _ _ _ _ _ E2) as (B1 & B2 & B3).
  pose proof (connect_reset_replies _ _ _ _ _ E2) as (a1 & R2).
  apply connect_reset_result in E2. destruct E2 as (_ & Hs2 & _).
  destruct (_initializeController br s2 w2) as [[[o3 s3] w3]|] eqn:E3; [|discriminate].
  destruct o3 as [[]|]; [|discriminate].
  pose proof (_initializeController_session _ _ _ _ _ _ E3) as ((_ & C2 & _) & _).
  pose proof (_initializeController_result _ _ _ _ _ _ E3) as (_ & Hres).
  apply _initializeController_replies in E3.
  unfold bind at 1 in H. unfold update at 1 in H. unfold update at 1 in H.
  set (w5 := addReader OnDataReader (with_status CONNECTED (removeReader br w3))) in H.
  unfold bind at 1 in H.
  destruct (getStats s3 w5) as [[[o6 s6] w6]|] eqn:E6; [|discriminate].
  pose proof (getStats_frame _ _ _ _ _ E6) as (-> & _ & G2 & _ & _ & _ & G6).
  unfold read in H. injection H as <- <- <-.
  assert (Hw5 : written (serialPort (js w5)) = written (serialPort (js w3))) by reflexivity.
  assert (Hv5 : currentVersion (this w5) = currentVersion (this w3)) by reflexivity.
  assert (Hst5 : stats (this w5) = stats (this w)).
  { change (stats (this w5)) with (stats (this w3)). congruence. }
  assert (Hquery : exists query,
             written (serialPort (js w6))
               = (written (serialPort (js w3)) ++ query)%list /\
             (query = [] \/
              (query = [fromString (command newGetStatsCommand ++ newline)] /\
               truthy (currentVersion (this w6)) = true /\
               stats (this w) = None))).
  { destruct (stats (this w5)) as [x|] eqn:Ex.
    - exists []. rewrite app_nil_r.
      rewrite (getStats_idle s3 w5) in E6 by (left; congruence).
      injection E6 as _ _ <-. auto.
    - destruct (truthy (currentVersion (this w5))) eqn:Et.
      + destruct G6 as [G6 | G6].
        * exists []. rewrite app_nil_r, G6, Hw5. auto.
        * exists [fromString (command newGetStatsCommand ++ newline)].
          rewrite G6, Hw5. split; [reflexivity|]. right.
          split; [reflexivity|]. rewrite G2. split; [exact Et | congruence].
      + exists []. rewrite app_nil_r.
        rewrite (getStats_idle s3 w5) in E6 by (right; exact Et).
        injection E6 as _ _ <-. auto. }
  destruct Hquery as (query & Hwq & Hq).
  destruct E3 as [(Hquiet & _) | (v & consumed & R3 & Hh & Hsb)].
  - exists [], query. split; [|split; [left|exact Hq]].
    + destruct Hquiet as (_ & _ & _ & _ & _ & Qp & _).
      rewrite Hwq, Qp, B3, A3. cbn [app]. now rewrite <- app_assoc.
    + split; [reflexivity|]. destruct Hquiet as (_ & Qv & _).
      rewrite G2, Hv5, Qv, B1, A1. reflexivity.
  - exists [fromString newline; fromString ("$I" ++ newline)], query.
    destruct Hsb as (_ & Hwr & Hv).
    split; [|split; [right|exact Hq]].
    + rewrite Hwq, Hwr, B3, A3. rewrite <- !app_assoc. reflexivity.
    + split; [reflexivity|]. split.
      * destruct Hres as [(_ & Hquiet & _) | ((tb & bb & Hinb & Hw) & _)].
        -- exfalso. destruct Hquiet as (_ & _ & _ & _ & _ & Qp & _).
           rewrite Qp in Hwr. apply (f_equal (@List.length Buffer)) in Hwr.
           rewrite length_app in Hwr. cbn in Hwr. lia.
        -- exists tb, bb. split; [apply Hs1, Hs2, Hinb | exact Hw].
      * exists a0, a1, v, consumed, (replies_of s3).
        split; [rewrite R1, R2, R3; reflexivity|].
        split; [exact Hh|]. rewrite G2, Hv5. exact Hv.
Qed.

(** ** No timer is left behind *)

Lemma callback_sole_timer (t0 : Timer) (w w' : World Cmd Stats) :
  callback w w' -> sole_timer t0 w -> sole_timer t0 w'.
Proof.
  intros Hcb (Hpend & Hclo & Hone).
  assert (Hsame : same_handles w w') by (destruct Hcb; assumption).
  destruct Hsame as (_ & _ & Hsc).
  assert (Hsub : forall t, In t (timers (js w')) -> In t (timers (js w)))
    by (intros t; apply callback_timers_subset; exact Hcb).
  split; [|split].
  - intros Hin. pose proof (Hpend (Hsub _ Hin)) as Hnone.
    destruct Hcb as [_ _ Hs | r k _ Hk Ht Hs | t _ Hint Ht Hs]; rewrite Hs.
    + exact Hnone.
    + rewrite settlement_settled_after, Hnone.
      destruct (Nat.eqb (od_promise k) (timer_promise t0)) eqn:E; [|reflexivity].
      apply Nat.eqb_eq in E. rewrite (Hclo r k Hk E) in Ht.
      rewrite Ht in Hin. apply filter_In in Hin. destruct Hin as [_ Hin].
      unfold armed in Hin. rewrite Nat.eqb_refl in Hin. discriminate.
    + rewrite settlement_settled_after, Hnone.
      destruct (Nat.eqb (timer_promise t) (timer_promise t0)) eqn:E; [|reflexivity].
      apply Nat.eqb_eq in E. pose proof (Hone t Hint E) as Hid.
      rewrite Ht in Hin. apply filter_In in Hin. destruct Hin as [_ Hin].
      unfold armed in Hin. rewrite Hid, Nat.eqb_refl in Hin. discriminate.
  - intros r k. rewrite Hsc. apply Hclo.
  - intros t Hin. apply Hone, Hsub, Hin.
Qed.

Lemma callbacks_sole_timer (t0 : Timer) (w w' : World Cmd Stats) :
  callbacks w w' -> sole_timer t0 w -> sole_timer t0 w'.
Proof.
  induction 1 as [|w w1 w2 Hcb _ IH]; [auto|].
  intros H. apply IH. eapply callback_sole_timer; eauto.
Qed.

Lemma callbacks_timers_subset (w w' : World Cmd Stats) (t : Timer) :
  callbacks w w' -> In t (timers (js w')) -> In t (timers (js w)).
Proof.
  induction 1 as [|w w1 w2 Hcb _ IH]; [auto|].
  intros H. eapply callback_timers_subset; eauto.
Qed.

Lemma send_sole_timer (c : Ref) (timeoutMs : Z) (w : World Cmd Stats) :
  wf w ->
  0 < timeoutMs ->
  sole_timer (mkTimer (nextTimer (js w)) (now (js w) + timeoutMs) c (nextPromise (js w)))
    (fst (send c timeoutMs w)).
Proof.
  intros (Ha & Hb & _ & Hcp & _) Hpos.
  pose proof (send_effect c timeoutMs w) as H. cbn zeta in H.
  destruct H as (_ & _ & _ & Hd & Ht & _ & _ & Hset & _).
  apply Z.ltb_lt in Hpos. rewrite Hpos in Ht, Hd.
  split; [|split]; cbn [timer_promise timer_id].
  - intros _. rewrite Hset. apply settlement_fresh; [exact Ha | apply le_n].
  - intros r k. rewrite Hd. destruct (Nat.eqb r c).
    + cbn. intros [= <-]. reflexivity.
    + intros Hk Hp. apply Hcp in Hk. lia.
  - intros t. rewrite Ht, in_app_iff. intros [Hin | [<- | []]]; [|reflexivity].
    intros Hp. apply Hb in Hin. lia.
Qed.

(** An awaited [send] leaves no timer behind. *)
Lemma await_send_no_leak (c : Ref) (timeoutMs : Z) (s : Script)
    (w : World Cmd Stats) o s' w' :
  wf w ->
  await_send c timeoutMs s w = Some (o, s', w') ->
  incl (timers (js w')) (timers (js w)) /\ wf w'.
Proof.
  intros Hwf. unfold await_send.
  rewrite (surjective_pairing (send c timeoutMs w)).
  pose proof (send_effect c timeoutMs w) as H. cbn zeta in H.
  destruct H as (Hp & _ & _ & _ & Ht & _).
  destruct (awaitSettlement (snd (send c timeoutMs w)) s (fst (send c timeoutMs w)))
    as [[[o1 s1] w1]|] eqn:E; [|discriminate].
  intros Hres.
  assert (Hw : w' = w1) by (destruct o1; injection Hres as _ _ <-; reflexivity).
  subst w'. clear Hres.
  pose proof (awaitSettlement_callbacks _ _ _ _ _ _ E) as Hcb.
  split; [|eapply callbacks_wf; [exact Hcb | apply send_wf, Hwf]].
  intros t Hin. pose proof (callbacks_timers_subset _ _ _ Hcb Hin) as Hin1.
  rewrite Ht in Hin1. destruct (0 <? timeoutMs) eqn:Hpos; [|exact Hin1].
  apply in_app_iff in Hin1. destruct Hin1 as [Hold | [<- | []]]; [exact Hold|].
  exfalso. apply Z.ltb_lt in Hpos.
  destruct (callbacks_sole_timer _ _ _ Hcb (send_sole_timer c timeoutMs w Hwf Hpos))
    as (Hpend & _).
  specialize (Hpend Hin). cbn [timer_promise] in Hpend.
  apply awaitSettlement_quiet in E. destruct E as [_ Hset].
  rewrite Hp in Hset. congruence.
Qed.

Lemma ping_no_leak (s : Script) (w : World Cmd Stats) o s' w' :
  wf w ->
  ping s w = Some (o, s', w') ->
  incl (timers (js w')) (timers (js w)) /\ wf w'.
Proof.
  intros Hwf. unfold ping. unfold bind at 1. unfold newCommand at 1.
  set (w0 := with_nextRef (S (nextRef (js w)))
               (store (nextRef (js w)) (mkObject newPingCommand None) w)).
  assert (Hwf0 : wf w0) by apply newCommand_wf, Hwf.
  unfold try_catch. unfold bind at 1.
  destruct (await_send (nextRef (js w)) 1000 s w0) as [[[o1 s1] w1]|] eqn:E;
    [|discriminate].
  destruct (await_send_no_leak _ _ _ _ _ _ _ Hwf0 E) as [Hincl Hwf1].
  destruct o1 as [c|e].
  - unfold bind, update, ret. intros [= <- <- <-]. split; [exact Hincl | exact Hwf1].
  - unfold throw. intros [= <- <- <-]. split; [exact Hincl | exact Hwf1].
Qed.

Lemma _detectController_loop_no_leak (fuel : nat) :
  forall (pingCount : Z) (s : Script) (w : World Cmd Stats) o s' w',
    wf w ->
    _detectController_loop fuel pingCount s w = Some (o, s', w') ->
    incl (timers (js w')) (timers (js w)).
Proof.
  induction fuel as [|fuel IH]; intros pingCount s w o s' w' Hwf;
    cbn [_detectController_loop]; [discriminate|].
  unfold bind at 1. unfold try_catch. unfold bind at 1.
  destruct (ping s w) as [[[o1 s1] w1]|] eqn:E; [|discriminate].
  destruct (ping_no_leak _ _ _ _ _ Hwf E) as [Hincl Hwf1].
  destruct o1 as [[]|e].
  - unfold ret. intros [= <- <- <-]. exact Hincl.
  - unfold ret at 1. destruct (MAX_PING_COUNT <=? pingCount + 1).
    + unfold bind, update, throw. intros [= <- <- <-]. exact Hincl.
    + intros H. apply IH in H; [|exact Hwf1].
      eapply incl_tran; eauto.
Qed.

(** X26: the functions that await a command leave no timer behind.  On a
    well-formed world, whether the command was answered or timed out, every
    timer that is pending when [ping], [getStats] or [_detectController]
    completes was already pending when it was called. *)
Theorem awaited_commands_leave_no_timer (s : Script) (w : World Cmd Stats) :
  wf w ->
  (forall o s' w',
      ping s w = Some (o, s', w') -> incl (timers (js w')) (timers (js w))) /\
  (forall o s' w',
      getStats s w = Some (o, s', w') -> incl (timers (js w')) (timers (js w))) /\
  (forall o s' w',
      _detectController s w = Some (o, s', w') ->
      incl (timers (js w')) (timers (js w))).
Proof.
  intros Hwf. split; [|split].
  - intros o s' w' H. apply (ping_no_leak _ _ _ _ _ Hwf H).
  - intros o s' w'. unfold getStats. unfold bind at 1. unfold read at 1.
    destruct (match stats (this w) with
              | Some _ => false
              | None => truthy (currentVersion (this w))
              end).
    + unfold bind at 1. unfold try_catch. unfold bind at 1. unfold newCommand at 1.
      set (w0 := with_nextRef (S (nextRef (js w)))
                   (store (nextRef (js w)) (mkObject newGetStatsCommand None) w)).
      assert (Hwf0 : wf w0) by apply newCommand_wf, Hwf.
      unfold bind at 1.
      destruct (await_send (nextRef (js w)) 5000 s w0) as [[[o1 s1] w1]|] eqn:E;
        [|discriminate].
      destruct (await_send_no_leak _ _ _ _ _ _ _ Hwf0 E) as [Hincl _].
      destruct o1 as [c|e].
      * unfold update, ret, read. intros [= <- <- <-]. exact Hincl.
      * unfold ret, read. intros [= <- <- <-]. exact Hincl.
    + unfold bind, ret, read. intros [= <- <- <-]. apply incl_refl.
  - intros o s' w' H. unfold _detectController in H.
    eapply _detectController_loop_no_leak; eauto.
Qed.

(** ** Who touches the transfer flag *)

Lemma same_flags_trans (w w1 w2 : World Cmd Stats) :
  same_flags w w1 -> same_flags w1 w2 -> same_flags w w2.
Proof. unfold same_flags. intros [A B] [C D]. split; congruence. Qed.

Lemma quiet_same_flags (w w' : World Cmd Stats) : quiet w w' -> same_flags w w'.
Proof. intros (_ & _ & _ & A & B & _). split; assumption. Qed.

Lemma await_send_flags (c : Ref) (timeoutMs : Z) (s : Script)
    (w : World Cmd Stats) o s' w' :
  await_send c timeoutMs s w = Some (o, s', w') -> same_flags w w'.
Proof.
  unfold await_send. rewrite (surjective_pairing (send c timeoutMs w)).
  pose proof (send_effect c timeoutMs w) as H. cbn zeta in H.
  destruct H as (_ & _ & (_ & Hx & _ & _ & Hl & _) & _).
  destruct (awaitSettlement (snd (send c timeoutMs w)) s (fst (send c timeoutMs w)))
    as [[[o1 s1] w1]|] eqn:E; [|discriminate].
  apply awaitSettlement_quiet in E. destruct E as [Hq _].
  apply quiet_same_flags in Hq. destruct Hq as [Qx Ql].
  intros Hres. assert (Hw : w' = w1) by (destruct o1; injection Hres as _ _ <-; reflexivity).
  subst w'. split; congruence.
Qed.

Lemma ping_flags (s : Script) (w : World Cmd Stats) o s' w' :
  ping s w = Some (o, s', w') -> same_flags w w'.
Proof.
  unfold ping. unfold bind at 1. unfold newCommand at 1.
  unfold try_catch. unfold bind at 1.
  match goal with
  | |- context [await_send ?c ?t s ?w0] =>
      destruct (await_send c t s w0) as [[[o1 s1] w1]|] eqn:E; [|discriminate]
  end.
  apply await_send_flags in E. destruct E as [Ex El]. cbn in Ex, El.
  destruct o1 as [c|e].
  - unfold bind, update, ret. intros [= <- <- <-]. split; assumption.
  - unfold throw. intros [= <- <- <-]. split; assumption.
Qed.

Lemma getStats_flags (s : Script) (w : World Cmd Stats) o s' w' :
  getStats s w = Some (o, s', w') -> same_flags w w'.
Proof.
  unfold getStats. unfold bind at 1. unfold read at 1.
  destruct (match stats (this w) with
            | Some _ => false
            | None => truthy (currentVersion (this w))
            end).
  - unfold bind at 1. unfold try_catch. unfold bind at 1. unfold newCommand at 1.
    unfold bind at 1.
    match goal with
    | |- context [await_send ?c ?t s ?w0] =>
        destruct (await_send c t s w0) as [[[o1 s1] w1]|] eqn:E; [|discriminate]
    end.
    apply await_send_flags in E. destruct E as [Ex El]. cbn in Ex, El.
    destruct o1 as [c|e].
    + unfold update, ret, read. intros [= <- <- <-]. split; assumption.
    + unfold ret, read. intros [= <- <- <-]. split; assumption.
  - unfold bind, ret, read. intros [= <- <- <-]. split; reflexivity.
Qed.

Lemma _detectController_loop_flags (fuel : nat) :
  forall (pingCount : Z) (s : Script) (w : World Cmd Stats) o s' w',
    _detectController_loop fuel pingCount s w = Some (o, s', w') -> same_flags w w'.
Proof.
  induction fuel as [|fuel IH]; intros pingCount s w o s' w';
    cbn [_detectController_loop]; [discriminate|].
  unfold bind at 1. unfold try_catch. unfold bind at 1.
  destruct (ping s w) as [[[o1 s1] w1]|] eqn:E; [|discriminate].
  apply ping_flags in E.
  destruct o1 as [[]|e].
  - unfold ret. intros [= <- <- <-]. exact E.
  - unfold ret at 1. destruct (MAX_PING_COUNT <=? pingCount + 1).
    + unfold bind, update, throw. intros [= <- <- <-]. exact E.
    + intros H. apply IH in H. eapply same_flags_trans; eauto.
Qed.

Lemma _initializeController_flags (br : Reader) (s : Script)
    (w : World Cmd Stats) o s' w' :
  _initializeController br s w = Some (o, s', w') -> same_flags w w'.
Proof.
  intros H. apply _initializeController_session in H.
  destruct H as ((_ & _ & A & B & _) & _). split; assumption.
Qed.

(** X27: only the two file transfers touch the transfer flag.  Whatever
    their outcome, [connect], [hardReset], [getStats], [ping],
    [_detectController] and [disconnect] leave [xmodemMode] and the list of
    status listeners as they found them. *)
Theorem transfer_flag_untouched (s : Script) (w : World Cmd Stats) :
  (forall o s' w', connect s w = Some (o, s', w') -> same_flags w w') /\
  (forall o s' w', hardReset s w = Some (o, s', w') -> same_flags w w') /\
  (forall o s' w', getStats s w = Some (o, s', w') -> same_flags w w') /\
  (forall o s' w', ping s w = Some (o, s', w') -> same_flags w w') /\
  (forall o s' w', _detectController s w = Some (o, s', w') -> same_flags w w') /\
  (forall notify o s' w',
      snd (disconnect notify s w) = Some (o, s', w') -> same_flags w w').
Proof.
  split; [|split; [|split; [|split; [|split]]]].
  - intros o s' w'. unfold connect. unfold bind at 1. unfold read at 1.
    assert (Hbody : forall (w5 : World Cmd Stats) s5,
               same_flags w w5 ->
               bind getStats (fun _ => read (fun w0 => status (this w0))) s5 w5
               = Some (o, s', w') -> same_flags w w').
    { intros w5 s5 H5. unfold bind.
      destruct (getStats s5 w5) as [[[o6 s6] w6]|] eqn:E6; [|discriminate].
      pose proof (getStats_frame _ _ _ _ _ E6) as (-> & _).
      apply getStats_flags in E6. unfold read. intros [= <- <- <-].
      eapply same_flags_trans; eauto. }
    destruct (isOpen (serialPort (js w))).
    + unfold bind at 1. unfold ret at 1. apply Hbody. split; reflexivity.
    + unfold bind at 1. unfold bind at 1.
      destruct (connect_open s w) as [[[o1 s1] w1]|] eqn:E1; [|discriminate].
      assert (F1 : same_flags w w1).
      { unfold connect_open, bind, newBufferedReader, port_open, update, ret in E1.
        destruct (awaitReply s (with_nextRef (S (nextRef (js w))) w))
          as [[[r s2] w2]|] eqn:E; [|discriminate].
        apply awaitReply_quiet, quiet_same_flags in E. destruct E as [Ex El].
        destruct r; injection E1 as _ _ <-; split; assumption. }
      destruct o1 as [br|]; [|intros [= <- <- <-]; exact F1].
      unfold bind at 1. unfold try_finally at 1. unfold bind at 1.
      destruct (connect_reset br s1 w1) as [[[o2 s2] w2]|] eqn:E2; [|discriminate].
      apply connect_reset_result in E2. destruct E2 as (Hq2 & _).
      apply quiet_same_flags in Hq2.
      assert (F2 : same_flags w w2)
        by (destruct F1, Hq2; split; cbn in *; congruence).
      destruct o2 as [[]|]; [|intros [= <- <- <-]; exact F2].
      destruct (_initializeController br s2 w2) as [[[o3 s3] w3]|] eqn:E3;
        [|discriminate].
      apply _initializeController_flags in E3.
      assert (F3 : same_flags w w3) by (eapply same_flags_trans; eauto).
      destruct o3 as [[]|]; [|intros [= <- <- <-]; exact F3].
      unfold bind at 1. unfold update at 1. unfold update at 1.
      apply Hbody. exact F3.
  - intros o s' w'. unfold hardReset. unfold bind at 1.
    destruct (transport (fun w0 => w0) s w) as [[[o1 s1] w1]|] eqn:E1; [|discriminate].
    apply transport_quiet, quiet_same_flags in E1.
    destruct o1 as [b|]; [|intros [= <- <- <-]; exact E1].
    unfold bind at 1. unfold newBufferedReader at 1.
    unfold bind at 1. unfold try_finally at 1.
    unfold bind at 1. unfold update at 1.
    match goal with
    | |- context [_initializeController ?br s1 ?w2] =>
        destruct (_initializeController br s1 w2) as [[[o3 s3] w3]|] eqn:E3;
          [|discriminate]
    end.
    apply _initializeController_flags in E3.
    assert (F3 : same_flags w w3)
      by (destruct E1, E3; split; cbn in *; congruence).
    destruct o3 as [[]|]; [unfold ret|]; intros [= <- <- <-]; exact F3.
  - intros o s' w'. apply getStats_flags.
  - intros o s' w'. apply ping_flags.
  - intros o s' w'. apply _detectController_loop_flags.
  - intros notify o s' w'. unfold disconnect. cbn [snd]. unfold port_close.
    destruct (awaitReply s (removeReader OnDataReader w)) as [[[r s1] w1]|] eqn:E;
      [|discriminate].
    apply awaitReply_quiet, quiet_same_flags in E. destruct E as [Ex El].
    destruct r; intros [= <- <- <-]; split; assumption.
Qed.

End ControllerProperties.

(** * The byte stream, as the program decodes it *)

Section Utf8Stream.

Context {Cmd Stats : Type} {commandClass : CommandClass Cmd Stats}.

Import Utf8.

#[local] Existing Instance utf8.

Lemma decoder_run_app (a b : Buffer) :
  forall st : option Partial,
    run st (a ++ b)
    = (fst (run st a) ++ fst (run (snd (run st a)) b),
       snd (run (snd (run st a)) b)).
Proof.
  induction a as [|x a IH]; intros st; cbn [run app fst snd].
  - now destruct (run st b).
  - destruct (step st x) as [o1 st1]. rewrite IH.
    destruct (run st1 a) as [o2 st2]. cbn [fst snd].
    now rewrite append_assoc.
Qed.

(** A buffer that does not end inside a character is decoded on its own as
    it is decoded at the head of a longer one. *)
Lemma decode_app (a b : Buffer) :
  ends_on_boundary a = true -> decode (a ++ b) = decode a ++ decode b.
Proof.
  unfold ends_on_boundary, decode. rewrite decoder_run_app.
  destruct (run None a) as [o1 [p|]]; [discriminate|]. intros _.
  cbn [fst snd flush]. destruct (run None b) as [o2 st2]. cbn [fst snd].
  now rewrite append_nil_r, append_assoc.
Qed.

Lemma decoded_whole (chunks : list Buffer) :
  Forall (fun d => ends_on_boundary d = true) chunks ->
  decoded chunks = toString (List.concat chunks).
Proof.
  induction 1 as [|d chunks Hd _ IH]; [reflexivity|].
  cbn [decoded List.concat]. rewrite IH. symmetry. exact (decode_app _ _ Hd).
Qed.

(** A buffer of ASCII bytes ends on a character boundary. *)
Lemma ascii_ends_on_boundary (d : Buffer) :
  Forall (fun b => code b <= 127) d -> ends_on_boundary d = true.
Proof.
  unfold ends_on_boundary. induction 1 as [|b d Hb _ IH]; [reflexivity|].
  cbn [run step]. unfold start. apply Z.leb_le in Hb. rewrite Hb.
  destruct (run None d) as [o st]. exact IH.
Qed.

(** C1: the program decodes every chunk on its own ([data.toString()], UTF-8).
    For every sequence of chunks fed to [onData] outside a binary transfer,
    the lines split off, each followed by its newline, and then the retained
    buffer spell the buffer held before followed by the texts of the chunks
    with all carriage returns removed.  Where no chunk ends inside a
    character of several bytes, as is the case when all bytes are ASCII,
    those texts are the text of the concatenated chunks.  No line holds a
    newline, and once a chunk has been fed the
    retained buffer holds none either: it is the text after the last
    newline.  On a buffer without a carriage return, no line and no retained
    buffer holds one.  A chunk without a newline, arriving on a buffer without
    one, is retained whole and no line is split off. *)
Theorem onData_reassembles_stream (chunks : list Buffer) (w : World Cmd Stats) :
  xmodemMode (this w) = false ->
  unlines (snd (feed chunks w)) ++ buffer (this (fst (feed chunks w)))
    = buffer (this w) ++ without_CR (decoded chunks) /\
  (Forall (fun d => ends_on_boundary d = true) chunks ->
   unlines (snd (feed chunks w)) ++ buffer (this (fst (feed chunks w)))
     = buffer (this w) ++ without_CR (decode (List.concat chunks))) /\
  (Forall (Forall (fun b => code b <= 127)) chunks ->
   unlines (snd (feed chunks w)) ++ buffer (this (fst (feed chunks w)))
     = buffer (this w) ++ without_CR (decode (List.concat chunks))) /\
  Forall (lacks LF) (snd (feed chunks w)) /\
  (chunks <> [] -> lacks LF (buffer (this (fst (feed chunks w))))) /\
  (lacks CR (buffer (this w)) ->
   Forall (lacks CR) (snd (feed chunks w)) /\
   lacks CR (buffer (this (fst (feed chunks w))))) /\
  (forall d : Buffer,
      lacks LF (buffer (this w)) -> lacks LF (decode d) ->
      snd (onData d w) = [] /\
      buffer (this (fst (onData d w))) = buffer (this w) ++ without_CR (decode d)).
Proof.
  intros Hx. destruct (feed_spec chunks w Hx) as (Hfeed & Hlines & Hrest).
  rewrite removeCR_without_CR in Hfeed.
  split; [exact Hfeed|].
  split; [intros Hcut; rewrite Hfeed, (decoded_whole chunks Hcut); reflexivity|].
  split.
  { intros Hascii. rewrite Hfeed, (decoded_whole chunks); [reflexivity|].
    eapply Forall_impl; [|exact Hascii]. exact ascii_ends_on_boundary. }
  split; [exact Hlines|]. split; [exact Hrest|].
  split; [intros Hb; exact (feed_lacks_CR chunks w Hx Hb)|].
  intros d Hb Hd. rewrite <- removeCR_without_CR.
  exact (onData_retains d w Hx Hb Hd).
Qed.

(** X17: where the stream is cut into chunks does not matter as long as no
    cut falls inside a character of several bytes: two sequences of chunks
    with the same bytes, none of which ends inside a character, route the
    same lines to the same commands and leave the same world. *)
Theorem feed_chunking_irrelevant (chunks chunks' : list Buffer) (w : World Cmd Stats) :
  xmodemMode (this w) = false ->
  lacks LF (buffer (this w)) ->
  Forall (fun d => ends_on_boundary d = true) chunks ->
  Forall (fun d => ends_on_boundary d = true) chunks' ->
  List.concat chunks = List.concat chunks' ->
  feed chunks w = feed chunks' w.
Proof.
  intros Hx Hclean Hcut Hcut' Hsame.
  apply feed_same_text; [exact Hx | exact Hclean|].
  rewrite (decoded_whole chunks Hcut), (decoded_whole chunks' Hcut'), Hsame.
  reflexivity.
Qed.

End Utf8Stream.

(** * Properties of the install service *)

Section InstallServiceProperties.

Variables Release Asset Blob : Type.
Variable getReleaseAsset : Release -> option Asset.
Variable getReleaseAssetZip : option Asset -> Blob + InstallService.Thrown.
Variable loadAsync : Blob -> InstallService.Zip + InstallService.Thrown.
Variable convertUint8ArrayToBinaryString : Buffer -> string.
Variable flashDevice : list InstallService.FlashFile -> unit + InstallService.Thrown.

Lemma substring_drop (pre post : string) :
  String.substring (String.length pre) (String.length post) (pre ++ post) = post.
Proof.
  induction pre as [|c pre IH]; cbn; [apply substring_whole | exact IH].
Qed.

Lemma substring_split (s : string) :
  forall k, (k <= String.length s)%nat ->
            s = String.substring 0 k s ++ String.substring k (String.length s - k) s.
Proof.
  induction s as [|c s IH]; intros k Hk.
  - destruct k; reflexivity.
  - destruct k as [|k]; cbn.
    + now rewrite substring_whole.
    + f_equal. apply IH. cbn in Hk. lia.
Qed.

Lemma endsWith_spec (s p : string) :
  endsWith s p = true <-> exists pre, s = pre ++ p.
Proof.
  unfold endsWith. split.
  - destruct (String.length p <=? String.length s)%nat eqn:E; [|discriminate].
    apply Nat.leb_le in E. intros H. apply String.eqb_eq in H.
    exists (String.substring 0 (String.length s - String.length p) s).
    pose proof (substring_split s (String.length s - String.length p)) as Hs.
    replace (String.length s - (String.length s - String.length p))%nat
      with (String.length p) in Hs by lia.
    rewrite H in Hs. apply Hs. lia.
  - intros [pre ->]. rewrite length_append.
    assert (E : (String.length p <=? String.length pre + String.length p)%nat = true)
      by (apply Nat.leb_le; lia).
    rewrite E.
    replace (String.length pre + String.length p - String.length p)%nat
      with (String.length pre) by lia.
    rewrite substring_drop. apply String.eqb_refl.
Qed.

Import InstallService.

Lemma find_first_match {A : Type} (g : A -> bool) (l : list A) :
  match find g l with
  | Some x =>
      exists before after,
        l = (before ++ x :: after)%list /\ g x = true /\
        Forall (fun y => g y = false) before
  | None => Forall (fun y => g y = false) l
  end.
Proof.
  induction l as [|a l IH]; cbn [find]; [constructor|].
  destruct (g a) eqn:E.
  - exists [], l. auto.
  - destruct (find g l) as [x|].
    + destruct IH as (before & after & -> & Hx & Hb).
      exists (a :: before), after. auto.
    + constructor; assumption.
Qed.

Lemma not_endsWith (s p : string) :
  endsWith s p = false -> forall pre, s <> pre ++ p.
Proof.
  intros H pre E. assert (Ht : endsWith s p = true) by (apply endsWith_spec; eauto).
  congruence.
Qed.

(** X18: [findFileInZip] returns the first entry of the archive, in
    enumeration order, whose name ends with the wanted name: no entry before
    it has such a name.  When no entry of the archive has, and in
    particular for an empty archive, it throws the error
    [Missing file '<name>' from package]. *)
Theorem findFileInZip_first_match (zip : Zip) (wanted : string) :
  match findFileInZip zip wanted with
  | inl file =>
      exists before after,
        files zip = (before ++ file :: after)%list /\
        (exists pre, name file = pre ++ wanted) /\
        Forall (fun other => forall pre, name other <> pre ++ wanted) before
  | inr e =>
      e = Error ("Missing file '" ++ wanted ++ "' from package") /\
      Forall (fun other => forall pre, name other <> pre ++ wanted) (files zip)
  end.
Proof.
  unfold findFileInZip.
  pose proof (find_first_match (fun file => endsWith (name file) wanted) (files zip)) as H.
  destruct (find _ (files zip)) as [file|].
  - destruct H as (before & after & Hl & Hx & Hb). exists before, after.
    split; [exact Hl|]. split; [now apply endsWith_spec|].
    eapply Forall_impl; [|exact Hb]. intros other. apply not_endsWith.
  - split; [reflexivity|].
    eapply Forall_impl; [|exact H]. intros other. apply not_endsWith.
Qed.

Lemma findFileInZip_cases (zip : Zip) (wanted : string) :
  (exists file, findFileInZip zip wanted = inl file) \/
  findFileInZip zip wanted = inr (missing wanted).
Proof.
  unfold findFileInZip, missing. destruct (find _ (files zip)); eauto.
Qed.

Lemma unzipAssetData_contents (zipData : Blob) (firmwareType : option FirmwareType)
    (zip : Zip) (contents : list Buffer) :
  loadAsync zipData = inl zip ->
  unzipAssetData _ loadAsync zipData firmwareType = inl contents ->
  Forall2 (fun wanted bytes =>
             exists file, findFileInZip zip wanted = inl file /\
                          file_async zip (name file) = Some bytes)
    (wantedFiles (match firmwareType with Some t => t | None => WIFI end))
    contents.
Proof.
  intros Hload. unfold unzipAssetData. rewrite Hload.
  set (ft := match firmwareType with Some t => t | None => WIFI end).
  unfold wantedFiles.
  destruct (findFileInZip zip ("/" ++ FirmwareType_value ft ++ "/bootloader.bin"))
    as [f1|] eqn:E1; [|discriminate].
  destruct (findFileInZip zip "/common/boot_app0.bin") as [f2|] eqn:E2; [|discriminate].
  destruct (findFileInZip zip ("/" ++ FirmwareType_value ft ++ "/firmware.bin"))
    as [f3|] eqn:E3; [|discriminate].
  destruct (findFileInZip zip ("/" ++ FirmwareType_value ft ++ "/partitions.bin"))
    as [f4|] eqn:E4; [|discriminate].
  unfold readFile.
  destruct (file_async zip (name f1)) as [a|] eqn:R1; [|discriminate].
  destruct (file_async zip (name f2)) as [b|] eqn:R2; [|discriminate].
  destruct (file_async zip (name f3)) as [c|] eqn:R3; [|discriminate].
  destruct (file_async zip (name f4)) as [d|] eqn:R4; [|discriminate].
  intros [= <-]. repeat constructor; eauto.
Qed.

(** X19: what [unzipAssetData] makes of a loaded archive.  When it succeeds
    it yields exactly four contents, those of the first entries found for
    the bootloader, the boot application, the firmware and the partition
    table of the firmware type, in this order.  When one of these names has
    no entry while all names before it have, it fails with the error that
    names this file.  A missing firmware type stands for [WIFI]. *)
Theorem unzipAssetData_outcome (zipData : Blob)
    (firmwareType : option FirmwareType) (zip : Zip) :
  loadAsync zipData = inl zip ->
  let ft := match firmwareType with Some t => t | None => WIFI end in
  (forall contents,
      unzipAssetData _ loadAsync zipData firmwareType = inl contents ->
      List.length contents = 4%nat /\
      Forall2 (fun wanted bytes =>
                 exists file, findFileInZip zip wanted = inl file /\
                              file_async zip (name file) = Some bytes)
        (wantedFiles ft) contents) /\
  (forall found wanted rest,
      wantedFiles ft = (found ++ wanted :: rest)%list ->
      Forall (fun f => exists file, findFileInZip zip f = inl file) found ->
      findFileInZip zip wanted = inr (missing wanted) ->
      unzipAssetData _ loadAsync zipData firmwareType = inr (missing wanted)) /\
  unzipAssetData _ loadAsync zipData None
    = unzipAssetData _ loadAsync zipData (Some WIFI).
Proof.
  intros Hload ft. split; [|split; [|reflexivity]].
  - intros contents H.
    pose proof (unzipAssetData_contents _ _ _ _ Hload H) as HF. fold ft in HF.
    split; [|exact HF]. apply Forall2_length in HF. now rewrite <- HF.
  - intros found wanted rest Hw Hfound Hmiss.
    unfold unzipAssetData. rewrite Hload. fold ft. cbn [append].
    unfold wantedFiles in Hw. cbn [append] in Hw.
    destruct found as [|x1 [|x2 [|x3 [|x4 found]]]]; cbn [app] in Hw.
    + injection Hw as Hw _. subst wanted. rewrite Hmiss. reflexivity.
    + injection Hw as H1 Hw _. subst x1 wanted.
      inversion Hfound as [|? ? [f1 E1] _]; subst.
      rewrite E1, Hmiss. reflexivity.
    + injection Hw as H1 H2 Hw _. subst x1 x2 wanted.
      inversion Hfound as [|? ? [f1 E1] Hf2]; subst.
      inversion Hf2 as [|? ? [f2 E2] _]; subst.
      rewrite E1, E2, Hmiss. reflexivity.
    + injection Hw as H1 H2 H3 Hw _. subst x1 x2 x3 wanted.
      inversion Hfound as [|? ? [f1 E1] Hf2]; subst.
      inversion Hf2 as [|? ? [f2 E2] Hf3]; subst.
      inversion Hf3 as [|? ? [f3 E3] _]; subst.
      rewrite E1, E2, E3, Hmiss. reflexivity.
    + exfalso. apply (f_equal (@List.length string)) in Hw.
      cbn in Hw. rewrite length_app in Hw. cbn in Hw. lia.
Qed.

(** X20: [convertToFlashFiles] accepts exactly the arrays of four elements.
    It pairs them, in the order given, with the names Bootloader, Boot app,
    Firmware and Partitions and the addresses 0x1000, 0xe000, 0x10000 and
    0x8000; for anything else, a missing array included, it throws
    [Could not extract files from package]. *)
Theorem convertToFlashFiles_layout (files : option (list Buffer)) :
  (forall a b c d,
      files = Some [a; b; c; d] ->
      convertToFlashFiles convertUint8ArrayToBinaryString files
      = inl [ mkFlashFile "Bootloader" (convertUint8ArrayToBinaryString a) (Some 0x1000);
              mkFlashFile "Boot app" (convertUint8ArrayToBinaryString b) (Some 0xe000);
              mkFlashFile "Firmware" (convertUint8ArrayToBinaryString c) (Some 0x10000);
              mkFlashFile "Partitions" (convertUint8ArrayToBinaryString d) (Some 0x8000) ]) /\
  ((forall a b c d, files <> Some [a; b; c; d]) ->
   convertToFlashFiles convertUint8ArrayToBinaryString files
   = inr (Error "Could not extract files from package")).
Proof.
  split.
  - intros a b c d ->. reflexivity.
  - intros H. destruct files as [fs|]; [|reflexivity].
    destruct fs as [|a [|b [|c [|d [|e fs]]]]]; try reflexivity.
    now elim (H a b c d).
Qed.

(** X21: the four ways in which [installRelease] ends, with the states it
    reports through [onState].  It reports DOWNLOADING, EXTRACTING, FLASHING
    in this order, stops at the first stage that fails, reports ERROR then
    and rejects with the message of that stage; it reports DONE and
    resolves exactly when the download, the extraction and [flashDevice]
    succeeded.  After a successful extraction [convertToFlashFiles] does not
    throw, so the flashing stage fails only if [flashDevice] does. *)
Theorem installRelease_outcome (release : Release)
    (firmwareType : option FirmwareType) :
  let install :=
    installRelease _ _ _ getReleaseAsset getReleaseAssetZip loadAsync
      convertUint8ArrayToBinaryString flashDevice release firmwareType in
  let download := getReleaseAssetZip (getReleaseAsset release) in
  (install = ([DOWNLOADING; ERROR], inr (Text "Could not download package")) /\
   exists e, download = inr e) \/
  (exists zipData,
      download = inl zipData /\
      ((install = ([DOWNLOADING; EXTRACTING; ERROR],
                   inr (Text "Could not unzip package, it seems corrupted")) /\
        exists e, unzipAssetData _ loadAsync zipData firmwareType = inr e) \/
       (exists contents flashFiles,
           unzipAssetData _ loadAsync zipData firmwareType = inl contents /\
           convertToFlashFiles convertUint8ArrayToBinaryString (Some contents)
             = inl flashFiles /\
           ((install = ([DOWNLOADING; EXTRACTING; FLASHING; ERROR],
                        inr (Text "Was not able to flash device")) /\
             exists e, flashDevice flashFiles = inr e) \/
            (install = ([DOWNLOADING; EXTRACTING; FLASHING; DONE], inl tt) /\
             flashDevice flashFiles = inl tt))))).
Proof.
  intros install download. subst install download.
  cbv beta zeta delta [installRelease].
  destruct (getReleaseAssetZip (getReleaseAsset release)) as [zipData | e] eqn:D;
    [|left; cbn; eauto].
  right. exists zipData. split; [reflexivity|].
  cbn [andThen catch onState await raise pure app].
  destruct (unzipAssetData _ loadAsync zipData firmwareType) as [contents | e] eqn:U;
    [|left; cbn; eauto].
  right.
  assert (Hlen : List.length contents = 4%nat).
  { destruct (loadAsync zipData) as [zip | e] eqn:L.
    - pose proof (unzipAssetData_contents _ _ _ _ L U) as HF.
      apply Forall2_length in HF. now rewrite <- HF.
    - unfold unzipAssetData in U. rewrite L in U. discriminate. }
  destruct contents as [|a [|b [|c [|d [|x contents]]]]]; try discriminate.
  eexists. eexists. split; [reflexivity|]. split; [reflexivity|].
  cbn [andThen catch onState await raise pure app
       convertToFlashFiles List.length Nat.eqb negb nth].
  match goal with
  | |- context [flashDevice ?ffs] => destruct (flashDevice ffs) as [[] | e] eqn:F
  end.
  - right. cbn. auto.
  - left. cbn. eauto.
Qed.

End InstallServiceProperties.

(** * The model evaluated on concrete worlds *)

Section Evaluation.

Import SimpleCommands.

(** C4, as stated, fails: a line that begins with the marker and holds it a
    second time contains the marker at index 11, and is rejected, because
    [indexOf] reports the first occurrence, at index 0. *)
Lemma isWelcomeString_rejects_leading_marker :
  let line := " [FluidNC v [FluidNC v" in
  ~ (isWelcomeString (Some line) = true <->
     line <> "" /\
     (occursAt 0 "GrblHAL " line \/
      occursAt 0 "Grbl " line \/
      exists i, (0 < i)%nat /\ occursAt i " [FluidNC v" line)).
Proof.
  intros line [_ H].
  assert (Hacc : isWelcomeString (Some line) = true).
  { apply H. split; [discriminate|]. right; right. exists 11%nat.
    split; [lia|]. exists " [FluidNC v", "". split; reflexivity. }
  discriminate Hacc.
Qed.

(** C9, as stated, fails: on an open port with a known version and no
    statistics yet, [connect] sends the statistics query, and when the device
    answers the statistics of the session are set. *)
Lemma connect_when_open_fetches_statistics :
  isOpen (serialPort (js Demo.connected)) = true /\
  match connect Demo.answer Demo.connected with
  | Some (o, _, w') =>
      o = Returned CONNECTED /\
      stats (this Demo.connected) = None /\
      stats (this w')
        = Some ["[MSG:INFO: Channel auto report interval set to 50 ms]"] /\
      written (serialPort (js Demo.connected)) = [] /\
      written (serialPort (js w')) = [Demo.bytes ("$SS" ++ newline)]
  | None => False
  end.
Proof. vm_compute. repeat split. Qed.

(** The concrete commands report completion as the spec demands. *)
Lemma simple_notifies : CommandNotifies simpleCommands.
Proof.
  intros line [kind text st resp] Hpend. cbn in *.
  unfold simple_appendLine. cbn.
  destruct kind; cbn; try tauto;
    destruct (String.eqb line "ok"); cbn; split; congruence.
Qed.

Lemma wf_fresh : wf Demo.fresh.
Proof.
  unfold wf, promises_allocated. cbn.
  split; [intros p o []|]. split; [intros t []|]. split; [constructor|]. split.
  - intros r k H. destruct r as [|[|r]]; discriminate.
  - intros r k tid H. destruct r as [|[|r]]; discriminate.
Qed.

(** C1 as the claim states it fails where a chunk ends inside a character of
    several bytes: the two halves of the character are decoded on their own,
    each to U+FFFD, and what the service assembles is not the text of the
    concatenated chunks. *)
Lemma onData_garbles_split_character :
  xmodemMode (this Demo.fresh) = false /\
  unlines (snd (feed (codec := Utf8.utf8) Demo.garbled Demo.fresh))
    ++ buffer (this (fst (feed (codec := Utf8.utf8) Demo.garbled Demo.fresh)))
  <> buffer (this Demo.fresh)
       ++ without_CR (toString (Codec := Utf8.utf8) (List.concat Demo.garbled)).
Proof. split; [reflexivity|]. vm_compute. discriminate. Qed.

(** C1 at the demo stream. *)
Lemma onData_reassembles_stream_witness :
  unlines (snd (feed (codec := Utf8.utf8) Demo.stream Demo.fresh))
    ++ buffer (this (fst (feed (codec := Utf8.utf8) Demo.stream Demo.fresh)))
  = buffer (this Demo.fresh) ++ without_CR (Utf8.decode (List.concat Demo.stream)).
Proof.
  refine (proj1 (proj2 (onData_reassembles_stream Demo.stream Demo.fresh eq_refl)) _).
  repeat first [apply Forall_nil | apply Forall_cons; [reflexivity|]].
Defined.

(** C6 at a chunk that arrives during a transfer. *)
Lemma onData_ignores_bytes_during_transfer_witness :
  onData (Demo.bytes ("ok" ++ newline)) Demo.transferring = (Demo.transferring, []).
Proof.
  exact (proj1 (onData_ignores_bytes_during_transfer
                  (Demo.bytes ("ok" ++ newline)) Demo.transferring eq_refl)).
Defined.

(** C8 at an unsolicited [ok]. *)
Lemma onData_discards_line_on_empty_queue_witness :
  fst (onData (Demo.bytes ("ok" ++ newline)) Demo.fresh) = Demo.fresh.
Proof.
  refine (proj2 (proj2 (onData_discards_line_on_empty_queue
                          (Demo.bytes ("ok" ++ newline)) "ok" Demo.fresh
                          eq_refl eq_refl I eq_refl _)) eq_refl).
  cbn. repeat split; discriminate.
Defined.

(** C10 at a chunk with a carriage return and an unfinished line. *)
Lemma onData_keeps_buffer_clean_witness :
  lacks LF (buffer (this (fst (onData (Demo.bytes ("ok" ++ String CR newline ++ "<Id"))
                                Demo.fresh)))) /\
  lacks CR (buffer (this (fst (onData (Demo.bytes ("ok" ++ String CR newline ++ "<Id"))
                                Demo.fresh)))).
Proof.
  refine (proj2 (onData_keeps_buffer_clean
                   (Demo.bytes ("ok" ++ String CR newline ++ "<Id")) Demo.fresh I _)).
  intros H. discriminate H.
Defined.

(** C4 at the Grbl banner. *)
Lemma isWelcomeString_accepts_witness :
  "Grbl 1.1h ['$' for help]" <> "" /\
  (occursAt 0 "GrblHAL " "Grbl 1.1h ['$' for help]" \/
   occursAt 0 "Grbl " "Grbl 1.1h ['$' for help]" \/
   exists i, (0 < i)%nat /\
             occursAt i " [FluidNC v" "Grbl 1.1h ['$' for help]" /\
             forall j, (j < i)%nat ->
                       ~ occursAt j " [FluidNC v" "Grbl 1.1h ['$' for help]").
Proof.
  exact (proj1 (proj1 isWelcomeString_accepts "Grbl 1.1h ['$' for help]") eq_refl).
Defined.

(** C2 at the demo batch: the ping command and the plain command are
    resolved in the order in which they were sent. *)
Lemma commands_complete_in_order_witness :
  commands (this (fst (feed Demo.replies (fst (sendAll Demo.batch 0 Demo.fresh))))) = [] /\
  settled (js (fst (feed Demo.replies (fst (sendAll Demo.batch 0 Demo.fresh)))))
  = (settled (js Demo.fresh)
     ++ map (fun pc => (fst pc, Resolved (snd pc)))
          (combine (snd (sendAll Demo.batch 0 Demo.fresh)) Demo.batch))%list.
Proof.
  refine (proj2 (proj2 (proj2 (commands_complete_in_order (notifies := simple_notifies)
                          Demo.batch Demo.expected Demo.replies Demo.fresh
                          eq_refl eq_refl eq_refl _ _ _ _ eq_refl)))).
  - intros p o [].
  - repeat constructor; cbn; intuition discriminate.
  - repeat constructor; cbn; discriminate.
  - repeat constructor; cbn; intuition discriminate.
Defined.

(** C3 at a command sent with a timeout of one second that gets no answer:
    after one second it is off the queue and its promise is rejected. *)
Lemma send_timeout_witness :
  ~ In 2%nat (commands (this (advance 1000
                               (run Demo.meanwhile (fst (send 2%nat 1000 Demo.fresh)))))) /\
  settlement 0%nat
    (settled (js (advance 1000 (run Demo.meanwhile (fst (send 2%nat 1000 Demo.fresh))))))
  = Some (Rejected "Command timed out").
Proof.
  pose proof (send_timeout (notifies := simple_notifies) 2%nat 1000
                Demo.meanwhile 1000 Demo.fresh wf_fresh) as H.
  cbv zeta in H. destruct H as [H _].
  destruct (H eq_refl) as (_ & _ & H').
  destruct (H' eq_refl (Z.le_refl _)) as (_ & Hgone & Hrejected).
  split; assumption.
Defined.

(** C5 at the silent device. *)
Lemma connect_without_banner_witness :
  _initializeController Demo.temporaryReader Demo.silent2 Demo.reset
  = Some (Returned tt, Demo.silent3, Demo.unwelcomed) /\
  connect Demo.silent Demo.fresh
  = Some (Returned CONNECTED, Demo.silent3,
          addReader OnDataReader
            (with_status CONNECTED (removeReader Demo.temporaryReader Demo.unwelcomed))) /\
  currentVersion
    (this (addReader OnDataReader
             (with_status CONNECTED (removeReader Demo.temporaryReader Demo.unwelcomed))))
  = None.
Proof.
  assert (H1 : connect_open Demo.silent Demo.fresh
               = Some (Returned Demo.temporaryReader, Demo.silent1, Demo.opened))
    by (vm_compute; reflexivity).
  assert (H2 : connect_reset Demo.temporaryReader Demo.silent1 Demo.opened
               = Some (Returned tt, Demo.silent2, Demo.reset))
    by (vm_compute; reflexivity).
  assert (H3 : waitForWelcomeString Demo.temporaryReader Demo.silent2 Demo.reset
               = Some (Returned false, Demo.silent3, Demo.unwelcomed))
    by (vm_compute; reflexivity).
  destruct (connect_without_banner Demo.silent Demo.silent1 Demo.silent2
              Demo.silent3 Demo.fresh Demo.opened Demo.reset Demo.unwelcomed
              Demo.temporaryReader eq_refl eq_refl H1 H2 H3)
    as (_ & A & B & _ & C & _).
  exact (conj A (conj B C)).
Defined.

(** C7 at a device that answers the ping and at one that does not. *)
Lemma ping_outcome_witness :
  (exists s' w',
      ping Demo.answer Demo.connected = Some (Returned tt, s', w') /\
      status (this w') = CONNECTED) /\
  (exists s' w',
      ping [] Demo.fresh = Some (Threw None, s', w') /\
      status (this w') = status (this Demo.fresh)).
Proof.
  split.
  - destruct (ping_outcome Demo.answer Demo.connected) as (_ & Hok & _).
    cbv zeta in Hok. do 2 eexists. eapply Hok. vm_compute. reflexivity.
  - destruct (ping_outcome [] Demo.fresh) as (_ & _ & Hfail & _).
    cbv zeta in Hfail. do 2 eexists. eapply Hfail. vm_compute. reflexivity.
Defined.

(** C9, as amended, at a connected service whose device answers the
    statistics query, and at one whose device stays silent. *)
Lemma connect_when_open_witness :
  (exists s' w',
      connect Demo.answer Demo.connected = Some (Returned CONNECTED, s', w') /\
      stats (this w')
        = Some ["[MSG:INFO: Channel auto report interval set to 50 ms]"] /\
      readers (serialPort (js w')) = [OnDataReader]) /\
  (exists s' w',
      connect [] Demo.connected = Some (Returned CONNECTED, s', w') /\
      stats (this w') = None /\
      now (js w') = 5000).
Proof.
  destruct (proj1 (proj2 (connect_when_open Demo.answer Demo.connected eq_refl))
              eq_refl eq_refl) as (_ & Hok & _).
  destruct (proj1 (proj2 (connect_when_open [] Demo.connected eq_refl))
              eq_refl eq_refl) as (_ & _ & Hfail).
  cbv zeta in Hok, Hfail. split.
  - do 2 eexists. split; [eapply Hok; vm_compute; reflexivity|].
    vm_compute. split; reflexivity.
  - do 2 eexists. split; [eapply Hfail; vm_compute; reflexivity|].
    vm_compute. split; reflexivity.
Defined.

Lemma wf_connected : wf Demo.connected.
Proof.
  unfold wf, promises_allocated. cbn.
  split; [intros p o []|]. split; [intros t []|]. split; [constructor|]. split.
  - intros r k H. destruct r as [|[|r]]; discriminate.
  - intros r k tid H. destruct r as [|[|r]]; discriminate.
Qed.

(** X1 at a service with the listener 7 registered twice and the listener 8
    once. *)
Lemma removeListener_silences_witness :
  count_occ Nat.eq_dec
    (map fst (_notifyStatus CONNECTED (removeListener 7%nat Demo.listened))) 8%nat
  = count_occ Nat.eq_dec (map fst (_notifyStatus CONNECTED Demo.listened)) 8%nat.
Proof.
  apply (proj2 (proj2 (removeListener_silences 7%nat CONNECTED Demo.listened))).
  discriminate.
Defined.

(** X2 at a listener that is added twice. *)
Lemma removeListener_undoes_addListener_witness :
  removeListener 7%nat (Nat.iter 2 (addListener 7%nat) Demo.fresh) = Demo.fresh.
Proof.
  apply (removeListener_undoes_addListener 7%nat 2 Demo.fresh).
  intros H. exact H.
Defined.

(** X4 at an adapter that has received two empty chunks. *)
Lemma adapter_peekByte_first_pending_witness :
  XModemSocketAdapter_peekByte
    (adapter_receive [[]; []] (mkAdapter [] Demo.temporaryReader)) = None.
Proof.
  apply (proj2 (proj2 (adapter_peekByte_first_pending [[]; []]
                         (mkAdapter [] Demo.temporaryReader)))).
  split; [reflexivity | repeat constructor].
Defined.




(** X8 at a device that prints its banner after the reset, and at one that
    is lost during the handshake: the temporary reader is detached in both
    cases. *)
Lemma hardReset_outcome_witness :
  status (this Demo.rebooted) = status (this Demo.connected) /\
  isOpen (serialPort (js Demo.rebooted)) = isOpen (serialPort (js Demo.connected)) /\
  ~ In (BufferedReader (nextRef (js Demo.connected)))
       (readers (serialPort (js Demo.rebooted))) /\
  ~ In (BufferedReader (nextRef (js Demo.connected)))
       (readers (serialPort (js Demo.interrupted))).
Proof.
  assert (E : hardReset (Reply 1 (Fulfilled []) :: Demo.banner) Demo.connected
              = Some (Returned tt, [], Demo.rebooted))
    by (vm_compute; reflexivity).
  assert (E' : hardReset Demo.brokenReset Demo.connected
               = Some (Threw (Some "device lost"), [], Demo.interrupted))
    by (vm_compute; reflexivity).
  destruct (hardReset_outcome _ _ _ _ _ E) as (A & _ & B & _ & _ & _ & C & _).
  destruct (hardReset_outcome _ _ _ _ _ E') as (_ & _ & _ & _ & _ & _ & D & _).
  exact (conj A (conj B (conj (C _ _ eq_refl) (D _ _ eq_refl)))).
Defined.

(** X9 at a fresh service and a device that prints its banner. *)
Lemma connect_closed_outcome_witness :
  status (this Demo.greeted) = CONNECTED /\
  isOpen (serialPort (js Demo.greeted)) = true.
Proof.
  assert (E : connect Demo.greeting Demo.fresh
              = Some (Returned CONNECTED, [], Demo.greeted))
    by (vm_compute; reflexivity).
  destruct (connect_closed_outcome Demo.greeting Demo.fresh _ _ _ eq_refl E)
    as [(_ & A & B & _) | (reason & t & Habs & _)]; [|discriminate Habs].
  exact (conj A B).
Defined.

(** X10 at a connected service. *)
Lemma getStats_caches_witness :
  exists st s' w',
    getStats Demo.answer Demo.connected = Some (Returned st, s', w') /\
    st = stats (this w').
Proof.
  destruct (getStats_caches Demo.answer Demo.connected wf_connected)
    as (st & s' & w' & A & B & _).
  exists st, s', w'. exact (conj A B).
Defined.

(** X11 at a device whose first line is its banner. *)
Lemma waitForWelcomeString_verdict_witness :
  waitForWelcomeString Demo.temporaryReader Demo.banner Demo.connected
  = Some (Returned true, tl Demo.banner, advance 5 Demo.connected).
Proof.
  exact (proj2 (waitForWelcomeString_verdict Demo.temporaryReader Demo.banner
                  Demo.connected) _ _ _ eq_refl eq_refl).
Defined.

(** X12 at a handshake that finds the banner: the version is the reply to
    the version query, not the line read after the newline. *)
Lemma _initializeController_outcome_witness :
  status (this Demo.welcomed) = status (this Demo.connected) /\
  exists v consumed,
    replies_of Demo.banner = (consumed ++ replies_of [])%list /\
    handshake_replies v consumed /\
    currentVersion (this Demo.welcomed) = Some (toString v) /\
    toString v = "[VER:3.8 FluidNC v3.8.0:]".
Proof.
  assert (E : _initializeController Demo.temporaryReader Demo.banner Demo.connected
              = Some (Returned tt, [], Demo.welcomed))
    by (vm_compute; reflexivity).
  destruct (_initializeController_outcome _ _ _ _ _ _ E) as (A & _ & B).
  split; [exact A|].
  destruct (B eq_refl) as [(_ & Hlate & _) | (v & consumed & Hr & Hh & _ & Hv & _)].
  - vm_compute in Hlate. now elim Hlate.
  - exists v, consumed. split; [exact Hr|]. split; [exact Hh|]. split; [exact Hv|].
    assert (Hc : currentVersion (this Demo.welcomed)
                 = Some "[VER:3.8 FluidNC v3.8.0:]") by (vm_compute; reflexivity).
    rewrite Hv in Hc. now injection Hc.
Defined.

(** X13 at a command sent with a timeout of one second that gets no
    answer. *)
Lemma send_no_early_timeout_witness :
  now (js Demo.fresh) + 1000
  <= now (js (run (Demo.meanwhile ++ [Passes 1000])
                (fst (send 2%nat 1000 Demo.fresh)))).
Proof.
  refine (send_no_early_timeout 2%nat 1000 (Demo.meanwhile ++ [Passes 1000])
            Demo.fresh "Command timed out" wf_fresh _ _).
  - unfold TIMEOUT_MAX. lia.
  - vm_compute. reflexivity.
Defined.

(** X14 at a device that answers the third ping, and at one that stays
    silent. *)
Lemma _detectController_outcome_witness :
  (exists s' w',
      _detectController Demo.late Demo.connected = Some (Returned tt, s', w') /\
      status (this w') = CONNECTED /\
      List.length (written (serialPort (js w'))) = 3%nat) /\
  (exists s' w',
      _detectController [] Demo.fresh
      = Some (Threw (Some "Could not detect controller..."), s', w') /\
      status (this w') = UNKNOWN_DEVICE).
Proof.
  split.
  - destruct (_detectController_outcome Demo.late Demo.connected wf_connected)
      as (o & s' & w' & n & E & _ & _ & [(-> & Hst & _) | (-> & _)]).
    + exists s', w'. split; [exact E|]. split; [exact Hst|].
      vm_compute in E. injection E as _ <-. reflexivity.
    + vm_compute in E. discriminate E.
  - destruct (_detectController_outcome [] Demo.fresh wf_fresh)
      as (o & s' & w' & n & E & _ & _ & [(-> & _) | (-> & Hst & _)]).
    + vm_compute in E. discriminate E.
    + exists s', w'. split; [exact E | exact Hst].
Defined.

(** X15 at a plain command that is answered after half a second. *)
Lemma send_answered_in_time_witness :
  settlement (snd (send 2%nat 1000 Demo.fresh))
    (settled (js (fst (feed [Demo.bytes ("a" ++ String CR newline ++ "ok" ++ newline)]
                         (advance 500 (fst (send 2%nat 1000 Demo.fresh)))))))
  = Some (Resolved 2%nat).
Proof.
  refine (proj1 (send_answered_in_time (notifies := simple_notifies)
                   2%nat 1000 500 ["a"; "ok"]
                   [Demo.bytes ("a" ++ String CR newline ++ "ok" ++ newline)]
                   Demo.fresh wf_fresh eq_refl eq_refl eq_refl eq_refl _ _ eq_refl _ _)).
  - cbn. intuition discriminate.
  - repeat constructor; cbn; intuition discriminate.
  - unfold TIMEOUT_MAX. lia.
  - vm_compute. reflexivity.
Defined.

(** X16 at a plain command that is sent twice without a timeout. *)
Lemma resend_orphans_promise_witness :
  settlement (snd (send 2%nat 0 Demo.fresh))
    (settled (js (run [Arrives (Demo.bytes ("ok" ++ newline))]
                    (fst (send 2%nat 0 (run [] (fst (send 2%nat 0 Demo.fresh))))))))
  = None.
Proof.
  refine (proj2 (resend_orphans_promise 2%nat 0 0 []
                   [Arrives (Demo.bytes ("ok" ++ newline))] Demo.fresh
                   wf_fresh eq_refl) _).
  vm_compute. discriminate.
Defined.

(** X17 at a line with a character of two bytes, cut after the first
    character and not cut at all. *)
Lemma feed_chunking_irrelevant_witness :
  feed (codec := Utf8.utf8) Demo.intact Demo.fresh
  = feed (codec := Utf8.utf8) [List.concat Demo.intact] Demo.fresh.
Proof.
  refine (feed_chunking_irrelevant Demo.intact [List.concat Demo.intact] Demo.fresh
            eq_refl I _ _ eq_refl);
    repeat first [apply Forall_nil | apply Forall_cons; [reflexivity|]].
Defined.

(** X18 at a package with firmware for both types: the entry found for the
    wifi firmware is the first one with this suffix. *)
Lemma findFileInZip_first_match_witness :
  match InstallService.findFileInZip Demo.package "/wifi/firmware.bin" with
  | inl file =>
      exists before after,
        InstallService.files Demo.package = (before ++ file :: after)%list /\
        (exists pre, InstallService.name file = pre ++ "/wifi/firmware.bin") /\
        Forall (fun other =>
                  forall pre, InstallService.name other <> pre ++ "/wifi/firmware.bin")
          before
  | inr e =>
      e = InstallService.Error ("Missing file '" ++ "/wifi/firmware.bin" ++ "' from package") /\
      Forall (fun other =>
                forall pre, InstallService.name other <> pre ++ "/wifi/firmware.bin")
        (InstallService.files Demo.package)
  end.
Proof.
  exact (findFileInZip_first_match Demo.package "/wifi/firmware.bin").
Defined.

(** X19 at a package without the boot application. *)
Lemma unzipAssetData_outcome_witness :
  InstallService.unzipAssetData unit (fun _ => inl Demo.incomplete) tt None
  = inr (InstallService.missing "/common/boot_app0.bin").
Proof.
  refine (proj1 (proj2 (unzipAssetData_outcome unit (fun _ => inl Demo.incomplete)
                          tt None Demo.incomplete eq_refl))
            ["/wifi/bootloader.bin"] "/common/boot_app0.bin"
            ["/wifi/firmware.bin"; "/wifi/partitions.bin"] eq_refl _ eq_refl).
  constructor; [|constructor]. eexists. vm_compute. reflexivity.
Defined.

(** X20 at four images. *)
Lemma convertToFlashFiles_layout_witness :
  InstallService.convertToFlashFiles string_of_list_byte
    (Some [Demo.bytes "a"; Demo.bytes "b"; Demo.bytes "c"; Demo.bytes "d"])
  = inl [ InstallService.mkFlashFile "Bootloader" "a" (Some 4096);
          InstallService.mkFlashFile "Boot app" "b" (Some 57344);
          InstallService.mkFlashFile "Firmware" "c" (Some 65536);
          InstallService.mkFlashFile "Partitions" "d" (Some 32768) ].
Proof.
  exact (proj1 (convertToFlashFiles_layout string_of_list_byte _) _ _ _ _ eq_refl).
Defined.

(** X22 at a ping that is timed out and a plain command behind it. *)
Lemma late_reply_goes_to_next_command_witness :
  commands (this (advance 1000 (fst (send 2%nat 0 (fst (send 0%nat 1000 Demo.fresh))))))
  = [2%nat].
Proof.
  refine (proj1 (proj2 (late_reply_goes_to_next_command 0%nat 2%nat 1000 1000 "pong"
                          [Demo.bytes ("pong" ++ newline)] Demo.fresh
                          wf_fresh eq_refl eq_refl eq_refl eq_refl _ eq_refl _ _ eq_refl))).
  - discriminate.
  - vm_compute. discriminate.
  - cbn. intuition discriminate.
Defined.

(** X23 at a port that opens and then fails. *)
Lemma connect_again_after_failure_witness :
  connect Demo.answer Demo.halfOpen
  = Some (Returned (status (this Demo.fresh)), Demo.answer, Demo.halfOpen).
Proof.
  assert (E : connect Demo.faulty Demo.fresh
              = Some (Threw (Some "write failed"), [], Demo.halfOpen))
    by (vm_compute; reflexivity).
  refine (proj1 (connect_again_after_failure Demo.faulty Demo.answer Demo.fresh
                   _ _ _ eq_refl E eq_refl _)).
  right. reflexivity.
Defined.

(** X24 at a device that prints one line and then an empty one. *)
Lemma waitForSettle_stops_at_empty_line_witness :
  exists w',
    waitForSettle Demo.temporaryReader 500
      [Reply 5 (Fulfilled (Demo.bytes "ok")); Reply 610 (Fulfilled [])] Demo.connected
    = Some (Returned tt, [], w').
Proof.
  destruct (waitForSettle_stops_at_empty_line Demo.temporaryReader 500 610 []
              [(5, Demo.bytes "ok")] Demo.connected)
    as (w' & E & _).
  - repeat constructor. discriminate.
  - exists w'. exact E.
Defined.

(** X25 at a fresh service and a device that prints its banner. *)
Lemma connect_wire_trace_witness :
  exists handshake query,
    written (serialPort (js Demo.greeted))
    = (written (serialPort (js Demo.fresh)) ++ [[Byte.x0c; Byte.x18]]
       ++ handshake ++ query)%list /\
    handshake = [fromString newline; fromString ("$I" ++ newline)] /\
    exists a0 a1 v consumed rest,
      replies_of Demo.greeting
      = (Fulfilled a0 :: Fulfilled a1 :: consumed ++ rest)%list /\
      handshake_replies v consumed /\
      currentVersion (this Demo.greeted) = Some (toString v).
Proof.
  assert (E : connect Demo.greeting Demo.fresh
              = Some (Returned CONNECTED, [], Demo.greeted))
    by (vm_compute; reflexivity).
  destruct (connect_wire_trace Demo.greeting Demo.fresh _ _ _ eq_refl E)
    as (handshake & query & A & [(_ & Hv) | (Hh & _ & Hr)] & _).
  - vm_compute in Hv. discriminate Hv.
  - exists handshake, query. exact (conj A (conj Hh Hr)).
Defined.

(** X26 at a ping that is not answered. *)
Lemma awaited_commands_leave_no_timer_witness :
  incl (timers (js (Demo.world_of (ping [] Demo.fresh)))) (timers (js Demo.fresh)).
Proof.
  refine (proj1 (awaited_commands_leave_no_timer [] Demo.fresh wf_fresh)
            (Threw None) [] _ _).
  vm_compute. reflexivity.
Defined.

(** X27 at a connect that succeeds. *)
Lemma transfer_flag_untouched_witness : same_flags Demo.fresh Demo.greeted.
Proof.
  refine (proj1 (transfer_flag_untouched Demo.greeting Demo.fresh)
            (Returned CONNECTED) [] Demo.greeted _).
  vm_compute. reflexivity.
Defined.

End Evaluation.
